(** * marioOS1.0.py: the platformer simulation and the desktop shell

    The first part is a shallow embedding of the class [MarioDemo]
    (reset_level, _update_physics, _move_and_collide, _enemy_hits_edge, the
    key handlers) and of the geometry helpers clamp, _rects_overlap and
    _rect_circle_overlap.

    Numbers.  Positions and velocities are Python floats, sizes and level
    coordinates are Python ints that are promoted when mixed with floats.
    Both are embedded in the rationals [Q] with exact arithmetic: rounding
    of binary64 is not modelled, comparisons and clamps are.  The score is
    a Python int and is a [Z].

    Objects.  The dicts with a fixed set of string keys (player, enemy,
    goal, keys) are records; the tuples are tuples; [self] is the record
    [MarioDemo] and every method is a function that returns the new
    [self].  The canvas and the drawing methods are not modelled.

    The second part, the module [Desktop], is the data side of the desktop
    shell: the classes [Icon] and [Room] with their dicts, and the methods
    of [HaltmannDesktop] that make, move, copy and remove icons and rooms
    and that save and load a layout.

    The file has the definitions first (the two models, then the
    predicates the statements use), then the properties. *)

From Stdlib Require Import QArith Qabs Lqa ZArith Lia List Bool String Ascii.
From Stdlib Require DecimalString DecimalZ OrderedTypeEx Permutation Sorted.
Import ListNotations.

Local Open Scope Q_scope.

(** ** Python comparisons and builtins on numbers *)

Module Py.

Definition leb (a b : Q) : bool := Qle_bool a b.
Definition ltb (a b : Q) : bool := negb (Qle_bool b a).
Definition geb (a b : Q) : bool := leb b a.
Definition gtb (a b : Q) : bool := ltb b a.

(** [min(a, b)] and [max(a, b)] return the first of their arguments
    unless the second is strictly better. *)
Definition min (a b : Q) : Q := if ltb b a then b else a.
Definition max (a b : Q) : Q := if gtb b a then b else a.

Definition abs (a : Q) : Q := Qabs a.

(** [range(start, stop, step)] for a positive step. *)
Definition range (start stop step : Z) : list Z :=
  List.map (fun k => (start + step * Z.of_nat k)%Z)
           (seq 0 (Z.to_nat ((stop - start + step - 1) / step))).

(** [str.lower()] on ASCII letters. *)
Definition lower_ascii (c : ascii) : ascii :=
  let n := nat_of_ascii c in
  if (65 <=? n)%nat && (n <=? 90)%nat then ascii_of_nat (n + 32) else c.

Fixpoint lower (s : string) : string :=
  match s with
  | EmptyString => EmptyString
  | String c r => String (lower_ascii c) (lower r)
  end.

(** [k in (s1, s2, ...)] *)
Definition in_ (k : string) (l : list string) : bool :=
  existsb (String.eqb k) l.

End Py.

Declare Scope py_scope.
Delimit Scope py_scope with py.
Infix "<=?" := Py.leb (at level 70, no associativity) : py_scope.
Infix "<?" := Py.ltb (at level 70, no associativity) : py_scope.
Infix ">=?" := Py.geb (at level 70, no associativity) : py_scope.
Infix ">?" := Py.gtb (at level 70, no associativity) : py_scope.
Local Open Scope py_scope.

(** ** Utility and geometry helpers *)

Definition clamp (v lo hi : Q) : Q := Py.max lo (Py.min hi v).

(** A rectangle is the tuple (x1, y1, x2, y2). *)
Definition Rect : Type := Q * Q * Q * Q.

Definition _rects_overlap (a b : Rect) : bool :=
  let '(a0, a1, a2, a3) := a in
  let '(b0, b1, b2, b3) := b in
  negb ((a2 <=? b0) || (a0 >=? b2) || (a3 <=? b1) || (a1 >=? b3)).

Definition _rect_circle_overlap (rect : Rect) (circle : Q * Q * Q) : bool :=
  let '(x1, y1, x2, y2) := rect in
  let '(cx, cy, r) := circle in
  let nearest_x := clamp cx x1 x2 in
  let nearest_y := clamp cy y1 y2 in
  let dx := cx - nearest_x in
  let dy := cy - nearest_y in
  (dx * dx + dy * dy) <=? r * r.

(** ** Data model *)

(** self.player *)
Record Player := mkPlayer {
  p_x : Q; p_y : Q; p_w : Q; p_h : Q; p_vx : Q; p_vy : Q; p_on_ground : bool
}.

(** an element of self.platforms: the tuple (x, y, w, h) *)
Definition Platform : Type := Q * Q * Q * Q.

(** an element of self.coins: the list [x, y, r, alive] *)
Record Coin := mkCoin { c_x : Q; c_y : Q; c_r : Q; c_alive : bool }.

(** an element of self.enemies *)
Record Enemy := mkEnemy {
  e_x : Q; e_y : Q; e_w : Q; e_h : Q; e_vx : Q; e_alive : bool
}.

(** self.goal *)
Record Goal := mkGoal { g_x : Q; g_y : Q; g_w : Q; g_h : Q }.

(** self.keys *)
Record Keys := mkKeys { k_left : bool; k_right : bool; k_jump : bool }.

(** The fields of a MarioDemo instance that the simulation reads or writes.
    [rng] stands for the state of the global generator of module random,
    kept as the seed it was last given: the class seeds it and never draws
    from it. *)
Record MarioDemo := mkDemo {
  rng : Z;
  W : Q; H : Q;
  keys : Keys;
  scroll_x : Q;
  player : Player;
  platforms : list Platform;
  coins : list Coin;
  enemies : list Enemy;
  goal : Goal;
  score : Z;
  win : bool
}.

Definition set_x (p : Player) (v : Q) : Player :=
  mkPlayer v (p_y p) (p_w p) (p_h p) (p_vx p) (p_vy p) (p_on_ground p).
Definition set_y (p : Player) (v : Q) : Player :=
  mkPlayer (p_x p) v (p_w p) (p_h p) (p_vx p) (p_vy p) (p_on_ground p).
Definition set_vx (p : Player) (v : Q) : Player :=
  mkPlayer (p_x p) (p_y p) (p_w p) (p_h p) v (p_vy p) (p_on_ground p).
Definition set_vy (p : Player) (v : Q) : Player :=
  mkPlayer (p_x p) (p_y p) (p_w p) (p_h p) (p_vx p) v (p_on_ground p).
Definition set_on_ground (p : Player) (b : bool) : Player :=
  mkPlayer (p_x p) (p_y p) (p_w p) (p_h p) (p_vx p) (p_vy p) b.

Definition set_e_x (e : Enemy) (v : Q) : Enemy :=
  mkEnemy v (e_y e) (e_w e) (e_h e) (e_vx e) (e_alive e).
Definition set_e_vx (e : Enemy) (v : Q) : Enemy :=
  mkEnemy (e_x e) (e_y e) (e_w e) (e_h e) v (e_alive e).
Definition set_e_alive (e : Enemy) (b : bool) : Enemy :=
  mkEnemy (e_x e) (e_y e) (e_w e) (e_h e) (e_vx e) b.

Definition set_c_alive (c : Coin) (b : bool) : Coin :=
  mkCoin (c_x c) (c_y c) (c_r c) b.

(** ** Level generation and reset *)

Definition RNG_SEED : Z := 1337.

Definition Q_of (z : Z) : Q := inject_Z z.

(** [reset_level] rebuilds every game field; [W] and [H] are set once by
    [__init__] and kept.  [random.seed(RNG_SEED)] reseeds the global
    generator, which the level generation never draws from. *)
Definition reset_level (self : MarioDemo) : MarioDemo :=
  let rng := RNG_SEED in
  let keys := mkKeys false false false in
  let scroll_x := 0.0 in
  let player := mkPlayer 80.0 320.0 24 32 0.0 0.0 false in
  let platforms : list Platform := [] in
  let coins : list Coin := [] in
  let enemies : list Enemy := [] in
  let goal := mkGoal 1400 280 12 120 in
  let ground_y := 360 in
  let platforms :=
    fold_left (fun acc i => acc ++ [(Q_of i, ground_y, 80, 120)])
              (Py.range 0 1600 80) platforms in
  let platforms := platforms ++
    [ (220, 300, 80, 16); (320, 260, 80, 16); (420, 220, 80, 16);
      (600, 300, 80, 16); (700, 260, 80, 16); (820, 220, 80, 16);
      (980, 280, 80, 16); (1080, 240, 80, 16); (1180, 200, 80, 16) ] in
  let coins :=
    fold_left (fun acc x => acc ++ [mkCoin x 180 8 true])
              [260; 360; 460; 620; 720; 840; 1000; 1100; 1200] coins in
  let enemies := enemies ++ [mkEnemy 520.0 (ground_y - 20) 28 20 (-1.0) true] in
  let score := 0%Z in
  let win := false in
  mkDemo rng (W self) (H self) keys scroll_x player platforms coins enemies
         goal score win.

(** [__init__]: sets W, H and calls [reset_level]. *)
Definition MarioDemo_init : MarioDemo :=
  reset_level
    (mkDemo 0%Z 800 480 (mkKeys false false false) 0
            (mkPlayer 0 0 0 0 0 0 false) [] [] [] (mkGoal 0 0 0 0) 0%Z false).

(** ** Collision of the player with the platforms *)

Definition player_rect (p : Player) : Rect :=
  (p_x p, p_y p, p_x p + p_w p, p_y p + p_h p).

Definition platform_rect (pl : Platform) : Rect :=
  let '(x, y, w, h) := pl in (x, y, x + w, y + h).

(** The body of the loop over the platforms.  [pr] is the rectangle taken
    once before the loop; the loop does not refresh it. *)
Definition resolve_platform (pr : Rect) (dx dy : Q) (p : Player)
    (pl : Platform) : Player :=
  let r := platform_rect pl in
  if negb (_rects_overlap pr r) then p
  else
    let '(pr0, pr1, pr2, pr3) := pr in
    let '(r0, r1, r2, r3) := r in
    let overlap_x := Py.min pr2 r2 - Py.max pr0 r0 in
    let overlap_y := Py.min pr3 r3 - Py.max pr1 r1 in
    if Py.abs overlap_x <? Py.abs overlap_y then
      let p := if dx >? 0 then set_x p (p_x p - overlap_x)
               else set_x p (p_x p + overlap_x) in
      set_vx p 0.0
    else
      if dy >? 0 then
        let p := set_y p (p_y p - overlap_y) in
        let p := set_vy p 0.0 in
        set_on_ground p true
      else
        let p := set_y p (p_y p + overlap_y) in
        set_vy p 0.0.

Definition _move_and_collide (self : MarioDemo) (p : Player) (dx dy : Q)
    : Player :=
  let p := set_x p (p_x p + dx) in
  let p := set_y p (p_y p + dy) in
  let p := set_on_ground p false in
  let pr := player_rect p in
  fold_left (resolve_platform pr dx dy) (platforms self) p.

(** ** Enemy edge detection *)

(** First loop: [Some true] is the [return True], [None] is falling out of
    the loop. *)
Fixpoint hits_wall (e : Enemy) (er : Rect) (pls : list Platform)
    : option bool :=
  match pls with
  | [] => None
  | (x, y, w, h) :: rest =>
      let r := (x, y, x + w, y + h) in
      if _rects_overlap er r then
        if e_y e + e_h e <=? y + 2 then hits_wall e er rest
        else Some true
      else hits_wall e er rest
  end.

(** Second loop: the value of [below] when the loop ends or breaks. *)
Fixpoint ground_below (e : Enemy) (next_x : Q) (pls : list Platform) : bool :=
  match pls with
  | [] => false
  | (x, y, w, h) :: rest =>
      if (next_x + e_w e / 2 >=? x) && (next_x + e_w e / 2 <=? x + w) then
        if (e_y e + e_h e + 2 >=? y) && (e_y e + e_h e <=? y + 6) then true
        else ground_below e next_x rest
      else ground_below e next_x rest
  end.

Definition _enemy_hits_edge (self : MarioDemo) (e : Enemy) : bool :=
  let next_x := e_x e + e_vx e in
  let er := (next_x, e_y e, next_x + e_w e, e_y e + e_h e) in
  match hits_wall e er (platforms self) with
  | Some b => b
  | None =>
      let below := ground_below e next_x (platforms self) in
      negb below
  end.

(** ** One physics step *)

Definition set_keys (self : MarioDemo) (v : Keys) : MarioDemo :=
  mkDemo (rng self) (W self) (H self) v (scroll_x self) (player self)
         (platforms self) (coins self) (enemies self) (goal self)
         (score self) (win self).
Definition set_scroll_x (self : MarioDemo) (v : Q) : MarioDemo :=
  mkDemo (rng self) (W self) (H self) (keys self) v (player self)
         (platforms self) (coins self) (enemies self) (goal self)
         (score self) (win self).
Definition set_player (self : MarioDemo) (v : Player) : MarioDemo :=
  mkDemo (rng self) (W self) (H self) (keys self) (scroll_x self) v
         (platforms self) (coins self) (enemies self) (goal self)
         (score self) (win self).
Definition set_coins (self : MarioDemo) (v : list Coin) : MarioDemo :=
  mkDemo (rng self) (W self) (H self) (keys self) (scroll_x self)
         (player self) (platforms self) v (enemies self) (goal self)
         (score self) (win self).
Definition set_enemies (self : MarioDemo) (v : list Enemy) : MarioDemo :=
  mkDemo (rng self) (W self) (H self) (keys self) (scroll_x self)
         (player self) (platforms self) (coins self) v (goal self)
         (score self) (win self).
Definition set_score (self : MarioDemo) (v : Z) : MarioDemo :=
  mkDemo (rng self) (W self) (H self) (keys self) (scroll_x self)
         (player self) (platforms self) (coins self) (enemies self)
         (goal self) v (win self).
Definition set_win (self : MarioDemo) (v : bool) : MarioDemo :=
  mkDemo (rng self) (W self) (H self) (keys self) (scroll_x self)
         (player self) (platforms self) (coins self) (enemies self)
         (goal self) (score self) v.

(** The blocks of [_update_physics], in the order of the source and named
    after its comments.  [p] is an alias of [self.player]: every block
    writes the player back into [self]. *)

(** "Movement input" *)
Definition movement_input (self : MarioDemo) : MarioDemo :=
  let p := player self in
  let ax := 0.0 in
  let ax := if k_left (keys self) then ax - 0.8 else ax in
  let ax := if k_right (keys self) then ax + 0.8 else ax in
  let p := set_vx p (p_vx p + ax) in
  let p := set_vx p (p_vx p * 0.9) in
  let p := set_vx p (clamp (p_vx p) (-4.0) 4.0) in
  set_player self p.

(** "Gravity" *)
Definition gravity (self : MarioDemo) : MarioDemo :=
  let p := player self in
  let p := set_vy p (p_vy p + 0.8) in
  let p := set_vy p (clamp (p_vy p) (-12.0) 12.0) in
  set_player self p.

(** "Integrate X, Y with simple AABB collisions": the two calls. *)
Definition collide_x (self : MarioDemo) : MarioDemo :=
  let p := player self in
  set_player self (_move_and_collide self p (p_vx p) 0).

Definition collide_y (self : MarioDemo) : MarioDemo :=
  let p := player self in
  set_player self (_move_and_collide self p 0 (p_vy p)).

(** "Jump" *)
Definition jump (self : MarioDemo) : MarioDemo :=
  let p := player self in
  if k_jump (keys self) && p_on_ground p then
    let p := set_vy p (-10.0) in
    let p := set_on_ground p false in
    set_player self p
  else self.

(** "Scrolling": [center] is read once, before both tests. *)
Definition scrolling (self : MarioDemo) : MarioDemo :=
  let p := player self in
  let center := p_x p - scroll_x self in
  let self := if center >? W self * 0.6
              then set_scroll_x self (p_x p - W self * 0.6) else self in
  let self := if center <? W self * 0.3
              then set_scroll_x self (p_x p - W self * 0.3) else self in
  set_scroll_x self (clamp (scroll_x self) 0 (1600 - W self)).

(** "Coins": the loop mutates the coins in place and adds to the score. *)
Fixpoint coins_loop (pr : Rect) (cs : list Coin) (score : Z)
    : list Coin * Z :=
  match cs with
  | [] => ([], score)
  | c :: rest =>
      if negb (c_alive c) then
        let '(rest', score') := coins_loop pr rest score in (c :: rest', score')
      else if _rect_circle_overlap pr (c_x c, c_y c, c_r c) then
        let c := set_c_alive c false in
        let score := (score + 100)%Z in
        let '(rest', score') := coins_loop pr rest score in (c :: rest', score')
      else
        let '(rest', score') := coins_loop pr rest score in (c :: rest', score')
  end.

Definition collect_coins (pr : Rect) (self : MarioDemo) : MarioDemo :=
  let '(cs, sc) := coins_loop pr (coins self) (score self) in
  set_score (set_coins self cs) sc.

(** How a loop body ends: the loop goes on with a value, or the method has
    returned and [self] is final. *)
Inductive Flow (A : Type) : Type :=
| Next (a : A)
| Return (self : MarioDemo).
Arguments Next {A} a.
Arguments Return {A} self.

(** "Enemy AI": the enemy moves, then turns round for its next move when
    [_enemy_hits_edge] says so. *)
Definition enemy_move (self : MarioDemo) (e : Enemy) : Enemy :=
  let e := set_e_x e (e_x e + e_vx e) in
  if _enemy_hits_edge self e then set_e_vx e (e_vx e * -1) else e.

Definition enemy_rect (e : Enemy) : Rect :=
  (e_x e, e_y e, e_x e + e_w e, e_y e + e_h e).

(** "Player stomp check" *)
Definition stomp_check (pr : Rect) (self : MarioDemo) (e : Enemy)
    : Flow (Enemy * MarioDemo) :=
  let p := player self in
  let er := enemy_rect e in
  if _rects_overlap pr er then
    if (p_vy p >? 0) && (p_y p + p_h p - 6 <=? e_y e) then
      let e := set_e_alive e false in
      let self := set_score self (score self + 200)%Z in
      let p := set_vy p (-8.0) in
      Next (e, set_player self p)
    else
      Return (reset_level self)
  else Next (e, self).

(** The body of the loop over the enemies. *)
Definition enemy_body (pr : Rect) (self : MarioDemo) (e : Enemy)
    : Flow (Enemy * MarioDemo) :=
  if negb (e_alive e) then Next (e, self)
  else stomp_check pr self (enemy_move self e).

Fixpoint enemy_loop (pr : Rect) (self : MarioDemo) (es : list Enemy)
    : Flow (list Enemy * MarioDemo) :=
  match es with
  | [] => Next ([], self)
  | e :: rest =>
      match enemy_body pr self e with
      | Return self' => Return self'
      | Next (e', self') =>
          match enemy_loop pr self' rest with
          | Return self'' => Return self''
          | Next (rest', self'') => Next (e' :: rest', self'')
          end
      end
  end.

Definition enemy_ai (pr : Rect) (self : MarioDemo) : Flow MarioDemo :=
  match enemy_loop pr self (enemies self) with
  | Return self' => Return self'
  | Next (es, self') => Next (set_enemies self' es)
  end.

(** "Goal check" *)
Definition goal_rect (g : Goal) : Rect :=
  (g_x g, g_y g - g_h g, g_x g + g_w g, g_y g).

Definition goal_check (pr : Rect) (self : MarioDemo) : MarioDemo :=
  let gr := goal_rect (goal self) in
  if _rects_overlap pr gr then set_win self true else self.

Definition _update_physics (self : MarioDemo) : MarioDemo :=
  let self := movement_input self in
  let self := gravity self in
  let self := collide_x self in
  let self := collide_y self in
  let self := jump self in
  let self := scrolling self in
  let pr := player_rect (player self) in
  let self := collect_coins pr self in
  match enemy_ai pr self with
  | Return self' => self'
  | Next self => goal_check pr self
  end.

(** ** Key handlers and the event loop *)

Definition set_left (k : Keys) (b : bool) : Keys :=
  mkKeys b (k_right k) (k_jump k).
Definition set_right (k : Keys) (b : bool) : Keys :=
  mkKeys (k_left k) b (k_jump k).
Definition set_jump (k : Keys) (b : bool) : Keys :=
  mkKeys (k_left k) (k_right k) b.

(** [_on_key]; [None] when the handler destroyed the window. *)
Definition _on_key (self : MarioDemo) (keysym : string) : option MarioDemo :=
  let k := Py.lower keysym in
  let self := if Py.in_ k ["left"; "a"]%string
              then set_keys self (set_left (keys self) true) else self in
  let self := if Py.in_ k ["right"; "d"]%string
              then set_keys self (set_right (keys self) true) else self in
  let self := if Py.in_ k ["space"; "z"; "w"; "up"]%string
              then set_keys self (set_jump (keys self) true) else self in
  let self := if String.eqb k "r" then reset_level self else self in
  if String.eqb k "escape" then None else Some self.

Definition _on_key_up (self : MarioDemo) (keysym : string) : MarioDemo :=
  let k := Py.lower keysym in
  let self := if Py.in_ k ["left"; "a"]%string
              then set_keys self (set_left (keys self) false) else self in
  let self := if Py.in_ k ["right"; "d"]%string
              then set_keys self (set_right (keys self) false) else self in
  if Py.in_ k ["space"; "z"; "w"; "up"]%string
  then set_keys self (set_jump (keys self) false) else self.

(** What the Tk main loop delivers to the window: key events and the timer
    callback [_tick], whose simulation part is [_update_physics]. *)
Inductive Event : Type :=
| KeyPress (keysym : string)
| KeyRelease (keysym : string)
| Tick.

Definition handle (ev : Event) (self : MarioDemo) : option MarioDemo :=
  match ev with
  | KeyPress k => _on_key self k
  | KeyRelease k => Some (_on_key_up self k)
  | Tick => Some (_update_physics self)
  end.

(** The events are handled one after the other; a destroyed window
    handles no more. *)
Fixpoint run (evs : list Event) (self : MarioDemo) : option MarioDemo :=
  match evs with
  | [] => Some self
  | ev :: rest =>
      match handle ev self with
      | Some self' => run rest self'
      | None => None
      end
  end.

Definition reachable (self : MarioDemo) : Prop :=
  exists evs, run evs MarioDemo_init = Some self.

Definition overlapped_platforms (self : MarioDemo) : list Platform :=
  filter (fun pl => _rects_overlap (player_rect (player self)) (platform_rect pl))
         (platforms self).

(** The part of a tick before the interactions: velocity integration,
    the two collision passes, the jump and the camera. *)
Definition motion (self : MarioDemo) : MarioDemo :=
  scrolling (jump (collide_y (collide_x (gravity (movement_input self))))).

(** Whether this tick ends in the [return] after [reset_level]. *)
Definition tick_dies (self : MarioDemo) : bool :=
  let m := motion self in
  let pr := player_rect (player m) in
  match enemy_ai pr (collect_coins pr m) with
  | Return _ => true
  | Next _ => false
  end.

(** Whether handling the event calls [reset_level]. *)
Definition resets (ev : Event) (self : MarioDemo) : bool :=
  match ev with
  | KeyPress k => String.eqb (Py.lower k) "r"
  | KeyRelease _ => false
  | Tick => tick_dies self
  end.

(** A run within one level lifetime: no event of it resets the level. *)
Fixpoint run_lifetime (evs : list Event) (self : MarioDemo)
    : option MarioDemo :=
  match evs with
  | [] => Some self
  | ev :: rest =>
      if resets ev self then None
      else match handle ev self with
           | Some self' => run_lifetime rest self'
           | None => None
           end
  end.

(** ** Overlap as an area *)

Definition overlap_x (a b : Rect) : Q :=
  let '(a0, a1, a2, a3) := a in
  let '(b0, b1, b2, b3) := b in
  Py.min a2 b2 - Py.max a0 b0.

Definition overlap_y (a b : Rect) : Q :=
  let '(a0, a1, a2, a3) := a in
  let '(b0, b1, b2, b3) := b in
  Py.min a3 b3 - Py.max a1 b1.

Definition overlap_area (a b : Rect) : Q :=
  Py.max 0 (overlap_x a b) * Py.max 0 (overlap_y a b).

(** A rectangle proper has positive width and height. *)
Definition proper (r : Rect) : Prop :=
  let '(x1, y1, x2, y2) := r in x1 < x2 /\ y1 < y2.

(** ** The generated level, written out *)

Definition ground_strip : list Platform :=
  [ (0, 360, 80, 120); (80, 360, 80, 120); (160, 360, 80, 120);
    (240, 360, 80, 120); (320, 360, 80, 120); (400, 360, 80, 120);
    (480, 360, 80, 120); (560, 360, 80, 120); (640, 360, 80, 120);
    (720, 360, 80, 120); (800, 360, 80, 120); (880, 360, 80, 120);
    (960, 360, 80, 120); (1040, 360, 80, 120); (1120, 360, 80, 120);
    (1200, 360, 80, 120); (1280, 360, 80, 120); (1360, 360, 80, 120);
    (1440, 360, 80, 120); (1520, 360, 80, 120) ].

Definition floating_platforms : list Platform :=
  [ (220, 300, 80, 16); (320, 260, 80, 16); (420, 220, 80, 16);
    (600, 300, 80, 16); (700, 260, 80, 16); (820, 220, 80, 16);
    (980, 280, 80, 16); (1080, 240, 80, 16); (1180, 200, 80, 16) ].

Definition level_coins : list Coin :=
  map (fun x => mkCoin x 180 8 true)
      [260; 360; 460; 620; 720; 840; 1000; 1100; 1200].

(** ** The bounds on the velocity *)

Definition vel_bounded (p : Player) : Prop :=
  -4.0 <= p_vx p <= 4.0 /\ -12.0 <= p_vy p <= 12.0.

(** ** What each block of the tick leaves alone *)

(** The fields no block of the tick writes. *)
Definition same_level (s s' : MarioDemo) : Prop :=
  rng s' = rng s /\ W s' = W s /\ H s' = H s /\ keys s' = keys s /\
  platforms s' = platforms s /\ goal s' = goal s.

Definition same_size (p p' : Player) : Prop :=
  p_w p' = p_w p /\ p_h p' = p_h p.

(** The blocks before the camera write the player only. *)
Definition player_only (s s' : MarioDemo) : Prop :=
  same_level s s' /\ scroll_x s' = scroll_x s /\ coins s' = coins s /\
  enemies s' = enemies s /\ score s' = score s /\ win s' = win s /\
  same_size (player s) (player s').

Definition before_camera (s : MarioDemo) : MarioDemo :=
  jump (collide_y (collide_x (gravity (movement_input s)))).

(** ** The coin loop *)

Definition picked (pr : Rect) (c : Coin) : bool :=
  c_alive c && _rect_circle_overlap pr (c_x c, c_y c, c_r c).

Definition pick (pr : Rect) (c : Coin) : Coin :=
  if picked pr c then set_c_alive c false else c.

Fixpoint count_picked (pr : Rect) (cs : list Coin) : Z :=
  match cs with
  | [] => 0
  | c :: rest => (if picked pr c then 1 else 0) + count_picked pr rest
  end%Z.

(** ** The enemy loop *)

Definition enemy_on_ground (e : Enemy) : Prop :=
  e_y e = 340 /\ e_w e = 28 /\ e_h e = 20.

(** The enemy loop writes the player's vertical velocity and the score. *)
Definition stomp_only (s s' : MarioDemo) : Prop :=
  same_level s s' /\ scroll_x s' = scroll_x s /\ coins s' = coins s /\
  enemies s' = enemies s /\ win s' = win s /\
  same_size (player s) (player s') /\
  p_x (player s') = p_x (player s) /\ p_y (player s') = p_y (player s).

(** ** The invariant of the generated level *)

Record level_inv (s : MarioDemo) : Prop := mk_level_inv {
  inv_W : W s = 800;
  inv_H : H s = 480;
  inv_platforms : platforms s = ground_strip ++ floating_platforms;
  inv_goal : goal s = mkGoal 1400 280 12 120;
  inv_coins_count : List.length (coins s) = 9%nat;
  inv_coins_row : Forall (fun c => c_y c = 180 /\ c_r c = 8) (coins s);
  inv_coins_apart :
    ForallOrdPairs (fun c c' => c_x c + 100 <= c_x c') (coins s);
  inv_one_enemy : List.length (enemies s) = 1%nat;
  inv_enemies : Forall enemy_on_ground (enemies s);
  inv_size : p_w (player s) = 24 /\ p_h (player s) = 32;
  inv_scroll : 0 <= scroll_x s <= 800
}.

(** The state in which the enemy loop starts. *)
Definition before_enemies (s : MarioDemo) : MarioDemo :=
  collect_coins (player_rect (player (motion s))) (motion s).

(** ** The enemy step *)

(** A platform whose rectangle the enemy would overlap at [next_x] other
    than by standing on its top. *)
Definition wall_ahead (pls : list Platform) (e : Enemy) (next_x : Q) : Prop :=
  exists x y w h, In (x, y, w, h) pls /\
    _rects_overlap (next_x, e_y e, next_x + e_w e, e_y e + e_h e)
                   (x, y, x + w, y + h) = true /\
    y + 2 < e_y e + e_h e.

(** A platform under the enemy's horizontal centre at [next_x], with its
    top at the enemy's feet. *)
Definition ground_ahead (pls : list Platform) (e : Enemy) (next_x : Q)
    : Prop :=
  exists x y w h, In (x, y, w, h) pls /\
    x <= next_x + e_w e / 2 <= x + w /\
    y <= e_y e + e_h e + 2 /\ e_y e + e_h e <= y + 6.

(** ** The tick in the order of the specification *)

(** The specification words the tick as a pipeline: velocity integration,
    the two collision passes, the jump, the camera, then the Enemy
    Controller on every living enemy, then the Interaction Evaluator once
    (coins, stomp or death, goal).  The definitions below follow those
    words; the source interleaves the last two differently. *)
Module Spec.






End Spec.



(** ** Coins within one level lifetime *)

(** The alive flag of the coin at index [i] of self.coins. *)
Definition coin_alive_at (s : MarioDemo) (i : nat) : bool :=
  match nth_error (coins s) i with
  | Some c => c_alive c
  | None => false
  end.

(** A loop outcome with the win flag of [self] set. *)
Definition flow_win {A : Type} (b : bool) (f : Flow (A * MarioDemo))
    : Flow (A * MarioDemo) :=
  match f with
  | Next (a, s) => Next (a, set_win s b)
  | Return r => Return r
  end.

(** ** States up to equality of rationals *)

(** A rational has many representations ([1 # 2], [2 # 4]); the functions
    of the model only compare and do arithmetic, so they cannot tell them
    apart.  The relations below are equality of states up to [==] on
    every number; [norm] puts every number of a state in lowest terms. *)

Definition rect_eq (a b : Rect) : Prop :=
  let '(a0, a1, a2, a3) := a in
  let '(b0, b1, b2, b3) := b in
  a0 == b0 /\ a1 == b1 /\ a2 == b2 /\ a3 == b3.

Definition player_eq (p q : Player) : Prop :=
  p_x p == p_x q /\ p_y p == p_y q /\ p_w p == p_w q /\ p_h p == p_h q /\
  p_vx p == p_vx q /\ p_vy p == p_vy q /\ p_on_ground p = p_on_ground q.

Definition enemy_eq (e f : Enemy) : Prop :=
  e_x e == e_x f /\ e_y e == e_y f /\ e_w e == e_w f /\ e_h e == e_h f /\
  e_vx e == e_vx f /\ e_alive e = e_alive f.

Definition state_eq (s t : MarioDemo) : Prop :=
  rng s = rng t /\ W s = W t /\ H s = H t /\ keys s = keys t /\
  scroll_x s == scroll_x t /\ player_eq (player s) (player t) /\
  platforms s = platforms t /\ coins s = coins t /\
  Forall2 enemy_eq (enemies s) (enemies t) /\ goal s = goal t /\
  score s = score t /\ win s = win t.

Definition norm_player (p : Player) : Player :=
  mkPlayer (Qred (p_x p)) (Qred (p_y p)) (Qred (p_w p)) (Qred (p_h p))
           (Qred (p_vx p)) (Qred (p_vy p)) (p_on_ground p).

Definition norm_enemy (e : Enemy) : Enemy :=
  mkEnemy (Qred (e_x e)) (Qred (e_y e)) (Qred (e_w e)) (Qred (e_h e))
          (Qred (e_vx e)) (e_alive e).

Definition norm (s : MarioDemo) : MarioDemo :=
  mkDemo (rng s) (W s) (H s) (keys s) (Qred (scroll_x s))
         (norm_player (player s)) (platforms s) (coins s)
         (map norm_enemy (enemies s)) (goal s) (score s) (win s).

(** [run] with every state put in lowest terms on the way. *)
Fixpoint run_norm (evs : list Event) (self : MarioDemo) : option MarioDemo :=
  match evs with
  | [] => Some self
  | ev :: rest =>
      match handle ev self with
      | Some self' => run_norm rest (norm self')
      | None => None
      end
  end.

(** Two loop outcomes that are equal up to [==]. *)
Definition flow_eq {A : Type} (R : A -> A -> Prop)
    (a b : Flow (A * MarioDemo)) : Prop :=
  match a, b with
  | Next (x, s), Next (y, t) => R x y /\ state_eq s t
  | Return s, Return t => state_eq s t
  | _, _ => False
  end.

(** Two results of a handler that are equal up to [==]. *)
Definition result_eq (a b : option MarioDemo) : Prop :=
  match a, b with
  | Some s, Some t => state_eq s t
  | None, None => True
  | _, _ => False
  end.

(** ** Predicates of the further properties *)

(** The player after the displacement of a pass, before any resolution. *)
Definition moved (p : Player) (dx dy : Q) : Player :=
  set_on_ground (set_y (set_x p (p_x p + dx)) (p_y p + dy)) false.

(** Whether the loop resolves along y against a platform: the rectangles
    overlap and the overlap is not narrower than it is high. *)
Definition resolves_y (pr : Rect) (pl : Platform) : bool :=
  _rects_overlap pr (platform_rect pl) &&
  negb (Py.abs (overlap_x pr (platform_rect pl)) <?
        Py.abs (overlap_y pr (platform_rect pl))).

Fixpoint dead_coins (cs : list Coin) : Z :=
  match cs with
  | [] => 0
  | c :: rest => (if c_alive c then 0 else 1) + dead_coins rest
  end%Z.

Fixpoint dead_enemies (es : list Enemy) : Z :=
  match es with
  | [] => 0
  | e :: rest => (if e_alive e then 0 else 1) + dead_enemies rest
  end%Z.

(** The score is 100 for every coin taken and 200 for every enemy
    stomped. *)
Definition score_accounted (s : MarioDemo) : Prop :=
  score s = (100 * dead_coins (coins s) + 200 * dead_enemies (enemies s))%Z.

(** An enemy on its patrol: on the ground, at speed 1, and within the
    ground strip with the margin of its turn. *)
Definition patrols (e : Enemy) : Prop :=
  enemy_on_ground e /\
  ((e_vx e == -1 /\ -13 <= e_x e <= 1586) \/
   (e_vx e == 1 /\ -14 <= e_x e <= 1585)).

(** Where the coins are. *)
Definition coin_places (s : MarioDemo) : list (Q * Q * Q) :=
  map (fun c => (c_x c, c_y c, c_r c)) (coins s).

(** The seed and the places of the coins are those of [reset_level]. *)
Definition level_kept (s : MarioDemo) : Prop :=
  rng s = RNG_SEED /\ coin_places s = coin_places MarioDemo_init.




(** * The desktop shell *)

(** The model of the desktop keeps the data that the methods of
    [HaltmannDesktop] read and write: the icon counter, the rooms with
    their icons, the current room, the edit mode and the drag state.  The
    Tk widgets are output only and their calls are taken to succeed; what
    the toolkit or the random generator hands to a method (the icon under
    the cursor, the event coordinates, the answer of a dialog, a random
    draw) is an argument of its model.  The fields [items] and [vphase] of
    an icon (canvas ids, phase of the bob animation) only feed the
    drawing and are left out.

    The position and the size of an icon are ints from the events and the
    dialogs, and floats once the ticker has touched them; both are
    rationals, as in the first part.

    A method that can raise is a function into [Outcome]; a run of the
    model ends at the first exception that leaves a method (the toolkit
    would report it and go on with the desktop as it is).  The values read
    from a layout file are dynamically typed; where the code would build an
    icon or a room from a value of another type than the ones it creates
    itself, the model stops with [Untyped] and says nothing.  A loop
    without a bound in the code runs on fuel in the model and gives
    [Unfinished] when the fuel is used up.

    Strings are byte strings: a Python string is its UTF-8 encoding, whose
    lexicographic order is the order of the code points that [sorted]
    uses. *)

Module Desktop.

Local Open Scope string_scope.

Inductive Exn : Type :=
| KeyError (k : option string)
| IndexError
| TypeError
| AttributeError
| ValueError (msg : string).

Inductive Outcome (A : Type) : Type :=
| Ok (a : A)
| Raise (e : Exn)
| Untyped
| Unfinished.

Arguments Ok {A} a.
Arguments Raise {A} e.
Arguments Untyped {A}.
Arguments Unfinished {A}.

Definition bind {A B : Type} (m : Outcome A) (f : A -> Outcome B)
  : Outcome B :=
  match m with
  | Ok a => f a
  | Raise e => Raise e
  | Untyped => Untyped
  | Unfinished => Unfinished
  end.

Notation "x <- m ;; k" := (bind m (fun x => k))
  (at level 61, m at next level, right associativity).

Fixpoint mapM {A B : Type} (f : A -> Outcome B) (l : list A)
  : Outcome (list B) :=
  match l with
  | [] => Ok []
  | a :: l => b <- f a ;; bs <- mapM f l ;; Ok (b :: bs)
  end.

(** ** Python builtins *)

(** [str(n)] of an int, as in an f-string. *)
Definition str (n : Z) : string :=
  DecimalString.NilZero.string_of_int (Z.to_int n).

(** A dict with string keys, in insertion order. *)
Definition dict (A : Type) : Type := list (string * A).

Fixpoint lookup {A : Type} (k : string) (d : dict A) : option A :=
  match d with
  | [] => None
  | (k', v) :: d => if String.eqb k' k then Some v else lookup k d
  end.

(** [k in d] *)
Definition contains {A : Type} (k : string) (d : dict A) : bool :=
  match lookup k d with Some _ => true | None => false end.

(** [d[k] = v]: the value of an old key is replaced in place, a new key
    goes last. *)
Fixpoint setitem {A : Type} (k : string) (v : A) (d : dict A) : dict A :=
  match d with
  | [] => [(k, v)]
  | (k', v') :: d =>
      if String.eqb k' k then (k', v) :: d else (k', v') :: setitem k v d
  end.

(** [del d[k]] *)
Fixpoint delitem {A : Type} (k : string) (d : dict A) : Outcome (dict A) :=
  match d with
  | [] => Raise (KeyError (Some k))
  | (k', v') :: d =>
      if String.eqb k' k then Ok d
      else d' <- delitem k d ;; Ok ((k', v') :: d')
  end.

Definition keys {A : Type} (d : dict A) : list string := map fst d.

(** [sorted(l)] on strings. *)
Fixpoint insert (k : string) (l : list string) : list string :=
  match l with
  | [] => [k]
  | k' :: l' => if String.leb k k' then k :: l else k' :: insert k l'
  end.

Definition sorted (l : list string) : list string := fold_right insert [] l.

(** ** Values of a layout file *)

#[warnings="-register-all"] Inductive Val : Type :=
| VNone
| VBool (b : bool)
| VNum (q : Q)
| VStr (s : string)
| VList (l : list Val)
| VDict (d : list (string * Val)).

(** [d[k]] and [d.get(k, default)] *)
Definition getitem (d : dict Val) (k : string) : Outcome Val :=
  match lookup k d with
  | Some v => Ok v
  | None => Raise (KeyError (Some k))
  end.

Definition get (d : dict Val) (k : string) (default : Val) : Val :=
  match lookup k d with
  | Some v => v
  | None => default
  end.

(** [bool(v)] *)
Definition truthy (v : Val) : bool :=
  match v with
  | VNone => false
  | VBool b => b
  | VNum q => negb (Qeq_bool q 0)
  | VStr s => negb (String.eqb s "")
  | VList l => match l with [] => false | _ => true end
  | VDict d => match d with [] => false | _ => true end
  end.

(** What [for v in ...] goes through: the elements of a list, the
    characters of a string, the keys of a dict. *)
Definition iter (v : Val) : Outcome (list Val) :=
  match v with
  | VList l => Ok l
  | VStr s => Ok (map (fun c => VStr (String c "")) (list_ascii_of_string s))
  | VDict d => Ok (map (fun kv => VStr (fst kv)) d)
  | _ => Raise TypeError
  end.

(** The types of the fields that the program itself gives to an icon and to
    a room. *)
Definition as_str (v : Val) : Outcome string :=
  match v with VStr s => Ok s | _ => Untyped end.

Definition as_opt_str (v : Val) : Outcome (option string) :=
  match v with VNone => Ok None | VStr s => Ok (Some s) | _ => Untyped end.

Definition as_num (v : Val) : Outcome Q :=
  match v with VNum q => Ok q | _ => Untyped end.

(** ** Icons and rooms *)

Record Icon := mkIcon {
  tag : string; title : string; kind : string; app_id : option string;
  x : Q; y : Q; w : Q; h : Q; fill : string; fg : string;
  unremovable : bool; animate : bool }.

Definition set_x (ic : Icon) (v : Q) : Icon :=
  mkIcon (tag ic) (title ic) (kind ic) (app_id ic) v (y ic) (w ic) (h ic)
         (fill ic) (fg ic) (unremovable ic) (animate ic).
Definition set_y (ic : Icon) (v : Q) : Icon :=
  mkIcon (tag ic) (title ic) (kind ic) (app_id ic) (x ic) v (w ic) (h ic)
         (fill ic) (fg ic) (unremovable ic) (animate ic).
Definition set_w (ic : Icon) (v : Q) : Icon :=
  mkIcon (tag ic) (title ic) (kind ic) (app_id ic) (x ic) (y ic) v (h ic)
         (fill ic) (fg ic) (unremovable ic) (animate ic).
Definition set_h (ic : Icon) (v : Q) : Icon :=
  mkIcon (tag ic) (title ic) (kind ic) (app_id ic) (x ic) (y ic) (w ic) v
         (fill ic) (fg ic) (unremovable ic) (animate ic).
Definition set_animate (ic : Icon) (v : bool) : Icon :=
  mkIcon (tag ic) (title ic) (kind ic) (app_id ic) (x ic) (y ic) (w ic)
         (h ic) (fill ic) (fg ic) (unremovable ic) v.

Definition Icon_to_dict (self : Icon) : Val :=
  VDict [("tag", VStr (tag self)); ("title", VStr (title self));
         ("kind", VStr (kind self));
         ("app_id", match app_id self with
                    | Some a => VStr a
                    | None => VNone
                    end);
         ("x", VNum (x self)); ("y", VNum (y self));
         ("w", VNum (w self)); ("h", VNum (h self));
         ("fill", VStr (fill self)); ("fg", VStr (fg self));
         ("unremovable", VBool (unremovable self));
         ("animate", VBool (animate self))].

(** The arguments of [Icon(...)] are evaluated in the order of the call,
    so that the first missing key among tag, title, kind, x, y, w, h is
    the one of the KeyError; a value that is no dict cannot be indexed by
    a string. *)
Definition Icon_from_dict (d : Val) : Outcome Icon :=
  match d with
  | VDict d =>
      v_tag <- getitem d "tag" ;;
      v_title <- getitem d "title" ;;
      v_kind <- getitem d "kind" ;;
      let v_app_id := get d "app_id" VNone in
      v_x <- getitem d "x" ;;
      v_y <- getitem d "y" ;;
      v_w <- getitem d "w" ;;
      v_h <- getitem d "h" ;;
      let v_fill := get d "fill" (VStr "#2c3e50") in
      let v_fg := get d "fg" (VStr "#ecf0f1") in
      let v_unremovable := truthy (get d "unremovable" (VBool false)) in
      let v_animate := truthy (get d "animate" (VBool false)) in
      t_tag <- as_str v_tag ;;
      t_title <- as_str v_title ;;
      t_kind <- as_str v_kind ;;
      t_app_id <- as_opt_str v_app_id ;;
      t_x <- as_num v_x ;;
      t_y <- as_num v_y ;;
      t_w <- as_num v_w ;;
      t_h <- as_num v_h ;;
      t_fill <- as_str v_fill ;;
      t_fg <- as_str v_fg ;;
      Ok (mkIcon t_tag t_title t_kind t_app_id t_x t_y t_w t_h t_fill t_fg
                 v_unremovable v_animate)
  | _ => Raise TypeError
  end.

Record Room := mkRoom { name : string; theme : string; icons : list Icon }.

Definition set_theme (r : Room) (v : string) : Room :=
  mkRoom (name r) v (icons r).
Definition set_icons (r : Room) (v : list Icon) : Room :=
  mkRoom (name r) (theme r) v.

Definition Room_to_dict (self : Room) : Val :=
  VDict [("name", VStr (name self)); ("theme", VStr (theme self));
         ("icons", VList (map Icon_to_dict (icons self)))].

Definition Room_from_dict (d : Val) : Outcome Room :=
  match d with
  | VDict d =>
      v_name <- getitem d "name" ;;
      let v_theme := get d "theme" (VStr "foyer") in
      ics <- iter (get d "icons" (VList [])) ;;
      r_icons <- mapM Icon_from_dict ics ;;
      t_name <- as_str v_name ;;
      t_theme <- as_str v_theme ;;
      Ok (mkRoom t_name t_theme r_icons)
  | _ => Raise TypeError
  end.

(** ** The desktop *)

Record HaltmannDesktop := mkDesktop {
  icon_counter : Z;
  rooms : dict Room;
  current_room : option string;
  edit_mode : bool;
  dragging : bool;
  drag_tag : option string;
  drag_offx : Q;
  drag_offy : Q }.

Definition set_icon_counter (self : HaltmannDesktop) (v : Z) :=
  mkDesktop v (rooms self) (current_room self) (edit_mode self)
            (dragging self) (drag_tag self) (drag_offx self) (drag_offy self).
Definition set_rooms (self : HaltmannDesktop) (v : dict Room) :=
  mkDesktop (icon_counter self) v (current_room self) (edit_mode self)
            (dragging self) (drag_tag self) (drag_offx self) (drag_offy self).
Definition set_current_room (self : HaltmannDesktop) (v : option string) :=
  mkDesktop (icon_counter self) (rooms self) v (edit_mode self)
            (dragging self) (drag_tag self) (drag_offx self) (drag_offy self).
Definition set_edit_mode (self : HaltmannDesktop) (v : bool) :=
  mkDesktop (icon_counter self) (rooms self) (current_room self) v
            (dragging self) (drag_tag self) (drag_offx self) (drag_offy self).
Definition set_drag (self : HaltmannDesktop) (d : bool) (t : option string)
    (ox oy : Q) :=
  mkDesktop (icon_counter self) (rooms self) (current_room self)
            (edit_mode self) d t ox oy.

(** [self.rooms[k]], where [k] may be the None of a desktop without
    current room. *)
Definition room_at (self : HaltmannDesktop) (k : option string)
  : Outcome Room :=
  match k with
  | Some k =>
      match lookup k (rooms self) with
      | Some r => Ok r
      | None => Raise (KeyError (Some k))
      end
  | None => Raise (KeyError None)
  end.

(** The rooms and the icons are objects: an assignment to an attribute of
    the room found under a key, or of the first icon found with a tag,
    changes that element of the dict or of the list. *)
Definition store_room (self : HaltmannDesktop) (k : string) (r : Room)
  : HaltmannDesktop :=
  set_rooms self (setitem k r (rooms self)).

Fixpoint store_icon (ic : Icon) (l : list Icon) : list Icon :=
  match l with
  | [] => []
  | ic' :: l =>
      if String.eqb (tag ic') (tag ic) then ic :: l
      else ic' :: store_icon ic l
  end.

(** [_render_room] and [_refresh_status] draw what they find in
    [self.rooms[self.current_room]]. *)
Definition _render_room (self : HaltmannDesktop) : Outcome HaltmannDesktop :=
  _ <- room_at self (current_room self) ;; Ok self.

Definition _refresh_status (self : HaltmannDesktop)
  : Outcome HaltmannDesktop :=
  _ <- room_at self (current_room self) ;; Ok self.

Definition _mk_app_icon (self : HaltmannDesktop) (title app_id : string)
    (x y : Q) (fill fg : string) : Icon * HaltmannDesktop :=
  let self := set_icon_counter self (icon_counter self + 1) in
  let tag := "icon_" ++ str (icon_counter self) in
  (mkIcon tag title "app" (Some app_id) x y 110 80 fill fg true false, self).

Definition _mk_decor_icon (self : HaltmannDesktop) (title : string)
    (x y w h : Q) (fill fg : string) (animate : bool)
  : Icon * HaltmannDesktop :=
  let self := set_icon_counter self (icon_counter self + 1) in
  let tag := "icon_" ++ str (icon_counter self) in
  (mkIcon tag title "decor" None x y w h fill fg false animate, self).


(** An assignment to an attribute of the room under the key [k]. *)
Definition mutate_room (self : HaltmannDesktop) (k : option string)
    (f : Room -> Room) : Outcome HaltmannDesktop :=
  r <- room_at self k ;;
  match k with
  | Some k => Ok (store_room self k (f r))
  | None => Raise (KeyError None)
  end.

(** [self.rooms[k].icons.append(ic)] and [.extend(ics)] *)
Definition append_icons (self : HaltmannDesktop) (k : option string)
    (ics : list Icon) : Outcome HaltmannDesktop :=
  mutate_room self k (fun r => set_icons r (icons r ++ ics)%list).

Definition default_fill : string := "#2c3e50".
Definition default_fg : string := "#ecf0f1".

Definition blank : HaltmannDesktop :=
  mkDesktop 0 [] None false false None 0 0.

Definition seed_coin (self : Outcome HaltmannDesktop) (i : Z)
  : Outcome HaltmannDesktop :=
  self <- self ;;
  let x := inject_Z (160 + i * 160) in
  let '(ic, self) :=
    _mk_decor_icon self ("Coin " ++ str (i + 1)) x 320 40 40 "#f39c12"
                   default_fg true in
  append_icons self (Some "Foyer") [ic].

Definition _seed_rooms (self : HaltmannDesktop) : Outcome HaltmannDesktop :=
  let self :=
    fold_left
      (fun self rt =>
         set_rooms self
           (setitem (fst rt) (mkRoom (fst rt) (snd rt) []) (rooms self)))
      [("Foyer", "foyer"); ("Library", "library");
       ("Workshop", "workshop"); ("Throne", "throne")] self in
  let self := set_current_room self (Some "Foyer") in
  _ <- room_at self (Some "Foyer") ;;
  let '(i1, self) :=
    _mk_app_icon self "Mario Demo" "mario" 120 120 "#e74c3c" default_fg in
  let '(i2, self) :=
    _mk_app_icon self "HALT‑DOS" "terminal" 260 120 "#2ecc71" default_fg in
  let '(i3, self) :=
    _mk_app_icon self "TextPad" "textpad" 400 120 "#3498db" default_fg in
  let '(i4, self) :=
    _mk_app_icon self "Web" "web" 540 120 "#9b59b6" default_fg in
  let '(i5, self) :=
    _mk_app_icon self "Calendar" "calendar" 680 120 "#f1c40f" "#000000" in
  let '(i6, self) :=
    _mk_app_icon self "Settings" "settings" 820 120 "#e67e22" default_fg in
  let '(i7, self) :=
    _mk_app_icon self "Assistant" "assistant" 960 120 "#95a5a6" default_fg in
  self <- append_icons self (Some "Foyer") [i1; i2; i3; i4; i5; i6; i7] ;;
  self <- fold_left seed_coin (Py.range 0 5 1) (Ok self) ;;
  _ <- room_at self (Some "Library") ;;
  let '(ic, self) :=
    _mk_app_icon self "TextPad" "textpad" 140 150 "#3498db" default_fg in
  self <- append_icons self (Some "Library") [ic] ;;
  _ <- room_at self (Some "Workshop") ;;
  let '(ic, self) :=
    _mk_app_icon self "Settings" "settings" 140 150 "#e67e22" default_fg in
  self <- append_icons self (Some "Workshop") [ic] ;;
  _ <- room_at self (Some "Throne") ;;
  let '(ic, self) :=
    _mk_app_icon self "HALT‑DOS" "terminal" 140 150 "#2ecc71" default_fg in
  append_icons self (Some "Throne") [ic].

(** [HaltmannDesktop()], up to the first drawing of the room. *)
Definition HaltmannDesktop_init : Outcome HaltmannDesktop :=
  self <- _seed_rooms blank ;; _render_room self.

(** ** Icons under the cursor *)

(** [ic.tag == tag], where [tag] may be None. *)
Definition tag_is (tag : option string) (ic : Icon) : bool :=
  match tag with
  | Some t => String.eqb (Desktop.tag ic) t
  | None => false
  end.

(** [if tag:] *)
Definition nonempty (tag : option string) : bool :=
  match tag with
  | Some t => negb (String.eqb t "")
  | None => false
  end.

Definition _get_icon_by_tag (self : HaltmannDesktop) (tag : option string)
  : Outcome (option Icon) :=
  rm <- room_at self (current_room self) ;;
  Ok (find (tag_is tag) (icons rm)).

(** The new values of the attributes of an icon that [_get_icon_by_tag]
    has found in the current room. *)
Definition update_icon (self : HaltmannDesktop) (ic : Icon)
  : Outcome HaltmannDesktop :=
  mutate_room self (current_room self)
              (fun r => set_icons r (store_icon ic (icons r))).

(** The draws of [_add_random_decor]. *)
Record Draw := mkDraw {
  d_title : string; d_w : Z; d_h : Z; d_fill : string; d_animate : bool }.

Definition _add_random_decor (self : HaltmannDesktop) (x y : Q) (rnd : Draw)
  : Outcome HaltmannDesktop :=
  let '(ic, self) :=
    _mk_decor_icon self (d_title rnd) x y (inject_Z (d_w rnd))
                   (inject_Z (d_h rnd)) (d_fill rnd) default_fg
                   (d_animate rnd) in
  self <- append_icons self (current_room self) [ic] ;;
  _render_room self.

(** [hit] is the tag that [_icon_under_cursor] finds on the canvas, [ex]
    and [ey] are [event.x] and [event.y]. *)
Definition _on_canvas_click (self : HaltmannDesktop) (hit : option string)
    (ex ey : Q) (rnd : Draw) : Outcome HaltmannDesktop :=
  let tag := hit in
  if nonempty tag then
    ic <- _get_icon_by_tag self tag ;;
    match ic with
    | None => Ok self
    | Some ic =>
        if edit_mode self
        then Ok (set_drag self true tag (ex - x ic) (ey - y ic))
        else Ok self
    end
  else
    if edit_mode self then _add_random_decor self ex ey rnd else Ok self.

Definition _on_canvas_drag (self : HaltmannDesktop) (ex ey : Q)
  : Outcome HaltmannDesktop :=
  if dragging self && nonempty (drag_tag self) then
    ic <- _get_icon_by_tag self (drag_tag self) ;;
    match ic with
    | Some ic =>
        let nx := ex - drag_offx self in
        let ny := ey - drag_offy self in
        self <- update_icon self (set_y (set_x ic nx) ny) ;;
        _render_room self
    | None => Ok self
    end
  else Ok self.

Definition _on_canvas_release (self : HaltmannDesktop) : HaltmannDesktop :=
  if dragging self
  then set_drag self false None (drag_offx self) (drag_offy self)
  else self.

Definition _duplicate_icon (self : HaltmannDesktop) (tag : option string)
  : Outcome HaltmannDesktop :=
  ic <- _get_icon_by_tag self tag ;;
  match ic with
  | None => Ok self
  | Some ic =>
      let new_ic :=
        mkIcon ("icon_" ++ str (icon_counter self + 1)) (title ic) (kind ic)
               (app_id ic) (x ic + 24) (y ic + 24) (w ic) (h ic) (fill ic)
               (fg ic)
               (if String.eqb (kind ic) "decor" then false
                else unremovable ic)
               (animate ic) in
      let self := set_icon_counter self (icon_counter self + 1) in
      self <- append_icons self (current_room self) [new_ic] ;;
      _render_room self
  end.

Definition _remove_icon (self : HaltmannDesktop) (tag : option string)
  : Outcome HaltmannDesktop :=
  ic <- _get_icon_by_tag self tag ;;
  match ic with
  | None => Ok self
  | Some ic =>
      if unremovable ic then Ok self
      else
        self <- mutate_room self (current_room self)
                  (fun rm =>
                     set_icons rm
                       (filter (fun k => negb (tag_is tag k)) (icons rm))) ;;
        _render_room self
  end.

(** [w] and [h] are the answers of the two dialogs, None when the dialog
    is cancelled. *)
Definition _resize_icon_dialog (self : HaltmannDesktop) (tag : option string)
    (w h : option Z) : Outcome HaltmannDesktop :=
  ic <- _get_icon_by_tag self tag ;;
  match ic with
  | None => Ok self
  | Some ic =>
      match w with
      | None => Ok self
      | Some w =>
          match h with
          | None => Ok self
          | Some h =>
              self <- update_icon self
                        (set_h (set_w ic (inject_Z w)) (inject_Z h)) ;;
              _render_room self
          end
      end
  end.

Definition _toggle_icon_anim (self : HaltmannDesktop) (tag : option string)
  : Outcome HaltmannDesktop :=
  ic <- _get_icon_by_tag self tag ;;
  match ic with
  | None => Ok self
  | Some ic => update_icon self (set_animate ic (negb (animate ic)))
  end.

(** What [_open_icon] does with the icon: the window that it opens, the
    sparkle of a decoration, a line of the assistant, or the message that
    the app is not wired. *)
Inductive Opened : Type :=
| Nothing
| Sparkle
| OpenMario
| OpenTerminal
| OpenTextPad
| OpenWeb
| OpenCalendar
| OpenSettings
| AssistantSays
| NotWired.

Definition _open_icon (self : HaltmannDesktop) (tag : option string)
  : Outcome Opened :=
  ic <- _get_icon_by_tag self tag ;;
  match ic with
  | None => Ok Nothing
  | Some ic =>
      if String.eqb (kind ic) "decor" then Ok Sparkle
      else
        match app_id ic with
        | Some aid =>
            if String.eqb aid "mario" then Ok OpenMario
            else if String.eqb aid "terminal" then Ok OpenTerminal
            else if String.eqb aid "textpad" then Ok OpenTextPad
            else if String.eqb aid "web" then Ok OpenWeb
            else if String.eqb aid "calendar" then Ok OpenCalendar
            else if String.eqb aid "settings" then Ok OpenSettings
            else if String.eqb aid "assistant" then Ok AssistantSays
            else Ok NotWired
        | None => Ok NotWired
        end
  end.

(** [hit] is the tag that [_icon_under_cursor] finds. *)
Definition _on_canvas_double (self : HaltmannDesktop) (hit : option string)
  : Outcome HaltmannDesktop :=
  let tag := hit in
  if nonempty tag then _ <- _open_icon self tag ;; Ok self else Ok self.

(** The context menu: which entries it enables is not modelled. *)
Definition _on_canvas_right (self : HaltmannDesktop) (hit : option string)
  : Outcome HaltmannDesktop :=
  let tag := hit in
  if negb (nonempty tag) then Ok self
  else _ <- _get_icon_by_tag self tag ;; Ok self.

(** ** Rooms *)

Definition _switch_room (self : HaltmannDesktop) (rn : string)
  : Outcome HaltmannDesktop :=
  if negb (contains rn (rooms self)) then Ok self
  else _render_room (set_current_room self (Some rn)).

(** [rn] is the answer of the dialog, [theme] the draw. *)
Definition _new_room_dialog (self : HaltmannDesktop) (rn : option string)
    (theme : string) : Outcome HaltmannDesktop :=
  match rn with
  | None => Ok self
  | Some rn =>
      if String.eqb rn "" then Ok self
      else if contains rn (rooms self) then Ok self
      else
        let self :=
          set_rooms self (setitem rn (mkRoom rn theme []) (rooms self)) in
        _switch_room self rn
  end.

(** The loop that looks for a free name, from the test of [nrn] on. *)
Fixpoint copy_name (fuel : nat) (rms : dict Room) (rn : string) (i : Z)
    (nrn : string) : option string :=
  if contains nrn rms then
    match fuel with
    | O => None
    | S fuel =>
        copy_name fuel rms rn (i + 1) (rn ++ " (Copy " ++ str (i + 1) ++ ")")
    end
  else Some nrn.

Definition _duplicate_current_room (self : HaltmannDesktop)
  : Outcome HaltmannDesktop :=
  match current_room self with
  | None => Raise TypeError
  | Some rn =>
      match copy_name (List.length (rooms self)) (rooms self) rn 1
                      (rn ++ " (Copy)") with
      | None => Unfinished
      | Some nrn =>
          src <- room_at self (Some rn) ;;
          clone_icons <-
            mapM (fun ic => Icon_from_dict (Icon_to_dict ic)) (icons src) ;;
          let clone := mkRoom nrn (theme src) clone_icons in
          Ok (set_rooms self (setitem nrn clone (rooms self)))
      end
  end.

(** [yes] is the answer of the confirmation dialog. *)
Definition _delete_current_room (self : HaltmannDesktop) (yes : bool)
  : Outcome HaltmannDesktop :=
  if (List.length (rooms self) <=? 1)%nat then Ok self
  else
    let rn := current_room self in
    if yes then
      rms <- match rn with
             | Some rn => delitem rn (rooms self)
             | None => Raise (KeyError None)
             end ;;
      let self := set_rooms self rms in
      match sorted (keys (rooms self)) with
      | [] => Raise IndexError
      | k :: _ => _render_room (set_current_room self (Some k))
      end
    else Ok self.

(** [SettingsWin._apply], with the theme chosen in the window. *)
Definition SettingsWin_apply (self : HaltmannDesktop) (theme : string)
  : Outcome HaltmannDesktop :=
  let rn := current_room self in
  self <- mutate_room self rn (fun r => set_theme r theme) ;;
  _render_room self.

(** ** The ticker *)

(** [dy] stands for [math.sin(ic.vphase) * 0.6]. *)
Definition bob (dy : Icon -> Q) (ic : Icon) : Icon :=
  if animate ic then
    let ic1 := set_y ic (y ic + dy ic) in
    set_y ic1 (y ic1 - dy ic)
  else ic.

Definition _tick (self : HaltmannDesktop) (dy : Icon -> Q)
  : Outcome HaltmannDesktop :=
  match current_room self with
  | None => Ok self
  | Some k =>
      match lookup k (rooms self) with
      | None => Ok self
      | Some rm =>
          let changed := existsb animate (icons rm) in
          let self :=
            store_room self k (set_icons rm (map (bob dy) (icons rm))) in
          if changed then _render_room self else Ok self
      end
  end.

(** ** Sessions *)

(** What the user and the timer make the desktop do, layout files
    apart. *)
Inductive Op : Type :=
| Click (hit : option string) (ex ey : Q) (rnd : Draw)
| Drag (ex ey : Q)
| Release
| DoubleClick (hit : option string)
| RightClick (hit : option string)
| DuplicateIcon (tag : option string)
| RemoveIcon (tag : option string)
| ResizeIcon (tag : option string) (w h : option Z)
| ToggleAnim (tag : option string)
| SwitchRoom (rn : string)
| NewRoom (rn : option string) (theme : string)
| DuplicateRoom
| DeleteRoom (yes : bool)
| ApplyTheme (theme : string)
| EditMode (on : bool)
| Bob (dy : Icon -> Q).

Definition step (op : Op) (self : HaltmannDesktop)
  : Outcome HaltmannDesktop :=
  match op with
  | Click hit ex ey rnd => _on_canvas_click self hit ex ey rnd
  | Drag ex ey => _on_canvas_drag self ex ey
  | Release => Ok (_on_canvas_release self)
  | DoubleClick hit => _on_canvas_double self hit
  | RightClick hit => _on_canvas_right self hit
  | DuplicateIcon tag => _duplicate_icon self tag
  | RemoveIcon tag => _remove_icon self tag
  | ResizeIcon tag w h => _resize_icon_dialog self tag w h
  | ToggleAnim tag => _toggle_icon_anim self tag
  | SwitchRoom rn => _switch_room self rn
  | NewRoom rn theme => _new_room_dialog self rn theme
  | DuplicateRoom => _duplicate_current_room self
  | DeleteRoom yes => _delete_current_room self yes
  | ApplyTheme theme => SettingsWin_apply self theme
  | EditMode on => _refresh_status (set_edit_mode self on)
  | Bob dy => _tick self dy
  end.


(** ** Layout files *)

Definition APP_TITLE : string := "HALTMANN WORKS CO — MariOS 64 (Tribute)".

(** The data that [save_layout] writes; [time] is [now_str()]. *)
Definition save_layout (self : HaltmannDesktop) (time : string)
  : Outcome Val :=
  rds <- mapM (fun r => rm <- room_at self (Some r) ;; Ok (Room_to_dict rm))
              (sorted (keys (rooms self))) ;;
  Ok (VDict [("app_title", VStr APP_TITLE); ("time", VStr time);
             ("rooms", VList rds)]).

(** The loop of [load_layout]: the rooms read so far stay when a room
    raises. *)
Fixpoint load_rooms (rds : list Val) (self : HaltmannDesktop)
  : Outcome (HaltmannDesktop * option Exn) :=
  match rds with
  | [] => Ok (self, None)
  | rd :: rds =>
      match Room_from_dict rd with
      | Ok r => load_rooms rds (set_rooms self (setitem (name r) r (rooms self)))
      | Raise e => Ok (self, Some e)
      | Untyped => Untyped
      | Unfinished => Unfinished
      end
  end.

(** [load_layout] on the data [data] that [json.load] has read: the new
    desktop, and the exception that the handler has caught, if any. *)
Definition load_layout (self : HaltmannDesktop) (data : Val)
  : Outcome (HaltmannDesktop * option Exn) :=
  let self := set_rooms self [] in
  match data with
  | VDict d =>
      match iter (get d "rooms" (VList [])) with
      | Ok rds =>
          res <- load_rooms rds self ;;
          match res with
          | (self, Some e) => Ok (self, Some e)
          | (self, None) =>
              match rooms self with
              | [] => Ok (self, Some (ValueError "No rooms found in file"))
              | _ =>
                  match sorted (keys (rooms self)) with
                  | [] => Ok (self, Some IndexError)
                  | k :: _ =>
                      let self := set_current_room self (Some k) in
                      match _render_room self with
                      | Raise e => Ok (self, Some e)
                      | _ => Ok (self, None)
                      end
                  end
              end
          end
      | Raise e => Ok (self, Some e)
      | Untyped => Untyped
      | Unfinished => Unfinished
      end
  | _ => Ok (self, Some AttributeError)
  end.

(** ** What holds in a session *)

(** The apps that [_open_icon] knows. *)
Definition wired : list string :=
  ["mario"; "terminal"; "textpad"; "web"; "calendar"; "settings";
   "assistant"].

(** An icon made in a session: its tag is [icon_n] for a count [n] that
    the counter has reached, it is an app or a decoration, the apps are
    the icons that cannot be removed, and the app of an app icon is one
    that [_open_icon] knows. *)
Definition icon_ok (c : Z) (ic : Icon) : Prop :=
  (exists n, (1 <= n <= c)%Z /\ tag ic = "icon_" ++ str n) /\
  (kind ic = "app" \/ kind ic = "decor") /\
  (unremovable ic = true <-> kind ic = "app") /\
  (kind ic = "app" -> exists a, app_id ic = Some a /\ In a wired).

(** A room is filed under its name and holds no two icons with the same
    tag. *)
Definition room_ok (c : Z) (kr : string * Room) : Prop :=
  name (snd kr) = fst kr /\
  NoDup (map tag (icons (snd kr))) /\
  Forall (icon_ok c) (icons (snd kr)).

Record desk_inv (s : HaltmannDesktop) : Prop := mk_desk_inv {
  desk_counter : (0 <= icon_counter s)%Z;
  desk_keys : NoDup (keys (rooms s));
  desk_current :
    exists rn, current_room s = Some rn /\ In rn (keys (rooms s));
  desk_rooms : Forall (room_ok (icon_counter s)) (rooms s) }.

(** The icons of the current room. *)
Definition current_icons (s : HaltmannDesktop) : list Icon :=
  match room_at s (current_room s) with
  | Ok r => icons r
  | _ => []
  end.

(** The rooms that a layout file lists: the list under "rooms" of a
    dict. *)
Definition listed_rooms (data : Val) : list Val :=
  match data with
  | VDict d =>
      match get d "rooms" (VList []) with
      | VList l => l
      | _ => []
      end
  | _ => []
  end.

(** The desktop that [HaltmannDesktop()] builds. *)
Definition desk0 : HaltmannDesktop :=
  Eval vm_compute in
    match HaltmannDesktop_init with
    | Ok s => s
    | _ => blank
    end.

End Desktop.

(** * Properties *)

(** ** Comparisons *)

Lemma leb_spec (a b : Q) : reflect (a <= b) (a <=? b).
Proof.
  unfold Py.leb. destruct (Qle_bool a b) eqn:E; constructor.
  - now apply Qle_bool_iff.
  - intro Hle. apply Qle_bool_iff in Hle. congruence.
Qed.

Lemma ltb_spec (a b : Q) : reflect (a < b) (a <? b).
Proof.
  unfold Py.ltb. change (Qle_bool b a) with (b <=? a).
  destruct (leb_spec b a) as [Hle | Hnle]; constructor; lra.
Qed.

Lemma geb_spec (a b : Q) : reflect (b <= a) (a >=? b).
Proof. unfold Py.geb. apply leb_spec. Qed.

Lemma gtb_spec (a b : Q) : reflect (b < a) (a >? b).
Proof. unfold Py.gtb. apply ltb_spec. Qed.

(** Case analysis on every comparison in sight. *)
Ltac py_case :=
  match goal with
  | |- context [?a <=? ?b] => destruct (leb_spec a b)
  | |- context [?a <? ?b] => destruct (ltb_spec a b)
  | |- context [?a >=? ?b] => destruct (geb_spec a b)
  | |- context [?a >? ?b] => destruct (gtb_spec a b)
  | H : context [?a <=? ?b] |- _ => destruct (leb_spec a b)
  | H : context [?a <? ?b] |- _ => destruct (ltb_spec a b)
  | H : context [?a >=? ?b] |- _ => destruct (geb_spec a b)
  | H : context [?a >? ?b] |- _ => destruct (gtb_spec a b)
  end.

Ltac split_ifs :=
  repeat match goal with
         | |- context [if ?c then _ else _] => destruct c
         end.

Ltac py_cases := repeat (py_case; simpl in *); try discriminate; try lra.

Lemma clamp_bounds (v lo hi : Q) : lo <= hi -> lo <= clamp v lo hi <= hi.
Proof. unfold clamp, Py.max, Py.min. intros. py_cases. Qed.

Lemma rects_overlap_iff (a0 a1 a2 a3 b0 b1 b2 b3 : Q) :
  _rects_overlap (a0, a1, a2, a3) (b0, b1, b2, b3) = true <->
  b0 < a2 /\ a0 < b2 /\ b1 < a3 /\ a1 < b3.
Proof.
  unfold _rects_overlap. split; intros; py_cases.
Qed.

(** Reduction of field accesses after field updates, and nothing else. *)
Ltac fields :=
  cbn [p_x p_y p_w p_h p_vx p_vy p_on_ground
       set_x set_y set_vx set_vy set_on_ground
       e_x e_y e_w e_h e_vx e_alive set_e_x set_e_vx set_e_alive
       c_x c_y c_r c_alive set_c_alive
       g_x g_y g_w g_h k_left k_right k_jump set_left set_right set_jump
       rng W H keys scroll_x player platforms coins enemies goal score win
       set_keys set_scroll_x set_player set_coins set_enemies set_score
       set_win fst snd] in *.

Lemma max0_pos (v : Q) : Py.max 0 v == 0 -> v <= 0.
Proof. unfold Py.max. py_cases. Qed.

Lemma overlap_area_zero (a b : Rect) :
  overlap_area a b == 0 -> ~ (0 < overlap_x a b /\ 0 < overlap_y a b).
Proof.
  unfold overlap_area. intros Hz [Hx Hy].
  apply Qmult_integral in Hz. destruct Hz as [Hz | Hz];
    apply max0_pos in Hz; lra.
Qed.

Lemma rects_overlap_positive (a b : Rect) :
  proper a -> proper b ->
  (_rects_overlap a b = true <-> 0 < overlap_x a b /\ 0 < overlap_y a b).
Proof.
  destruct a as [[[a0 a1] a2] a3], b as [[[b0 b1] b2] b3].
  intros [Ha1 Ha2] [Hb1 Hb2]. rewrite rects_overlap_iff.
  unfold overlap_x, overlap_y, Py.min, Py.max. split; intros; py_cases.
Qed.

(** ** The overlap test at contact *)

(** C10: for rectangles with positive width and height, [_rects_overlap]
    holds exactly when the overlap is strictly positive on both axes; when
    the rectangles only touch (an intersection of area zero) the test is
    false, the collision loop leaves the player as it is for that platform,
    the stomp check neither kills the enemy nor resets, and the goal check
    does not set the win flag. *)
Theorem C10_touching_is_no_overlap (a b : Rect)
    (Ha : proper a) (Hb : proper b) :
  (_rects_overlap a b = true <-> 0 < overlap_x a b /\ 0 < overlap_y a b) /\
  (overlap_area a b == 0 ->
     _rects_overlap a b = false /\
     (forall dx dy p pl, platform_rect pl = b ->
        resolve_platform a dx dy p pl = p) /\
     (forall self e, enemy_rect e = b -> stomp_check a self e = Next (e, self)) /\
     (forall self, goal_rect (goal self) = b -> goal_check a self = self)).
Proof.
  split; [now apply rects_overlap_positive|].
  intro Hz. apply overlap_area_zero in Hz.
  assert (Hf : _rects_overlap a b = false).
  { destruct (_rects_overlap a b) eqn:E; [|reflexivity].
    apply rects_overlap_positive in E; tauto. }
  split; [exact Hf|]. repeat split.
  - intros dx dy p pl <-. unfold resolve_platform. now rewrite Hf.
  - intros self e <-. unfold stomp_check. now rewrite Hf.
  - intros self <-. unfold goal_check. now rewrite Hf.
Qed.

(** The player standing exactly on the first ground block: the two
    rectangles share an edge. *)
Lemma C10_witness :
  proper (80, 328, 104, 360) /\ proper (80, 360, 160, 480) /\
  _rects_overlap (80, 328, 104, 360) (80, 360, 160, 480) = false.
Proof.
  assert (Ha : proper (80, 328, 104, 360)) by (simpl; lra).
  assert (Hb : proper (80, 360, 160, 480)) by (simpl; lra).
  split; [exact Ha|]. split; [exact Hb|].
  apply (C10_touching_is_no_overlap _ _ Ha Hb). reflexivity.
Defined.

(** ** Level generation *)

Lemma reset_level_fields (self : MarioDemo) :
  reset_level self =
  mkDemo RNG_SEED (W self) (H self) (mkKeys false false false) 0.0
         (mkPlayer 80.0 320.0 24 32 0.0 0.0 false)
         (ground_strip ++ floating_platforms) level_coins
         [mkEnemy 520.0 340 28 20 (-1.0) true] (mkGoal 1400 280 12 120)
         0%Z false.
Proof. reflexivity. Qed.

(** C7: level generation is deterministic.  Whatever the states two
    resets start from, they build the same platforms, coins, enemies and
    goal (the layout written out below), seed the generator with the same
    seed, and set the score to 0 and the player, the scroll offset, the
    keys and the win flag to the same initial values; a reset after a
    reset changes nothing. *)
Theorem C7_reset_level_deterministic (s1 s2 : MarioDemo) :
  platforms (reset_level s1) = platforms (reset_level s2) /\
  coins (reset_level s1) = coins (reset_level s2) /\
  enemies (reset_level s1) = enemies (reset_level s2) /\
  goal (reset_level s1) = goal (reset_level s2) /\
  rng (reset_level s1) = RNG_SEED /\
  platforms (reset_level s1) = ground_strip ++ floating_platforms /\
  coins (reset_level s1) = level_coins /\
  enemies (reset_level s1) = [mkEnemy 520.0 340 28 20 (-1.0) true] /\
  goal (reset_level s1) = mkGoal 1400 280 12 120 /\
  score (reset_level s1) = 0%Z /\
  player (reset_level s1) = mkPlayer 80.0 320.0 24 32 0.0 0.0 false /\
  scroll_x (reset_level s1) = 0.0 /\
  keys (reset_level s1) = mkKeys false false false /\
  win (reset_level s1) = false /\
  reset_level (reset_level s1) = reset_level s1.
Proof.
  rewrite !reset_level_fields. fields. repeat split.
Qed.

(** ** Velocity bounds *)

Lemma vel_integrated (self : MarioDemo) :
  vel_bounded (player (gravity (movement_input self))).
Proof.
  unfold vel_bounded, gravity, movement_input. fields. split.
  - apply clamp_bounds. lra.
  - apply clamp_bounds. lra.
Qed.

Lemma resolve_platform_vel (pr : Rect) (dx dy : Q) (p : Player)
    (pl : Platform) :
  vel_bounded p -> vel_bounded (resolve_platform pr dx dy p pl).
Proof.
  unfold vel_bounded, resolve_platform. intros [Hx Hy].
  destruct (_rects_overlap pr (platform_rect pl)); simpl; [|tauto].
  destruct pr as [[[pr0 pr1] pr2] pr3].
  destruct (platform_rect pl) as [[[r0 r1] r2] r3].
  destruct (_ <? _); [destruct (dx >? 0)|destruct (dy >? 0)]; fields;
    split; lra.
Qed.

Lemma fold_resolve_vel (pr : Rect) (dx dy : Q) (pls : list Platform) :
  forall p, vel_bounded p ->
            vel_bounded (fold_left (resolve_platform pr dx dy) pls p).
Proof.
  induction pls as [|pl pls IH]; intros p Hp; simpl; [exact Hp|].
  apply IH. now apply resolve_platform_vel.
Qed.

Lemma move_and_collide_vel (self : MarioDemo) (p : Player) (dx dy : Q) :
  vel_bounded p -> vel_bounded (_move_and_collide self p dx dy).
Proof.
  intro Hp. unfold _move_and_collide. apply fold_resolve_vel. exact Hp.
Qed.

Lemma collide_x_vel (self : MarioDemo) :
  vel_bounded (player self) -> vel_bounded (player (collide_x self)).
Proof. intro Hp. unfold collide_x. fields. now apply move_and_collide_vel. Qed.

Lemma collide_y_vel (self : MarioDemo) :
  vel_bounded (player self) -> vel_bounded (player (collide_y self)).
Proof. intro Hp. unfold collide_y. fields. now apply move_and_collide_vel. Qed.

Lemma jump_vel (self : MarioDemo) :
  vel_bounded (player self) -> vel_bounded (player (jump self)).
Proof.
  unfold jump, vel_bounded. intros [Hx Hy].
  destruct (k_jump (keys self) && p_on_ground (player self)); fields;
    split; lra.
Qed.

Lemma scrolling_player (self : MarioDemo) :
  player (scrolling self) = player self.
Proof.
  unfold scrolling. fields.
  destruct (_ >? _), (_ <? _); reflexivity.
Qed.

Lemma collect_coins_player (pr : Rect) (self : MarioDemo) :
  player (collect_coins pr self) = player self.
Proof.
  unfold collect_coins. destruct (coins_loop pr (coins self) (score self)).
  reflexivity.
Qed.

Lemma stomp_check_vel (pr : Rect) (self : MarioDemo) (e e' : Enemy)
    (self' : MarioDemo) :
  stomp_check pr self e = Next (e', self') ->
  vel_bounded (player self) -> vel_bounded (player self').
Proof.
  unfold stomp_check, vel_bounded. intros Hs [Hx Hy].
  destruct (_rects_overlap pr (enemy_rect e)).
  - destruct ((_ >? _) && (_ <=? _)); [|discriminate].
    injection Hs as _ <-. fields. split; lra.
  - injection Hs as _ <-. split; lra.
Qed.

Lemma enemy_body_vel (pr : Rect) (self : MarioDemo) (e e' : Enemy)
    (self' : MarioDemo) :
  enemy_body pr self e = Next (e', self') ->
  vel_bounded (player self) -> vel_bounded (player self').
Proof.
  unfold enemy_body. destruct (negb (e_alive e)).
  - intros [= _ <-]. tauto.
  - apply stomp_check_vel.
Qed.

Lemma vel_bounded_reset (self : MarioDemo) :
  vel_bounded (player (reset_level self)).
Proof. rewrite reset_level_fields. unfold vel_bounded. fields. lra. Qed.

Lemma stomp_check_return (pr : Rect) (self : MarioDemo) (e : Enemy)
    (self' : MarioDemo) :
  stomp_check pr self e = Return self' -> self' = reset_level self.
Proof.
  unfold stomp_check. destruct (_rects_overlap pr (enemy_rect e));
    [|discriminate].
  destruct ((_ >? _) && (_ <=? _)); [discriminate|]. now intros [= <-].
Qed.

Lemma enemy_body_return (pr : Rect) (self : MarioDemo) (e : Enemy)
    (self' : MarioDemo) :
  enemy_body pr self e = Return self' -> self' = reset_level self.
Proof.
  unfold enemy_body. destruct (negb (e_alive e)); [discriminate|].
  apply stomp_check_return.
Qed.

Lemma enemy_loop_vel (pr : Rect) (es : list Enemy) :
  forall self, vel_bounded (player self) ->
  match enemy_loop pr self es with
  | Next (_, self') => vel_bounded (player self')
  | Return self' => vel_bounded (player self')
  end.
Proof.
  induction es as [|e es IH]; intros self Hp; simpl; [exact Hp|].
  destruct (enemy_body pr self e) as [[e' s1]|s1] eqn:Eb.
  - apply enemy_body_vel in Eb; [|exact Hp].
    specialize (IH s1 Eb).
    destruct (enemy_loop pr s1 es) as [[es' s2]|s2]; exact IH.
  - apply enemy_body_return in Eb. subst. apply vel_bounded_reset.
Qed.

Lemma update_physics_vel (self : MarioDemo) :
  vel_bounded (player (_update_physics self)).
Proof.
  unfold _update_physics.
  set (m := scrolling _). set (pr := player_rect (player m)).
  assert (Hm : vel_bounded (player (collect_coins pr m))).
  { rewrite collect_coins_player. unfold m. rewrite scrolling_player.
    apply jump_vel, collide_y_vel, collide_x_vel, vel_integrated. }
  unfold enemy_ai.
  pose proof (enemy_loop_vel pr (enemies (collect_coins pr m)) _ Hm) as Hl.
  destruct (enemy_loop pr (collect_coins pr m) _) as [[es s2]|s2];
    [|exact Hl].
  unfold goal_check. destruct (_rects_overlap pr _); exact Hl.
Qed.

Lemma on_key_vel (self self' : MarioDemo) (k : string) :
  _on_key self k = Some self' ->
  vel_bounded (player self) -> vel_bounded (player self').
Proof.
  unfold _on_key. cbv zeta. intros Hk Hp.
  destruct (String.eqb (Py.lower k) "escape"); [discriminate|].
  injection Hk as <-.
  destruct (String.eqb (Py.lower k) "r"); [apply vel_bounded_reset|].
  split_ifs; exact Hp.
Qed.

Lemma on_key_up_vel (self : MarioDemo) (k : string) :
  vel_bounded (player self) -> vel_bounded (player (_on_key_up self k)).
Proof.
  unfold _on_key_up. cbv zeta. intros Hp. split_ifs; exact Hp.
Qed.

Lemma handle_vel (ev : Event) (self self' : MarioDemo) :
  handle ev self = Some self' ->
  vel_bounded (player self) -> vel_bounded (player self').
Proof.
  destruct ev as [k|k|]; simpl.
  - apply on_key_vel.
  - intros [= <-]. apply on_key_up_vel.
  - intros [= <-] _. apply update_physics_vel.
Qed.

Lemma run_vel (evs : list Event) :
  forall self self', run evs self = Some self' ->
  vel_bounded (player self) -> vel_bounded (player self').
Proof.
  induction evs as [|ev evs IH]; simpl; intros self self' Hr Hp.
  - now injection Hr as <-.
  - destruct (handle ev self) as [s1|] eqn:Eh; [|discriminate].
    eapply IH; [exact Hr|]. eapply handle_vel; eauto.
Qed.

(** C4: along every sequence of key events and ticks from the initial
    state, the player's velocity is within [-4, 4] horizontally and
    [-12, 12] vertically; in the tick that follows it is so after the
    velocity integration and stays so after each collision pass, after the
    jump and at the end of the tick (stomp bounce and reset included). *)
Theorem C4_velocity_bounds (evs : list Event) (self : MarioDemo)
    (Hrun : run evs MarioDemo_init = Some self) :
  vel_bounded (player self) /\
  vel_bounded (player (gravity (movement_input self))) /\
  vel_bounded (player (collide_x (gravity (movement_input self)))) /\
  vel_bounded
    (player (collide_y (collide_x (gravity (movement_input self))))) /\
  vel_bounded
    (player (jump (collide_y (collide_x (gravity (movement_input self)))))) /\
  vel_bounded (player (_update_physics self)) /\
  vel_bounded (player (reset_level self)).
Proof.
  split.
  { eapply run_vel; [exact Hrun|]. apply vel_bounded_reset. }
  pose proof (vel_integrated self) as H0.
  pose proof (collide_x_vel _ H0) as H1.
  pose proof (collide_y_vel _ H1) as H2.
  pose proof (jump_vel _ H2) as H3.
  split; [exact H0|]. split; [exact H1|]. split; [exact H2|].
  split; [exact H3|].
  split; [apply update_physics_vel | apply vel_bounded_reset].
Qed.

(** Holding right for two ticks from the initial state. *)
Lemma C4_witness :
  let evs := [KeyPress "Right"; Tick; Tick] in
  let s := _update_physics (_update_physics
             (set_keys MarioDemo_init (mkKeys false true false))) in
  run evs MarioDemo_init = Some s /\ vel_bounded (player (_update_physics s)).
Proof.
  intros evs s.
  assert (Hrun : run evs MarioDemo_init = Some s) by reflexivity.
  split; [exact Hrun|].
  apply (C4_velocity_bounds evs s Hrun).
Defined.

(** ** What each block of the tick leaves alone *)

Lemma same_level_trans (s1 s2 s3 : MarioDemo) :
  same_level s1 s2 -> same_level s2 s3 -> same_level s1 s3.
Proof. unfold same_level. intuition congruence. Qed.

Lemma resolve_platform_size (pr : Rect) (dx dy : Q) (p : Player)
    (pl : Platform) : same_size p (resolve_platform pr dx dy p pl).
Proof.
  unfold same_size, resolve_platform.
  destruct (_rects_overlap pr (platform_rect pl)); simpl; [|tauto].
  destruct pr as [[[pr0 pr1] pr2] pr3].
  destruct (platform_rect pl) as [[[r0 r1] r2] r3].
  split_ifs; fields; tauto.
Qed.

Lemma fold_resolve_size (pr : Rect) (dx dy : Q) (pls : list Platform) :
  forall p, same_size p (fold_left (resolve_platform pr dx dy) pls p).
Proof.
  induction pls as [|pl pls IH]; intros p; simpl; [split; reflexivity|].
  destruct (IH (resolve_platform pr dx dy p pl)) as [Hw Hh].
  destruct (resolve_platform_size pr dx dy p pl) as [Hw' Hh'].
  split; congruence.
Qed.

Lemma move_and_collide_size (self : MarioDemo) (p : Player) (dx dy : Q) :
  same_size p (_move_and_collide self p dx dy).
Proof.
  unfold _move_and_collide. cbv zeta.
  set (p1 := set_on_ground _ false).
  destruct (fold_resolve_size (player_rect p1) dx dy (platforms self) p1)
    as [Hw Hh].
  unfold same_size. rewrite Hw, Hh. split; reflexivity.
Qed.

Lemma player_only_trans (s1 s2 s3 : MarioDemo) :
  player_only s1 s2 -> player_only s2 s3 -> player_only s1 s3.
Proof.
  unfold player_only, same_size.
  intros (L1 & ? & ? & ? & ? & ? & ? & ?) (L2 & ? & ? & ? & ? & ? & ? & ?).
  split; [eapply same_level_trans; eauto|]. intuition congruence.
Qed.

Lemma movement_input_frame (s : MarioDemo) : player_only s (movement_input s).
Proof.
  unfold player_only, same_level, same_size, movement_input. fields.
  intuition reflexivity.
Qed.

Lemma gravity_frame (s : MarioDemo) : player_only s (gravity s).
Proof.
  unfold player_only, same_level, same_size, gravity. fields.
  intuition reflexivity.
Qed.

Lemma collide_x_frame (s : MarioDemo) : player_only s (collide_x s).
Proof.
  unfold player_only, same_level, collide_x. fields.
  pose proof (move_and_collide_size s (player s) (p_vx (player s)) 0).
  intuition reflexivity.
Qed.

Lemma collide_y_frame (s : MarioDemo) : player_only s (collide_y s).
Proof.
  unfold player_only, same_level, collide_y. fields.
  pose proof (move_and_collide_size s (player s) 0 (p_vy (player s))).
  intuition reflexivity.
Qed.

Lemma jump_frame (s : MarioDemo) : player_only s (jump s).
Proof.
  unfold player_only, same_level, same_size, jump.
  split_ifs; fields; intuition reflexivity.
Qed.

Lemma before_camera_frame (s : MarioDemo) : player_only s (before_camera s).
Proof.
  unfold before_camera.
  eapply player_only_trans; [apply movement_input_frame|].
  eapply player_only_trans; [apply gravity_frame|].
  eapply player_only_trans; [apply collide_x_frame|].
  eapply player_only_trans; [apply collide_y_frame|apply jump_frame].
Qed.

(** The camera writes the scroll offset only. *)
Lemma scrolling_frame (s : MarioDemo) :
  same_level s (scrolling s) /\ player (scrolling s) = player s /\
  coins (scrolling s) = coins s /\ enemies (scrolling s) = enemies s /\
  score (scrolling s) = score s /\ win (scrolling s) = win s.
Proof.
  unfold same_level, scrolling. cbv zeta. split_ifs; fields;
    intuition reflexivity.
Qed.

Lemma motion_eq (s : MarioDemo) : motion s = scrolling (before_camera s).
Proof. reflexivity. Qed.

Lemma motion_frame (s : MarioDemo) :
  same_level s (motion s) /\ coins (motion s) = coins s /\
  enemies (motion s) = enemies s /\ score (motion s) = score s /\
  win (motion s) = win s /\ same_size (player s) (player (motion s)) /\
  player (motion s) = player (before_camera s).
Proof.
  rewrite motion_eq.
  destruct (before_camera_frame s) as (L1 & ? & ? & ? & ? & ? & ?).
  destruct (scrolling_frame (before_camera s)) as (L2 & Hp & ? & ? & ? & ?).
  split; [eapply same_level_trans; eauto|]. rewrite Hp.
  intuition congruence.
Qed.

Lemma update_physics_eq (s : MarioDemo) :
  _update_physics s =
  let m := motion s in
  let pr := player_rect (player m) in
  match enemy_ai pr (collect_coins pr m) with
  | Return self' => self'
  | Next self' => goal_check pr self'
  end.
Proof. reflexivity. Qed.

(** ** The coin loop *)

Lemma coins_loop_eq (pr : Rect) (cs : list Coin) :
  forall sc, coins_loop pr cs sc =
             (map (pick pr) cs, (sc + 100 * count_picked pr cs)%Z).
Proof.
  induction cs as [|c cs IH]; intros sc; cbn [coins_loop count_picked map].
  - f_equal. lia.
  - unfold pick, picked.
    destruct (c_alive c); cbn [negb andb].
    + destruct (_rect_circle_overlap pr (c_x c, c_y c, c_r c));
        rewrite IH; f_equal; lia.
    + rewrite IH. f_equal.
Qed.

Lemma collect_coins_eq (pr : Rect) (s : MarioDemo) :
  collect_coins pr s =
  set_score (set_coins s (map (pick pr) (coins s)))
            (score s + 100 * count_picked pr (coins s))%Z.
Proof. unfold collect_coins. now rewrite coins_loop_eq. Qed.

Lemma pick_place (pr : Rect) (c : Coin) :
  c_x (pick pr c) = c_x c /\ c_y (pick pr c) = c_y c /\
  c_r (pick pr c) = c_r c.
Proof. unfold pick. destruct (picked pr c); fields; tauto. Qed.

Lemma pick_alive (pr : Rect) (c : Coin) :
  c_alive (pick pr c) = c_alive c && negb (picked pr c).
Proof.
  unfold pick. destruct (picked pr c) eqn:E; fields.
  - now rewrite andb_false_r.
  - now rewrite andb_true_r.
Qed.

Lemma count_picked_nonneg (pr : Rect) (cs : list Coin) :
  (0 <= count_picked pr cs)%Z.
Proof. induction cs as [|c cs IH]; simpl; [lia|]. destruct (picked pr c); lia. Qed.

Lemma count_picked_zero (pr : Rect) (cs : list Coin) :
  Forall (fun c => picked pr c = false) cs -> count_picked pr cs = 0%Z.
Proof.
  induction 1 as [|c cs Hc _ IH]; simpl; [reflexivity|].
  now rewrite Hc, IH.
Qed.

Lemma count_picked_in (pr : Rect) (cs : list Coin) (c : Coin) :
  In c cs -> picked pr c = true -> (1 <= count_picked pr cs)%Z.
Proof.
  induction cs as [|c' cs IH]; simpl; [tauto|].
  intros [-> | Hin] Hp.
  - rewrite Hp. pose proof (count_picked_nonneg pr cs). lia.
  - specialize (IH Hin Hp). destruct (picked pr c'); lia.
Qed.

(** A picked coin is within its radius of the rectangle on both axes. *)
Lemma square_le (d r : Q) : 0 <= r -> d * d <= r * r -> - r <= d <= r.
Proof. intros Hr Hd. split; nra. Qed.

Lemma rect_circle_overlap_range (x1 y1 x2 y2 cx cy r : Q) :
  0 <= r -> x1 <= x2 -> y1 <= y2 ->
  _rect_circle_overlap (x1, y1, x2, y2) (cx, cy, r) = true ->
  x1 - r <= cx <= x2 + r /\ y1 - r <= cy <= y2 + r.
Proof.
  intros Hr Hx Hy. unfold _rect_circle_overlap.
  set (dx := cx - clamp cx x1 x2). set (dy := cy - clamp cy y1 y2).
  destruct (leb_spec (dx * dx + dy * dy) (r * r)) as [Hd|]; [|discriminate].
  intros _.
  assert (Hdx : - r <= dx <= r) by (apply square_le; nra).
  assert (Hdy : - r <= dy <= r) by (apply square_le; nra).
  pose proof (clamp_bounds cx x1 x2 Hx). pose proof (clamp_bounds cy y1 y2 Hy).
  unfold dx, dy in *. lra.
Qed.

(** ** The enemy loop *)

Lemma enemy_move_shape (s : MarioDemo) (e : Enemy) :
  e_y (enemy_move s e) = e_y e /\ e_w (enemy_move s e) = e_w e /\
  e_h (enemy_move s e) = e_h e /\ e_alive (enemy_move s e) = e_alive e /\
  e_x (enemy_move s e) = e_x e + e_vx e.
Proof. unfold enemy_move. cbv zeta. split_ifs; fields; tauto. Qed.

Lemma stomp_only_refl (s : MarioDemo) : stomp_only s s.
Proof. unfold stomp_only, same_level, same_size. tauto. Qed.

Lemma stomp_only_trans (s1 s2 s3 : MarioDemo) :
  stomp_only s1 s2 -> stomp_only s2 s3 -> stomp_only s1 s3.
Proof.
  unfold stomp_only, same_size.
  intros (L1 & ? & ? & ? & ? & ? & ? & ?) (L2 & ? & ? & ? & ? & ? & ? & ?).
  split; [eapply same_level_trans; eauto|]. intuition congruence.
Qed.

Lemma stomp_check_next (pr : Rect) (s s' : MarioDemo) (e e' : Enemy) :
  stomp_check pr s e = Next (e', s') ->
  stomp_only s s' /\ e_x e' = e_x e /\ e_y e' = e_y e /\ e_w e' = e_w e /\
  e_h e' = e_h e /\ e_vx e' = e_vx e.
Proof.
  unfold stomp_check. cbv zeta.
  destruct (_rects_overlap pr (enemy_rect e)).
  - destruct ((_ >? _) && (_ <=? _)); [|discriminate].
    intros [= <- <-]. unfold stomp_only, same_level, same_size. fields.
    intuition reflexivity.
  - intros [= <- <-]. split; [apply stomp_only_refl|tauto].
Qed.

Lemma enemy_body_next (pr : Rect) (s s' : MarioDemo) (e e' : Enemy) :
  enemy_body pr s e = Next (e', s') ->
  stomp_only s s' /\ e_y e' = e_y e /\ e_w e' = e_w e /\ e_h e' = e_h e.
Proof.
  unfold enemy_body. destruct (negb (e_alive e)).
  - intros [= <- <-]. split; [apply stomp_only_refl|tauto].
  - intros Hs. apply stomp_check_next in Hs.
    destruct (enemy_move_shape s e) as (? & ? & ? & ? & ?).
    intuition congruence.
Qed.

Lemma reset_level_same (a b : MarioDemo) :
  W a = W b -> H a = H b -> reset_level a = reset_level b.
Proof. intros Hw Hh. rewrite !reset_level_fields. now rewrite Hw, Hh. Qed.

Lemma enemy_loop_next (pr : Rect) (es : list Enemy) :
  forall s es' s', enemy_loop pr s es = Next (es', s') ->
  stomp_only s s' /\ List.length es' = List.length es /\
  (Forall enemy_on_ground es -> Forall enemy_on_ground es').
Proof.
  induction es as [|e es IH]; intros s es' s'; simpl.
  - intros [= <- <-]. split; [apply stomp_only_refl|]. split; auto.
  - destruct (enemy_body pr s e) as [[e1 s1]|s1] eqn:Eb; [|discriminate].
    destruct (enemy_loop pr s1 es) as [[es2 s2]|s2] eqn:El; [|discriminate].
    intros [= <- <-].
    apply enemy_body_next in Eb. destruct Eb as (F1 & Hy & Hw & Hh).
    apply IH in El. destruct El as (F2 & Hlen & Hall).
    split; [eapply stomp_only_trans; eauto|]. split; [simpl; congruence|].
    intros Hf. inversion Hf as [|? ? He Hes]; subst. constructor; auto.
    unfold enemy_on_ground in *. intuition congruence.
Qed.

Lemma enemy_loop_return (pr : Rect) (es : list Enemy) :
  forall s s', enemy_loop pr s es = Return s' -> s' = reset_level s.
Proof.
  induction es as [|e es IH]; intros s s'; simpl; [discriminate|].
  destruct (enemy_body pr s e) as [[e1 s1]|s1] eqn:Eb.
  - destruct (enemy_loop pr s1 es) as [[es2 s2]|s2] eqn:El; [discriminate|].
    intros [= <-]. apply IH in El. subst s2.
    apply enemy_body_next in Eb. destruct Eb as ((L & _) & _).
    apply reset_level_same; unfold same_level in L; intuition congruence.
  - intros [= <-]. now apply enemy_body_return in Eb.
Qed.

(** ** The invariant holds in every reachable state *)

Lemma level_inv_reset (s : MarioDemo) :
  W s = 800 -> H s = 480 -> level_inv (reset_level s).
Proof.
  intros Hw Hh. rewrite reset_level_fields.
  constructor; fields; auto.
  - unfold level_coins. simpl. repeat constructor.
  - unfold level_coins. simpl. repeat constructor; fields; lra.
  - repeat constructor.
  - lra.
Qed.

Lemma level_inv_init : level_inv MarioDemo_init.
Proof. apply level_inv_reset; reflexivity. Qed.

Lemma scrolling_bounds (s : MarioDemo) :
  W s = 800 -> 0 <= scroll_x (scrolling s) <= 800.
Proof.
  intro Hw. unfold scrolling. cbv zeta.
  assert (Hc : forall v, 0 <= clamp v 0 (1600 - 800) <= 800).
  { intro v. pose proof (clamp_bounds v 0 (1600 - 800)). lra. }
  split_ifs; fields; rewrite Hw; apply Hc.
Qed.

Lemma map_pick_row (pr : Rect) (cs : list Coin) :
  Forall (fun c => c_y c = 180 /\ c_r c = 8) cs ->
  Forall (fun c => c_y c = 180 /\ c_r c = 8) (map (pick pr) cs).
Proof.
  induction 1 as [|c cs [Hy Hr] _ IH]; simpl; constructor; auto.
  destruct (pick_place pr c) as (_ & -> & ->). tauto.
Qed.

Lemma map_pick_apart (pr : Rect) (cs : list Coin) :
  ForallOrdPairs (fun c c' => c_x c + 100 <= c_x c') cs ->
  ForallOrdPairs (fun c c' => c_x c + 100 <= c_x c') (map (pick pr) cs).
Proof.
  induction 1 as [|c cs Hc _ IH]; simpl; constructor; auto.
  rewrite Forall_map. eapply Forall_impl; [|exact Hc].
  intros c' Hle. cbv beta in *.
  destruct (pick_place pr c) as (-> & _). destruct (pick_place pr c') as (-> & _).
  exact Hle.
Qed.

Lemma collect_coins_frame (pr : Rect) (m : MarioDemo) :
  same_level m (collect_coins pr m) /\
  player (collect_coins pr m) = player m /\
  scroll_x (collect_coins pr m) = scroll_x m /\
  enemies (collect_coins pr m) = enemies m /\
  win (collect_coins pr m) = win m /\
  coins (collect_coins pr m) = map (pick pr) (coins m) /\
  score (collect_coins pr m) = (score m + 100 * count_picked pr (coins m))%Z.
Proof.
  rewrite collect_coins_eq. unfold same_level. fields. intuition reflexivity.
Qed.

Lemma before_enemies_frame (s : MarioDemo) :
  same_level s (before_enemies s) /\
  player (before_enemies s) = player (motion s) /\
  scroll_x (before_enemies s) = scroll_x (motion s) /\
  enemies (before_enemies s) = enemies s /\
  win (before_enemies s) = win s /\
  coins (before_enemies s) =
    map (pick (player_rect (player (motion s)))) (coins s) /\
  score (before_enemies s) =
    (score s + 100 * count_picked (player_rect (player (motion s))) (coins s))%Z.
Proof.
  unfold before_enemies. set (m := motion s).
  destruct (motion_frame s) as (L & Hc & He & Hs & Hw & _). fold m in L, Hc, He, Hs, Hw.
  destruct (collect_coins_frame (player_rect (player m)) m)
    as (L' & Hp' & Hsx' & He' & Hw' & Hc' & Hs').
  split; [eapply same_level_trans; eauto|].
  rewrite Hp', Hsx', He', Hw', Hc', Hs', Hc, Hs. clearbody m. intuition congruence.
Qed.

Lemma update_physics_unfold (s : MarioDemo) :
  _update_physics s =
  match enemy_ai (player_rect (player (motion s))) (before_enemies s) with
  | Return self' => self'
  | Next self' => goal_check (player_rect (player (motion s))) self'
  end.
Proof. unfold _update_physics, before_enemies, motion. reflexivity. Qed.

Lemma tick_dies_unfold (s : MarioDemo) :
  tick_dies s =
  match enemy_ai (player_rect (player (motion s))) (before_enemies s) with
  | Return _ => true
  | Next _ => false
  end.
Proof. unfold tick_dies, before_enemies, motion. reflexivity. Qed.

(** The two ways a tick ends. *)
Lemma tick_cases (s : MarioDemo) :
  let pr := player_rect (player (motion s)) in
  (tick_dies s = true /\ _update_physics s = reset_level s) \/
  (tick_dies s = false /\
   exists es' s2,
     enemy_loop pr (before_enemies s) (enemies s) = Next (es', s2) /\
     _update_physics s = goal_check pr (set_enemies s2 es')).
Proof.
  intro pr. rewrite update_physics_unfold, tick_dies_unfold. fold pr.
  unfold enemy_ai.
  destruct (before_enemies_frame s) as (L & _ & _ & He & _).
  rewrite He.
  destruct (enemy_loop pr (before_enemies s) (enemies s))
    as [[es' s2]|s2] eqn:El.
  - right. split; [reflexivity|]. exists es', s2. split; reflexivity.
  - left. split; [reflexivity|]. apply enemy_loop_return in El. subst s2.
    apply reset_level_same; unfold same_level in L; intuition congruence.
Qed.

Lemma level_inv_tick (s : MarioDemo) :
  level_inv s -> level_inv (_update_physics s).
Proof.
  intros I. destruct (tick_cases s) as [[_ ->] | [_ (es' & s2 & El & ->)]].
  { apply level_inv_reset; apply I. }
  set (pr := player_rect (player (motion s))) in *.
  destruct (before_enemies_frame s) as (L0 & Hp0 & Hsx0 & He0 & Hw0 & Hc0 & _).
  destruct (motion_frame s) as (_ & _ & _ & _ & _ & Hsz & _).
  apply enemy_loop_next in El.
  destruct El as ((L1 & Hsx1 & Hc1 & _ & _ & Hsz1 & _) & Hlen & Hall).
  assert (Hg : level_inv (set_enemies s2 es')).
  { unfold same_level, same_size in *. destruct I.
    constructor; fields; try intuition congruence.
    - rewrite Hc1, Hc0, length_map. assumption.
    - rewrite Hc1, Hc0. now apply map_pick_row.
    - rewrite Hc1, Hc0. now apply map_pick_apart.
    - rewrite Hsx1, Hsx0. rewrite motion_eq. apply scrolling_bounds.
      destruct (before_camera_frame s) as ((_ & Hw & _) & _). congruence. }
  unfold goal_check. destruct (_rects_overlap pr _); [|exact Hg].
  destruct Hg. constructor; fields; assumption.
Qed.

Lemma level_inv_keys (s : MarioDemo) (k : Keys) :
  level_inv s -> level_inv (set_keys s k).
Proof. intros []. constructor; fields; assumption. Qed.

Lemma level_inv_on_key (s s' : MarioDemo) (k : string) :
  _on_key s k = Some s' -> level_inv s -> level_inv s'.
Proof.
  unfold _on_key. cbv zeta. intros Hk I.
  destruct (String.eqb (Py.lower k) "escape"); [discriminate|].
  injection Hk as <-.
  destruct (String.eqb (Py.lower k) "r").
  - apply level_inv_reset; split_ifs; fields; apply I.
  - split_ifs; repeat apply level_inv_keys; exact I.
Qed.

Lemma level_inv_on_key_up (s : MarioDemo) (k : string) :
  level_inv s -> level_inv (_on_key_up s k).
Proof.
  unfold _on_key_up. cbv zeta. intros I.
  split_ifs; repeat apply level_inv_keys; exact I.
Qed.

Lemma level_inv_handle (ev : Event) (s s' : MarioDemo) :
  handle ev s = Some s' -> level_inv s -> level_inv s'.
Proof.
  destruct ev as [k|k|]; simpl.
  - apply level_inv_on_key.
  - intros [= <-]. apply level_inv_on_key_up.
  - intros [= <-]. apply level_inv_tick.
Qed.

Lemma level_inv_run (evs : list Event) :
  forall s s', run evs s = Some s' -> level_inv s -> level_inv s'.
Proof.
  induction evs as [|ev evs IH]; simpl; intros s s' Hr I.
  - now injection Hr as <-.
  - destruct (handle ev s) as [s1|] eqn:Eh; [|discriminate].
    eapply IH; [exact Hr|]. eapply level_inv_handle; eauto.
Qed.

Lemma reachable_inv (s : MarioDemo) : reachable s -> level_inv s.
Proof.
  intros [evs Hr]. eapply level_inv_run; [exact Hr|apply level_inv_init].
Qed.

(** ** The camera *)

Lemma scrolling_moves (b : MarioDemo) :
  W b = 800 -> 0 <= scroll_x b <= 800 ->
  (scroll_x b < scroll_x (scrolling b) ->
   0.6 * 800 < p_x (player b) - scroll_x b) /\
  (scroll_x (scrolling b) < scroll_x b ->
   p_x (player b) - scroll_x b < 0.3 * 800).
Proof.
  intros Hw Hs. unfold scrolling. cbv zeta. rewrite Hw.
  destruct (gtb_spec (p_x (player b) - scroll_x b) (800 * 0.6));
    destruct (ltb_spec (p_x (player b) - scroll_x b) (800 * 0.3));
    fields; unfold clamp, Py.max, Py.min; py_cases;
    rewrite Hw in *; lra.
Qed.

(** C5: in every reachable state, the camera update of the next tick
    leaves the scroll offset within [0, 1600 - 800]; the offset grows only
    if the player's on-screen x was above 0.6 * 800 and shrinks only if it
    was below 0.3 * 800; the offset at the end of the tick is within the
    same bounds. *)
Theorem C5_scroll_offset_bounds (evs : list Event) (s : MarioDemo)
    (Hrun : run evs MarioDemo_init = Some s) :
  let b := before_camera s in
  let center := p_x (player b) - scroll_x b in
  scroll_x b = scroll_x s /\
  0 <= scroll_x (scrolling b) <= 1600 - 800 /\
  (scroll_x s < scroll_x (scrolling b) -> 0.6 * 800 < center) /\
  (scroll_x (scrolling b) < scroll_x s -> center < 0.3 * 800) /\
  0 <= scroll_x (_update_physics s) <= 1600 - 800.
Proof.
  intros b center.
  assert (I : level_inv s) by (apply reachable_inv; now exists evs).
  destruct (before_camera_frame s) as ((_ & Hw & _) & Hsx & _).
  fold b in Hw, Hsx. destruct I as [IW _ _ _ _ _ _ _ _ _ Isx].
  rewrite IW in Hw.
  split; [exact Hsx|].
  split; [pose proof (scrolling_bounds b Hw); lra|].
  assert (Hmove : (scroll_x s < scroll_x (scrolling b) -> 0.6 * 800 < center)
                  /\ (scroll_x (scrolling b) < scroll_x s -> center < 0.3 * 800)).
  { unfold center. rewrite <- Hsx in *. now apply scrolling_moves. }
  split; [apply Hmove|]. split; [apply Hmove|].
  pose proof (level_inv_tick s) as It.
  assert (I : level_inv s) by (apply reachable_inv; now exists evs).
  destruct (It I). lra.
Qed.

(** Holding right for two ticks from the initial state. *)
Lemma C5_witness :
  let evs := [KeyPress "d"; Tick; Tick] in
  let s := _update_physics (_update_physics
             (set_keys MarioDemo_init (mkKeys false true false))) in
  run evs MarioDemo_init = Some s /\
  0 <= scroll_x (scrolling (before_camera s)) <= 1600 - 800.
Proof.
  intros evs s.
  assert (Hrun : run evs MarioDemo_init = Some s) by reflexivity.
  split; [exact Hrun|].
  apply (C5_scroll_offset_bounds evs s Hrun).
Defined.

(** ** The enemy step *)

Lemma hits_wall_spec (e : Enemy) (next_x : Q) (pls : list Platform) :
  let er := (next_x, e_y e, next_x + e_w e, e_y e + e_h e) in
  (hits_wall e er pls = Some true /\ wall_ahead pls e next_x) \/
  (hits_wall e er pls = None /\ ~ wall_ahead pls e next_x).
Proof.
  intro er. induction pls as [|[[[x y] w] h] pls IH]; cbn [hits_wall].
  - right. split; [reflexivity|]. intros (x & y & w & h & [] & _).
  - assert (Hkeep : wall_ahead pls e next_x ->
                    wall_ahead ((x, y, w, h) :: pls) e next_x).
    { intros (x' & y' & w' & h' & Hin & Hw).
      exists x', y', w', h'. split; [now right|exact Hw]. }
    fold er.
    destruct (_rects_overlap er (x, y, x + w, y + h)) eqn:Eo.
    + destruct (leb_spec (e_y e + e_h e) (y + 2)) as [Hle|Hgt].
      * destruct IH as [[-> Hw] | [-> Hn]]; [left; auto|].
        right. split; [reflexivity|].
        intros (x' & y' & w' & h' & [Heq|Hin] & Ho & Hy).
        -- injection Heq as <- <- <- <-. lra.
        -- apply Hn. now exists x', y', w', h'.
      * left. split; [reflexivity|]. exists x, y, w, h.
        split; [now left|]. split; [exact Eo|lra].
    + destruct IH as [[-> Hw] | [-> Hn]]; [left; auto|].
      right. split; [reflexivity|].
      intros (x' & y' & w' & h' & [Heq|Hin] & Ho & Hy).
      * injection Heq as <- <- <- <-. fold er in Ho. congruence.
      * apply Hn. now exists x', y', w', h'.
Qed.

Lemma ground_below_spec (e : Enemy) (next_x : Q) (pls : list Platform) :
  ground_below e next_x pls = true <-> ground_ahead pls e next_x.
Proof.
  induction pls as [|[[[x y] w] h] pls IH]; cbn [ground_below].
  - split; [discriminate|]. intros (x & y & w & h & [] & _).
  - destruct (geb_spec (next_x + e_w e / 2) x) as [H1|H1];
      destruct (leb_spec (next_x + e_w e / 2) (x + w)) as [H2|H2];
      cbn [andb];
      try (destruct (geb_spec (e_y e + e_h e + 2) y) as [H3|H3];
           destruct (leb_spec (e_y e + e_h e) (y + 6)) as [H4|H4];
           cbn [andb]).
    1: { split; [intros _|reflexivity]. exists x, y, w, h.
         split; [now left|]. repeat split; assumption. }
    all: rewrite IH; split;
      [ intros (x' & y' & w' & h' & Hin & Hg);
        exists x', y', w', h'; split; [now right|exact Hg]
      | intros (x' & y' & w' & h' & [Heq|Hin] & Hc & Hy1 & Hy2);
        [ injection Heq as <- <- <- <-; lra
        | exists x', y', w', h'; repeat split; tauto ] ].
Qed.

Lemma enemy_hits_edge_spec (s : MarioDemo) (e : Enemy) :
  _enemy_hits_edge s e = true <->
  wall_ahead (platforms s) e (e_x e + e_vx e) \/
  ~ ground_ahead (platforms s) e (e_x e + e_vx e).
Proof.
  unfold _enemy_hits_edge. cbv zeta.
  destruct (hits_wall_spec e (e_x e + e_vx e) (platforms s))
    as [[-> Hw] | [-> Hn]].
  - split; [intros _; now left|reflexivity].
  - rewrite <- ground_below_spec.
    destruct (ground_below e (e_x e + e_vx e) (platforms s)); simpl.
    + split; [discriminate|]. intros [Hw | Hg]; [tauto|congruence].
    + split; [intros _; right; discriminate|reflexivity].
Qed.

(** C8: a living enemy first moves by its current velocity; its velocity
    changes sign exactly when, one more step ahead, its rectangle overlaps
    a platform other than by standing on its top, or no platform is under
    its centre, and is unchanged otherwise; the move itself used the old
    velocity.  An enemy that is not alive is left as it is and the state
    with it. *)
Theorem C8_enemy_step (pr : Rect) (s : MarioDemo) (e : Enemy)
    (Halive : e_alive e = true) :
  let e' := enemy_move s e in
  let next_x := e_x e + e_vx e + e_vx e in
  e_x e' = e_x e + e_vx e /\
  e_y e' = e_y e /\ e_w e' = e_w e /\ e_h e' = e_h e /\
  e_alive e' = true /\
  (wall_ahead (platforms s) e next_x \/ ~ ground_ahead (platforms s) e next_x
   -> e_vx e' = e_vx e * -1) /\
  (~ (wall_ahead (platforms s) e next_x \/
      ~ ground_ahead (platforms s) e next_x)
   -> e_vx e' = e_vx e) /\
  enemy_body pr s e = stomp_check pr s e' /\
  enemy_body pr s (set_e_alive e false) = Next (set_e_alive e false, s).
Proof.
  intros e' next_x.
  destruct (enemy_move_shape s e) as (Hy & Hw & Hh & Ha & Hx).
  fold e' in Hy, Hw, Hh, Ha, Hx.
  split; [exact Hx|]. split; [exact Hy|]. split; [exact Hw|].
  split; [exact Hh|]. split; [congruence|].
  assert (Hbody : enemy_body pr s e = stomp_check pr s e').
  { unfold enemy_body. rewrite Halive. reflexivity. }
  assert (Hdead : enemy_body pr s (set_e_alive e false) =
                  Next (set_e_alive e false, s)) by reflexivity.
  pose proof (enemy_hits_edge_spec s (set_e_x e (e_x e + e_vx e))) as Hedge.
  fields. fold next_x in Hedge.
  change (wall_ahead (platforms s) (set_e_x e (e_x e + e_vx e)) next_x)
    with (wall_ahead (platforms s) e next_x) in Hedge.
  change (ground_ahead (platforms s) (set_e_x e (e_x e + e_vx e)) next_x)
    with (ground_ahead (platforms s) e next_x) in Hedge.
  assert (Hvx : e_vx e' = if _enemy_hits_edge s (set_e_x e (e_x e + e_vx e))
                          then e_vx e * -1 else e_vx e).
  { unfold e', enemy_move. cbv zeta. split_ifs; reflexivity. }
  destruct (_enemy_hits_edge s (set_e_x e (e_x e + e_vx e))).
  - split; [intros _; exact Hvx|].
    split; [intros Hn; exfalso; apply Hn, Hedge; reflexivity|].
    split; [exact Hbody|exact Hdead].
  - split; [intros Hc; apply Hedge in Hc; discriminate|].
    split; [intros _; exact Hvx|].
    split; [exact Hbody|exact Hdead].
Qed.

(** The enemy of the generated level in its first tick: it moves from 520
    to 519 and keeps going left. *)
Lemma C8_witness :
  let e := mkEnemy 520.0 340 28 20 (-1.0) true in
  e_alive e = true /\
  e_x (enemy_move MarioDemo_init e) = 520.0 + -1.0.
Proof.
  intros e.
  assert (Ha : e_alive e = true) by reflexivity.
  split; [exact Ha|].
  apply (C8_enemy_step (0, 0, 0, 0) MarioDemo_init e Ha).
Defined.

(** ** The tick in the order of the specification *)



Lemma enemy_hits_edge_platforms (s t : MarioDemo) (e : Enemy) :
  platforms s = platforms t -> _enemy_hits_edge s e = _enemy_hits_edge t e.
Proof. intro Hp. unfold _enemy_hits_edge. now rewrite Hp. Qed.

Lemma enemy_move_platforms (s t : MarioDemo) (e : Enemy) :
  platforms s = platforms t -> enemy_move s e = enemy_move t e.
Proof.
  intro Hp. unfold enemy_move.
  now rewrite (enemy_hits_edge_platforms s t _ Hp).
Qed.





(** ** Where the player can be at once *)

Lemma picked_range (p : Player) (c : Coin) :
  p_w p = 24 -> p_h p = 32 -> c_r c = 8 ->
  picked (player_rect p) c = true ->
  p_x p - 8 <= c_x c <= p_x p + 32 /\ p_y p - 8 <= c_y c <= p_y p + 40.
Proof.
  intros Hw Hh Hr. unfold picked, player_rect. rewrite Hw, Hh, Hr.
  destruct (c_alive c); [|discriminate]. cbn [andb]. intros Ho.
  apply rect_circle_overlap_range in Ho; lra.
Qed.

(** A player that touches a coin of the coin row is clear of an enemy
    that walks on the ground. *)
Lemma coin_clear_of_enemy (p : Player) (c : Coin) (e : Enemy) :
  p_w p = 24 -> p_h p = 32 -> c_y c = 180 -> c_r c = 8 ->
  enemy_on_ground e ->
  picked (player_rect p) c = true ->
  _rects_overlap (player_rect p) (enemy_rect e) = false.
Proof.
  intros Hw Hh Hy Hr (Hey & _ & _) Hp.
  apply picked_range in Hp; try assumption.
  unfold player_rect, enemy_rect, _rects_overlap. rewrite Hh, Hey.
  rewrite Hy in Hp. py_cases.
Qed.

(** A player that overlaps the goal is clear of an enemy that walks on the
    ground. *)
Lemma goal_clear_of_enemy (p : Player) (e : Enemy) :
  p_h p = 32 -> enemy_on_ground e ->
  _rects_overlap (player_rect p) (goal_rect (mkGoal 1400 280 12 120)) = true ->
  _rects_overlap (player_rect p) (enemy_rect e) = false.
Proof.
  intros Hh (Hey & _ & _).
  unfold player_rect, enemy_rect, goal_rect, _rects_overlap. fields.
  rewrite Hh, Hey. intros Ho. py_cases.
Qed.

(** A player that overlaps an enemy on the ground touches no coin of the
    coin row. *)
Lemma enemy_clear_of_coins (p : Player) (e : Enemy) (cs : list Coin) :
  p_w p = 24 -> p_h p = 32 -> enemy_on_ground e ->
  Forall (fun c => c_y c = 180 /\ c_r c = 8) cs ->
  _rects_overlap (player_rect p) (enemy_rect e) = true ->
  count_picked (player_rect p) cs = 0%Z.
Proof.
  intros Hw Hh He Hrow Ho. apply count_picked_zero.
  eapply Forall_impl; [|exact Hrow]. intros c [Hy Hr]. cbv beta.
  destruct (picked (player_rect p) c) eqn:Ep; [|reflexivity].
  pose proof (coin_clear_of_enemy p c e Hw Hh Hy Hr He Ep). congruence.
Qed.

(** At most one coin of the coin row is picked in a tick. *)
Lemma count_picked_le_1 (p : Player) (cs : list Coin) :
  p_w p = 24 -> p_h p = 32 ->
  Forall (fun c => c_y c = 180 /\ c_r c = 8) cs ->
  ForallOrdPairs (fun c c' => c_x c + 100 <= c_x c') cs ->
  (count_picked (player_rect p) cs <= 1)%Z.
Proof.
  intros Hw Hh Hrow Hap. induction Hap as [|c cs Hc Hap IH]; simpl; [lia|].
  inversion Hrow as [|? ? [Hy Hr] Hrow']; subst.
  specialize (IH Hrow').
  destruct (picked (player_rect p) c) eqn:Ep; [|lia].
  rewrite count_picked_zero; [lia|].
  apply picked_range in Ep; try assumption.
  rewrite Forall_forall in Hc, Hrow'. apply Forall_forall. intros c' Hin.
  destruct (picked (player_rect p) c') eqn:Ep'; [|reflexivity].
  destruct (Hrow' c' Hin) as [Hy' Hr'].
  apply picked_range in Ep'; try assumption.
  specialize (Hc c' Hin). cbv beta in Hc. lra.
Qed.

(** ** The tick in the generated level: one enemy *)

Lemma one_enemy (s : MarioDemo) :
  level_inv s -> exists e, enemies s = [e] /\ enemy_on_ground e.
Proof.
  intros I. destruct I as [_ _ _ _ _ _ _ Hlen Hall _ _].
  destruct (enemies s) as [|e [|e' es]]; try discriminate.
  exists e. split; [reflexivity|]. now inversion Hall.
Qed.

Lemma enemy_ai_one (pr : Rect) (c : MarioDemo) (e : Enemy) :
  enemies c = [e] ->
  enemy_ai pr c =
  match enemy_body pr c e with
  | Return r => Return r
  | Next (e', c') => Next (set_enemies c' [e'])
  end.
Proof.
  intros He. unfold enemy_ai. rewrite He. cbn [enemy_loop].
  destruct (enemy_body pr c e) as [[e' c']|r]; reflexivity.
Qed.

Lemma stomp_check_apart (pr : Rect) (c : MarioDemo) (e : Enemy) :
  _rects_overlap pr (enemy_rect e) = false ->
  stomp_check pr c e = Next (e, c).
Proof. intros Ho. unfold stomp_check. now rewrite Ho. Qed.

Lemma stomp_check_hit (pr : Rect) (c : MarioDemo) (e : Enemy) :
  _rects_overlap pr (enemy_rect e) = true ->
  stomp_check pr c e =
  if (p_vy (player c) >? 0) && (p_y (player c) + p_h (player c) - 6 <=? e_y e)
  then Next (set_e_alive e false,
             set_player (set_score c (score c + 200)%Z)
                        (set_vy (player c) (-8.0)))
  else Return (reset_level c).
Proof. intros Ho. unfold stomp_check. now rewrite Ho. Qed.

Lemma reset_level_init (s : MarioDemo) :
  W s = 800 -> H s = 480 -> reset_level s = MarioDemo_init.
Proof. intros Hw Hh. unfold MarioDemo_init. now apply reset_level_same. Qed.

(** The tick when the enemy [e] of the level is alive: the enemy moves,
    then the stomp check decides. *)
Lemma tick_enemy_alive (s : MarioDemo) (e : Enemy) :
  enemies s = [e] -> e_alive e = true ->
  let pr := player_rect (player (motion s)) in
  let c := before_enemies s in
  match stomp_check pr c (enemy_move s e) with
  | Return r => tick_dies s = true /\ _update_physics s = r
  | Next (e', c') =>
      tick_dies s = false /\
      _update_physics s = goal_check pr (set_enemies c' [e'])
  end.
Proof.
  intros He Ha pr c.
  rewrite update_physics_unfold, tick_dies_unfold. fold pr c.
  destruct (before_enemies_frame s) as (L & _ & _ & Hec & _). fold c in L, Hec.
  rewrite (enemy_ai_one pr c e) by congruence.
  unfold enemy_body. rewrite Ha. cbn [negb].
  rewrite (enemy_move_platforms c s e) by apply L.
  destruct (stomp_check pr c (enemy_move s e)) as [[e' c']|r]; auto.
Qed.

(** The tick when the enemy of the level is dead. *)
Lemma tick_enemy_dead (s : MarioDemo) (e : Enemy) :
  enemies s = [e] -> e_alive e = false ->
  let pr := player_rect (player (motion s)) in
  tick_dies s = false /\
  _update_physics s = goal_check pr (set_enemies (before_enemies s) [e]).
Proof.
  intros He Ha pr.
  rewrite update_physics_unfold, tick_dies_unfold. fold pr.
  destruct (before_enemies_frame s) as (_ & _ & _ & Hec & _).
  rewrite (enemy_ai_one pr (before_enemies s) e) by congruence.
  unfold enemy_body. rewrite Ha. cbn [negb]. auto.
Qed.

Lemma goal_check_frame (pr : Rect) (c : MarioDemo) :
  enemies (goal_check pr c) = enemies c /\
  coins (goal_check pr c) = coins c /\
  score (goal_check pr c) = score c /\
  player (goal_check pr c) = player c /\
  win (goal_check pr c) =
    (if _rects_overlap pr (goal_rect (goal c)) then true else win c).
Proof.
  unfold goal_check. destruct (_rects_overlap pr _); fields; auto.
Qed.

(** ** Stomp or death *)

(** C3: in a state of the generated level (every reachable state is one,
    [reachable_inv]), in a tick in which the living enemy, once moved,
    overlaps the player: if the player's vertical velocity is positive and
    its bottom edge less 6 is at or above the enemy's top, the enemy ends
    the tick not alive and alone in the enemy list, the score is up by
    exactly 200 and the player's vertical velocity is -8.0; otherwise the
    tick returns the freshly reset level, which is the initial state
    (score 0, coins, enemies, goal and win flag as generated), and the goal
    check of that tick is not run. *)
Theorem C3_stomp_or_death (s : MarioDemo) (Hinv : level_inv s)
    (e : Enemy) (Hin : In e (enemies s)) (Halive : e_alive e = true)
    (Hov : _rects_overlap (player_rect (player (motion s)))
                          (enemy_rect (enemy_move s e)) = true) :
  let p := player (motion s) in
  let e' := enemy_move s e in
  (0 < p_vy p /\ p_y p + p_h p - 6 <= e_y e' ->
     tick_dies s = false /\
     enemies (_update_physics s) = [set_e_alive e' false] /\
     score (_update_physics s) = (score s + 200)%Z /\
     p_vy (player (_update_physics s)) = -8.0) /\
  (~ (0 < p_vy p /\ p_y p + p_h p - 6 <= e_y e') ->
     tick_dies s = true /\
     _update_physics s = reset_level s /\
     _update_physics s = MarioDemo_init).
Proof.
  cbv zeta.
  destruct (one_enemy s Hinv) as (e0 & He & Hg).
  rewrite He in Hin. destruct Hin as [<- | []].
  pose proof (tick_enemy_alive s e0 He Halive) as T. cbv zeta in T.
  destruct (before_enemies_frame s) as (L & Hpc & _ & _ & _ & _ & Hsc).
  destruct (motion_frame s) as (_ & _ & _ & _ & _ & [Hpw Hph] & _).
  destruct (inv_size s Hinv) as [Hw Hh]. rewrite Hw in Hpw. rewrite Hh in Hph.
  destruct (enemy_move_shape s e0) as (Hy1 & Hw1 & Hh1 & _).
  pose proof (inv_coins_row s Hinv) as Hrow.
  assert (Hinit : reset_level s = MarioDemo_init)
    by (apply reset_level_init; apply Hinv).
  assert (Hr : reset_level (before_enemies s) = reset_level s).
  { destruct L as (_ & LW & LH & _). exact (reset_level_same _ _ LW LH). }
  rewrite (stomp_check_hit _ _ _ Hov), Hpc, Hr in T.
  set (p := player (motion s)) in *.
  set (e' := enemy_move s e0) in *.
  set (c := before_enemies s) in *.
  clearbody p e' c. clear L Hpc Hr.
  assert (Hg' : enemy_on_ground e').
  { destruct Hg as (Gy & Gw & Gh).
    unfold enemy_on_ground. rewrite Hy1, Hw1, Hh1.
    exact (conj Gy (conj Gw Gh)). }
  rewrite (enemy_clear_of_coins p e' (coins s) Hpw Hph Hg' Hrow Hov) in Hsc.
  set (pr := player_rect p) in *.
  destruct (gtb_spec (p_vy p) 0) as [Hvy|Hvy];
    destruct (leb_spec (p_y p + p_h p - 6) (e_y e')) as [Hy|Hy];
    cbn [andb] in T; destruct T as [Td Tu].
  1: { split; [|tauto]. intros _. split; [exact Td|].
       destruct (goal_check_frame pr
         (set_enemies (set_player (set_score c (score c + 200)%Z)
                                  (set_vy p (-8.0))) [set_e_alive e' false]))
         as (Ge & _ & Gs & Gp & _).
       rewrite Tu, Ge, Gs, Gp. fields. rewrite Hsc.
       split; [reflexivity|]. split; [f_equal; lia|reflexivity]. }
  all: split; [tauto|]; intros _; split; [exact Td|];
    rewrite Tu; split; [reflexivity|exact Hinit].
Qed.

(** The player falls on the enemy of the generated level. *)
Lemma C3_witness :
  let s := set_player MarioDemo_init (mkPlayer 520 306 24 32 0 3.2 false) in
  level_inv s /\ score (_update_physics s) = 200%Z.
Proof.
  intros s.
  assert (Hinv : level_inv s).
  { pose proof level_inv_init as I. destruct I.
    constructor; fields; auto. }
  split; [exact Hinv|].
  assert (Hin : In (mkEnemy 520.0 340 28 20 (-1.0) true) (enemies s))
    by (left; reflexivity).
  assert (Hov : _rects_overlap (player_rect (player (motion s)))
            (enemy_rect (enemy_move s (mkEnemy 520.0 340 28 20 (-1.0) true)))
          = true) by (vm_compute; reflexivity).
  apply (C3_stomp_or_death s Hinv _ Hin eq_refl Hov).
  split; [vm_compute; reflexivity | vm_compute; discriminate].
Defined.

(** ** Coins within one level lifetime *)

Lemma on_key_frame (s s' : MarioDemo) (k : string) :
  _on_key s k = Some s' -> String.eqb (Py.lower k) "r" = false ->
  coins s' = coins s /\ win s' = win s.
Proof.
  unfold _on_key. cbv zeta. intros Hk Hr. rewrite Hr in Hk.
  destruct (String.eqb (Py.lower k) "escape"); [discriminate|].
  injection Hk as <-. split_ifs; split; reflexivity.
Qed.

Lemma on_key_up_frame (s : MarioDemo) (k : string) :
  coins (_on_key_up s k) = coins s /\ win (_on_key_up s k) = win s.
Proof. unfold _on_key_up. cbv zeta. split_ifs; split; reflexivity. Qed.

(** A tick that does not end in a reset: what it does to the coins and to
    the win flag. *)
Lemma tick_alive_frame (s : MarioDemo) :
  tick_dies s = false ->
  let pr := player_rect (player (motion s)) in
  coins (_update_physics s) = map (pick pr) (coins s) /\
  win (_update_physics s) =
    (if _rects_overlap pr (goal_rect (goal s)) then true else win s).
Proof.
  intros Hd pr.
  destruct (tick_cases s) as [[Ht _] | [_ (es' & s2 & El & Hu)]];
    [congruence|].
  fold pr in El, Hu.
  destruct (before_enemies_frame s) as (L0 & _ & _ & _ & Hw0 & Hc0 & _).
  fold pr in Hc0.
  apply enemy_loop_next in El.
  destruct El as ((L1 & _ & Hc1 & _ & Hw1 & _) & _).
  destruct (goal_check_frame pr (set_enemies s2 es')) as (_ & Gc & _ & _ & Gw).
  rewrite Hu, Gc, Gw. clear Hu Gc Gw.
  change (coins (set_enemies s2 es')) with (coins s2).
  change (win (set_enemies s2 es')) with (win s2).
  change (goal (set_enemies s2 es')) with (goal s2).
  destruct L0 as (_ & _ & _ & _ & _ & Lg0).
  destruct L1 as (_ & _ & _ & _ & _ & Lg1).
  rewrite Hc1, Hc0, Hw1, Hw0, Lg1, Lg0. split; reflexivity.
Qed.

Lemma coin_alive_at_pick (s s' : MarioDemo) (pr : Rect) (i : nat) :
  coins s' = map (pick pr) (coins s) ->
  coin_alive_at s' i =
  match nth_error (coins s) i with
  | Some c => c_alive c && negb (picked pr c)
  | None => false
  end.
Proof.
  intros Hc. unfold coin_alive_at. rewrite Hc, nth_error_map.
  destruct (nth_error (coins s) i) as [c|]; [|reflexivity].
  apply pick_alive.
Qed.

Lemma handle_keeps_dead_coin (ev : Event) (s s' : MarioDemo) (i : nat) :
  resets ev s = false -> handle ev s = Some s' ->
  coin_alive_at s i = false -> coin_alive_at s' i = false.
Proof.
  destruct ev as [k|k|]; simpl; intros Hr Hh Hd.
  - destruct (on_key_frame s s' k Hh Hr) as [Hc _].
    unfold coin_alive_at in *. now rewrite Hc.
  - injection Hh as <-. destruct (on_key_up_frame s k) as [Hc _].
    unfold coin_alive_at in *. now rewrite Hc.
  - injection Hh as <-. destruct (tick_alive_frame s Hr) as [Hc _].
    rewrite (coin_alive_at_pick s _ _ i Hc).
    unfold coin_alive_at in Hd.
    destruct (nth_error (coins s) i) as [c|]; [|reflexivity].
    now rewrite Hd.
Qed.

Lemma lifetime_keeps_dead_coin (evs : list Event) (i : nat) :
  forall s s', run_lifetime evs s = Some s' ->
  coin_alive_at s i = false -> coin_alive_at s' i = false.
Proof.
  induction evs as [|ev evs IH]; simpl; intros s s' Hr Hd.
  - now injection Hr as <-.
  - destruct (resets ev s) eqn:Er; [discriminate|].
    destruct (handle ev s) as [s1|] eqn:Eh; [|discriminate].
    eapply IH; [exact Hr|]. eapply handle_keeps_dead_coin; eauto.
Qed.

(** The score of a tick in which a coin of the level is picked. *)
Lemma tick_score_coin (s : MarioDemo) (c : Coin) :
  level_inv s -> In c (coins s) ->
  picked (player_rect (player (motion s))) c = true ->
  tick_dies s = false /\ score (_update_physics s) = (score s + 100)%Z.
Proof.
  intros Hinv Hin Hp.
  destruct (one_enemy s Hinv) as (e & He & Hg).
  destruct (motion_frame s) as (_ & _ & _ & _ & _ & [Hpw Hph] & _).
  destruct (inv_size s Hinv) as [Hw Hh]. rewrite Hw in Hpw. rewrite Hh in Hph.
  pose proof (inv_coins_row s Hinv) as Hrow.
  pose proof (inv_coins_apart s Hinv) as Hap.
  destruct (before_enemies_frame s) as (_ & _ & _ & _ & _ & _ & Hsc).
  pose proof (tick_enemy_alive s e He) as Ta. cbv zeta in Ta.
  pose proof (tick_enemy_dead s e He) as Td. cbv zeta in Td.
  destruct (enemy_move_shape s e) as (Hy1 & Hw1 & Hh1 & _).
  set (p := player (motion s)) in *.
  set (cb := before_enemies s) in *.
  set (e' := enemy_move s e) in *.
  clearbody p cb e'. clear Hinv He Hw Hh.
  pose proof (count_picked_le_1 _ _ Hpw Hph Hrow Hap) as Hle.
  pose proof (count_picked_in _ _ _ Hin Hp) as Hge.
  assert (Hsc' : score cb = (score s + 100)%Z) by (rewrite Hsc; lia).
  clear Hsc Hle Hge Hap.
  rewrite Forall_forall in Hrow. destruct (Hrow c Hin) as [Hcy Hcr].
  clear Hrow.
  destruct (e_alive e) eqn:Ea.
  - specialize (Ta eq_refl).
    assert (Hg' : enemy_on_ground e').
    { destruct Hg as (Gy & Gw & Gh).
      unfold enemy_on_ground. rewrite Hy1, Hw1, Hh1.
      exact (conj Gy (conj Gw Gh)). }
    pose proof (coin_clear_of_enemy _ c _ Hpw Hph Hcy Hcr Hg' Hp) as Hclear.
    rewrite (stomp_check_apart _ _ _ Hclear) in Ta. destruct Ta as [Te Tu].
    split; [exact Te|].
    destruct (goal_check_frame (player_rect p) (set_enemies cb [e']))
      as (_ & _ & Gs & _).
    rewrite Tu, Gs. exact Hsc'.
  - destruct (Td eq_refl) as [Te Tu].
    split; [exact Te|].
    destruct (goal_check_frame (player_rect p) (set_enemies cb [e]))
      as (_ & _ & Gs & _).
    rewrite Tu, Gs. exact Hsc'.
Qed.

(** C6: in a state of the generated level (every reachable state is one,
    [reachable_inv]) and for every coin index: along any run of key events
    and ticks in which nothing resets the level, a coin that is not alive
    stays not alive, so its flag goes from true to false at most once and
    never back; and a tick in which the flag goes from true to false does
    not reset the level and raises the score by exactly 100. *)
Theorem C6_coin_taken_once (s : MarioDemo) (Hinv : level_inv s) (i : nat) :
  (forall evs s', run_lifetime evs s = Some s' ->
                  coin_alive_at s i = false -> coin_alive_at s' i = false) /\
  (coin_alive_at s i = true -> coin_alive_at (_update_physics s) i = false ->
   tick_dies s = false /\ score (_update_physics s) = (score s + 100)%Z).
Proof.
  split; [intros evs s'; apply lifetime_keeps_dead_coin|].
  intros Ha Hd. unfold coin_alive_at in Ha.
  destruct (nth_error (coins s) i) as [c|] eqn:En; [|discriminate].
  assert (Hin : In c (coins s)) by (eapply nth_error_In; eauto).
  assert (Hi : (i < 9)%nat).
  { rewrite <- (inv_coins_count s Hinv). apply nth_error_Some. congruence. }
  destruct (tick_dies s) eqn:Ed.
  - exfalso. destruct (tick_cases s) as [[_ Hu] | [Hf _]]; [|congruence].
    rewrite Hu, reset_level_fields in Hd. unfold coin_alive_at in Hd.
    cbn [coins] in Hd.
    do 9 (destruct i as [|i]; [discriminate|]). lia.
  - destruct (tick_alive_frame s Ed) as [Hc _].
    rewrite (coin_alive_at_pick s _ _ i Hc), En, Ha in Hd.
    cbn [andb] in Hd. apply negb_false_iff in Hd.
    destruct (tick_score_coin s c Hinv Hin Hd) as [_ Hs].
    split; [reflexivity|exact Hs].
Qed.

(** The player next to the first coin of the level. *)
Lemma C6_witness :
  let s := set_player MarioDemo_init (mkPlayer 250 150 24 32 0 0 false) in
  level_inv s /\ score (_update_physics s) = (score s + 100)%Z.
Proof.
  intros s.
  assert (Hinv : level_inv s).
  { pose proof level_inv_init as I. destruct I.
    constructor; fields; auto. }
  split; [exact Hinv|].
  apply (C6_coin_taken_once s Hinv 0%nat); vm_compute; reflexivity.
Defined.

(** ** The win flag *)

Lemma tick_goal_no_death (s : MarioDemo) :
  level_inv s ->
  _rects_overlap (player_rect (player (motion s))) (goal_rect (goal s)) = true ->
  tick_dies s = false.
Proof.
  intros Hinv Hgo. rewrite (inv_goal s Hinv) in Hgo.
  destruct (one_enemy s Hinv) as (e & He & Hg).
  destruct (motion_frame s) as (_ & _ & _ & _ & _ & [_ Hph] & _).
  destruct (inv_size s Hinv) as [_ Hh]. rewrite Hh in Hph.
  pose proof (tick_enemy_alive s e He) as Ta. cbv zeta in Ta.
  pose proof (tick_enemy_dead s e He) as Td. cbv zeta in Td.
  destruct (enemy_move_shape s e) as (Hy1 & Hw1 & Hh1 & _).
  set (p := player (motion s)) in *.
  set (cb := before_enemies s) in *.
  set (e' := enemy_move s e) in *.
  clearbody p cb e'. clear Hinv He Hh.
  destruct (e_alive e) eqn:Ea.
  - specialize (Ta eq_refl).
    assert (Hg' : enemy_on_ground e').
    { destruct Hg as (Gy & Gw & Gh).
      unfold enemy_on_ground. rewrite Hy1, Hw1, Hh1.
      exact (conj Gy (conj Gw Gh)). }
    pose proof (goal_clear_of_enemy p e' Hph Hg' Hgo) as Hclear.
    rewrite (stomp_check_apart _ _ _ Hclear) in Ta. apply Ta.
  - apply (Td eq_refl).
Qed.

Lemma handle_keeps_win (ev : Event) (s s' : MarioDemo) :
  resets ev s = false -> handle ev s = Some s' ->
  win s = true -> win s' = true.
Proof.
  destruct ev as [k|k|]; simpl; intros Hr Hh Hw.
  - destruct (on_key_frame s s' k Hh Hr) as [_ Hw']. congruence.
  - injection Hh as <-. destruct (on_key_up_frame s k) as [_ Hw']. congruence.
  - injection Hh as <-. destruct (tick_alive_frame s Hr) as [_ Hw'].
    rewrite Hw', Hw. now destruct (_rects_overlap _ _).
Qed.

Lemma lifetime_keeps_win (evs : list Event) :
  forall s s', run_lifetime evs s = Some s' -> win s = true -> win s' = true.
Proof.
  induction evs as [|ev evs IH]; simpl; intros s s' Hr Hw.
  - now injection Hr as <-.
  - destruct (resets ev s) eqn:Er; [discriminate|].
    destruct (handle ev s) as [s1|] eqn:Eh; [|discriminate].
    eapply IH; [exact Hr|]. eapply handle_keeps_win; eauto.
Qed.

(** No block of the tick reads the win flag. *)
Lemma jump_win (s : MarioDemo) (b : bool) :
  jump (set_win s b) = set_win (jump s) b.
Proof.
  unfold jump. fields.
  destruct (k_jump (keys s) && p_on_ground (player s)); reflexivity.
Qed.

Lemma scrolling_win (s : MarioDemo) (b : bool) :
  scrolling (set_win s b) = set_win (scrolling s) b.
Proof.
  unfold scrolling. cbv zeta. fields.
  destruct (_ >? _); destruct (_ <? _); reflexivity.
Qed.

Lemma motion_win (s : MarioDemo) (b : bool) :
  motion (set_win s b) = set_win (motion s) b.
Proof.
  unfold motion.
  change (movement_input (set_win s b)) with (set_win (movement_input s) b).
  generalize (movement_input s). intro s1.
  change (gravity (set_win s1 b)) with (set_win (gravity s1) b).
  generalize (gravity s1). intro s2.
  change (collide_x (set_win s2 b)) with (set_win (collide_x s2) b).
  generalize (collide_x s2). intro s3.
  change (collide_y (set_win s3 b)) with (set_win (collide_y s3) b).
  generalize (collide_y s3). intro s4.
  now rewrite jump_win, scrolling_win.
Qed.

Lemma collect_coins_win (pr : Rect) (s : MarioDemo) (b : bool) :
  collect_coins pr (set_win s b) = set_win (collect_coins pr s) b.
Proof. rewrite !collect_coins_eq. reflexivity. Qed.

Lemma stomp_check_win (pr : Rect) (s : MarioDemo) (e : Enemy) (b : bool) :
  stomp_check pr (set_win s b) e = flow_win b (stomp_check pr s e).
Proof.
  unfold stomp_check. cbv zeta. fields.
  destruct (_rects_overlap pr (enemy_rect e)); [|reflexivity].
  destruct ((_ >? _) && (_ <=? _)); reflexivity.
Qed.

Lemma enemy_body_win (pr : Rect) (s : MarioDemo) (e : Enemy) (b : bool) :
  enemy_body pr (set_win s b) e = flow_win b (enemy_body pr s e).
Proof.
  unfold enemy_body. destruct (negb (e_alive e)); [reflexivity|].
  rewrite (enemy_move_platforms (set_win s b) s e eq_refl).
  apply stomp_check_win.
Qed.

Lemma enemy_loop_win (pr : Rect) (b : bool) (es : list Enemy) :
  forall s, enemy_loop pr (set_win s b) es = flow_win b (enemy_loop pr s es).
Proof.
  induction es as [|e es IH]; intros s; cbn [enemy_loop]; [reflexivity|].
  rewrite enemy_body_win.
  destruct (enemy_body pr s e) as [[e1 s1]|r]; cbn [flow_win]; [|reflexivity].
  rewrite IH.
  destruct (enemy_loop pr s1 es) as [[es2 s2]|r]; reflexivity.
Qed.

Lemma before_enemies_eq (s : MarioDemo) :
  before_enemies s =
  collect_coins (player_rect (player (motion s))) (motion s).
Proof. reflexivity. Qed.

Lemma collect_coins_win_rect (m : MarioDemo) (b : bool) :
  collect_coins (player_rect (player (set_win m b))) (set_win m b) =
  set_win (collect_coins (player_rect (player m)) m) b.
Proof.
  change (player (set_win m b)) with (player m).
  apply collect_coins_win.
Qed.

Lemma before_enemies_win (s : MarioDemo) (b : bool) :
  before_enemies (set_win s b) = set_win (before_enemies s) b.
Proof.
  rewrite (before_enemies_eq (set_win s b)), (before_enemies_eq s).
  rewrite motion_win. apply collect_coins_win_rect.
Qed.

Lemma interactions_win (pr : Rect) (c : MarioDemo) (b : bool) :
  set_win
    match enemy_ai pr (set_win c b) with
    | Return r => r
    | Next s' => goal_check pr s'
    end false =
  set_win
    match enemy_ai pr c with
    | Return r => r
    | Next s' => goal_check pr s'
    end false.
Proof.
  unfold enemy_ai.
  change (enemies (set_win c b)) with (enemies c).
  rewrite enemy_loop_win.
  destruct (enemy_loop pr c (enemies c)) as [[es s2]|r]; cbn [flow_win];
    [|reflexivity].
  unfold goal_check.
  change (goal (set_enemies (set_win s2 b) es)) with (goal (set_enemies s2 es)).
  destruct (_rects_overlap pr _); reflexivity.
Qed.

Lemma interactions_win_rect (c m : MarioDemo) (b : bool) :
  set_win
    match enemy_ai (player_rect (player (set_win m b))) (set_win c b) with
    | Return r => r
    | Next s' => goal_check (player_rect (player (set_win m b))) s'
    end false =
  set_win
    match enemy_ai (player_rect (player m)) c with
    | Return r => r
    | Next s' => goal_check (player_rect (player m)) s'
    end false.
Proof.
  change (player (set_win m b)) with (player m).
  apply interactions_win.
Qed.

Lemma update_physics_win (s : MarioDemo) (b : bool) :
  set_win (_update_physics (set_win s b)) false =
  set_win (_update_physics s) false.
Proof.
  rewrite (update_physics_unfold (set_win s b)), (update_physics_unfold s).
  rewrite motion_win, before_enemies_win.
  apply interactions_win_rect.
Qed.

(** C9: in a state of the generated level (every reachable state is one,
    [reachable_inv]): a tick in which the player's rectangle overlaps the
    goal rectangle ends with the win flag set, and does not reset; once
    set, the flag stays set along any run of key events and ticks in which
    nothing resets the level; and the flag is not read by the tick: with
    the flag set or cleared beforehand, the tick gives the same state up to
    the flag. *)
Theorem C9_win_sticky (s : MarioDemo) (Hinv : level_inv s) :
  (_rects_overlap (player_rect (player (motion s))) (goal_rect (goal s)) = true ->
   win (_update_physics s) = true /\ tick_dies s = false) /\
  (forall evs s', run_lifetime evs s = Some s' ->
                  win s = true -> win s' = true) /\
  (forall b, set_win (_update_physics (set_win s b)) false =
             set_win (_update_physics s) false).
Proof.
  split; [|split].
  - intros Hgo. pose proof (tick_goal_no_death s Hinv Hgo) as Hd.
    destruct (tick_alive_frame s Hd) as [_ Hw].
    split; [|exact Hd]. rewrite Hw, Hgo. reflexivity.
  - intros evs s'. apply lifetime_keeps_win.
  - intro b. apply update_physics_win.
Qed.

(** The player at the goal pole. *)
Lemma C9_witness :
  let s := set_player MarioDemo_init (mkPlayer 1395 200 24 32 0 0 false) in
  level_inv s /\ win (_update_physics s) = true.
Proof.
  intros s.
  assert (Hinv : level_inv s).
  { pose proof level_inv_init as I. destruct I.
    constructor; fields; auto. }
  split; [exact Hinv|].
  apply (C9_win_sticky s Hinv). vm_compute. reflexivity.
Defined.

(** ** The model respects equality of rationals *)

Lemma leb_proper (a a' b b' : Q) :
  a == a' -> b == b' -> (a <=? b) = (a' <=? b').
Proof.
  intros Ha Hb. destruct (leb_spec a b), (leb_spec a' b'); try reflexivity;
    exfalso; lra.
Qed.

Lemma ltb_proper (a a' b b' : Q) :
  a == a' -> b == b' -> (a <? b) = (a' <? b').
Proof.
  intros Ha Hb. destruct (ltb_spec a b), (ltb_spec a' b'); try reflexivity;
    exfalso; lra.
Qed.

Lemma geb_proper (a a' b b' : Q) :
  a == a' -> b == b' -> (a >=? b) = (a' >=? b').
Proof. intros Ha Hb. unfold Py.geb. now apply leb_proper. Qed.

Lemma gtb_proper (a a' b b' : Q) :
  a == a' -> b == b' -> (a >? b) = (a' >? b').
Proof. intros Ha Hb. unfold Py.gtb. now apply ltb_proper. Qed.

Lemma min_proper (a a' b b' : Q) :
  a == a' -> b == b' -> Py.min a b == Py.min a' b'.
Proof.
  intros Ha Hb. unfold Py.min. rewrite (ltb_proper b b' a a' Hb Ha).
  destruct (b' <? a'); assumption.
Qed.

Lemma max_proper (a a' b b' : Q) :
  a == a' -> b == b' -> Py.max a b == Py.max a' b'.
Proof.
  intros Ha Hb. unfold Py.max. rewrite (gtb_proper b b' a a' Hb Ha).
  destruct (b' >? a'); assumption.
Qed.

Lemma clamp_proper (v v' lo lo' hi hi' : Q) :
  v == v' -> lo == lo' -> hi == hi' -> clamp v lo hi == clamp v' lo' hi'.
Proof.
  intros Hv Hl Hh. unfold clamp. apply max_proper; [assumption|].
  now apply min_proper.
Qed.

Lemma abs_proper (a a' : Q) : a == a' -> Py.abs a == Py.abs a'.
Proof. intro Ha. unfold Py.abs. now rewrite Ha. Qed.

Lemma rects_overlap_proper (a a' b b' : Rect) :
  rect_eq a a' -> rect_eq b b' -> _rects_overlap a b = _rects_overlap a' b'.
Proof.
  destruct a as [[[a0 a1] a2] a3], a' as [[[a0' a1'] a2'] a3'].
  destruct b as [[[b0 b1] b2] b3], b' as [[[b0' b1'] b2'] b3'].
  intros (A0 & A1 & A2 & A3) (B0 & B1 & B2 & B3). unfold _rects_overlap.
  rewrite (leb_proper a2 a2' b0 b0'), (geb_proper a0 a0' b2 b2'),
    (leb_proper a3 a3' b1 b1'), (geb_proper a1 a1' b3 b3') by assumption.
  reflexivity.
Qed.

Lemma rect_circle_overlap_proper (a a' : Rect) (c : Q * Q * Q) :
  rect_eq a a' -> _rect_circle_overlap a c = _rect_circle_overlap a' c.
Proof.
  destruct a as [[[x1 y1] x2] y2], a' as [[[x1' y1'] x2'] y2'].
  destruct c as [[cx cy] r].
  intros (A0 & A1 & A2 & A3). unfold _rect_circle_overlap.
  apply leb_proper; [|reflexivity].
  rewrite (clamp_proper cx cx x1 x1' x2 x2'),
    (clamp_proper cy cy y1 y1' y2 y2') by (assumption || reflexivity).
  reflexivity.
Qed.

Lemma rect_eq_refl (a : Rect) : rect_eq a a.
Proof. destruct a as [[[a0 a1] a2] a3]. simpl. repeat split; reflexivity. Qed.

Lemma player_rect_proper (p q : Player) :
  player_eq p q -> rect_eq (player_rect p) (player_rect q).
Proof.
  intros (Hx & Hy & Hw & Hh & _). unfold player_rect, rect_eq.
  repeat split; lra.
Qed.

Lemma set_x_proper (p q : Player) (v v' : Q) :
  player_eq p q -> v == v' -> player_eq (set_x p v) (set_x q v').
Proof. unfold player_eq. fields. tauto. Qed.

Lemma set_y_proper (p q : Player) (v v' : Q) :
  player_eq p q -> v == v' -> player_eq (set_y p v) (set_y q v').
Proof. unfold player_eq. fields. tauto. Qed.

Lemma set_vx_proper (p q : Player) (v v' : Q) :
  player_eq p q -> v == v' -> player_eq (set_vx p v) (set_vx q v').
Proof. unfold player_eq. fields. tauto. Qed.

Lemma set_vy_proper (p q : Player) (v v' : Q) :
  player_eq p q -> v == v' -> player_eq (set_vy p v) (set_vy q v').
Proof. unfold player_eq. fields. tauto. Qed.

Lemma set_on_ground_proper (p q : Player) (b : bool) :
  player_eq p q -> player_eq (set_on_ground p b) (set_on_ground q b).
Proof. unfold player_eq. fields. tauto. Qed.

Lemma resolve_platform_proper (pr pr' : Rect) (dx dx' dy dy' : Q)
    (p p' : Player) (pl : Platform) :
  rect_eq pr pr' -> dx == dx' -> dy == dy' -> player_eq p p' ->
  player_eq (resolve_platform pr dx dy p pl)
            (resolve_platform pr' dx' dy' p' pl).
Proof.
  intros Hr Hdx Hdy Hp. unfold resolve_platform.
  rewrite (rects_overlap_proper pr pr' _ _ Hr (rect_eq_refl _)).
  destruct (_rects_overlap pr' (platform_rect pl)); cbn [negb]; [|exact Hp].
  destruct pr as [[[a0 a1] a2] a3], pr' as [[[a0' a1'] a2'] a3'].
  destruct (platform_rect pl) as [[[r0 r1] r2] r3].
  destruct Hr as (A0 & A1 & A2 & A3).
  assert (Eox : Py.min a2 r2 - Py.max a0 r0 == Py.min a2' r2 - Py.max a0' r0).
  { rewrite (min_proper a2 a2' r2 r2), (max_proper a0 a0' r0 r0)
      by (assumption || reflexivity). reflexivity. }
  assert (Eoy : Py.min a3 r3 - Py.max a1 r1 == Py.min a3' r3 - Py.max a1' r1).
  { rewrite (min_proper a3 a3' r3 r3), (max_proper a1 a1' r1 r1)
      by (assumption || reflexivity). reflexivity. }
  rewrite (ltb_proper _ _ _ _ (abs_proper _ _ Eox) (abs_proper _ _ Eoy)).
  rewrite (gtb_proper dx dx' 0 0 Hdx (Qeq_refl 0)).
  rewrite (gtb_proper dy dy' 0 0 Hdy (Qeq_refl 0)).
  pose proof Hp as (Hx & Hy & _).
  destruct (_ <? _); [destruct (dx' >? 0)|destruct (dy' >? 0)].
  - apply set_vx_proper; [apply set_x_proper; [exact Hp|lra]|reflexivity].
  - apply set_vx_proper; [apply set_x_proper; [exact Hp|lra]|reflexivity].
  - apply set_on_ground_proper, set_vy_proper; [|reflexivity].
    apply set_y_proper; [exact Hp|lra].
  - apply set_vy_proper; [apply set_y_proper; [exact Hp|lra]|reflexivity].
Qed.

Lemma fold_resolve_proper (pr pr' : Rect) (dx dx' dy dy' : Q)
    (pls : list Platform) :
  rect_eq pr pr' -> dx == dx' -> dy == dy' ->
  forall p p', player_eq p p' ->
  player_eq (fold_left (resolve_platform pr dx dy) pls p)
            (fold_left (resolve_platform pr' dx' dy') pls p').
Proof.
  intros Hr Hdx Hdy. induction pls as [|pl pls IH]; intros p p' Hp; simpl.
  - exact Hp.
  - apply IH. now apply resolve_platform_proper.
Qed.

Lemma move_and_collide_proper (s t : MarioDemo) (p p' : Player)
    (dx dx' dy dy' : Q) :
  platforms s = platforms t -> player_eq p p' -> dx == dx' -> dy == dy' ->
  player_eq (_move_and_collide s p dx dy) (_move_and_collide t p' dx' dy').
Proof.
  intros Hpl Hp Hdx Hdy. unfold _move_and_collide. cbv zeta. rewrite Hpl.
  pose proof Hp as (Hx & Hy & _).
  assert (Hp1 : player_eq
            (set_on_ground (set_y (set_x p (p_x p + dx)) (p_y p + dy)) false)
            (set_on_ground (set_y (set_x p' (p_x p' + dx')) (p_y p' + dy'))
                           false)).
  { apply set_on_ground_proper, set_y_proper;
      [apply set_x_proper; [exact Hp|]|]; fields; lra. }
  apply fold_resolve_proper; try assumption.
  now apply player_rect_proper.
Qed.

Lemma set_player_proper (s t : MarioDemo) (p q : Player) :
  state_eq s t -> player_eq p q -> state_eq (set_player s p) (set_player t q).
Proof. unfold state_eq. fields. tauto. Qed.

Lemma set_scroll_x_proper (s t : MarioDemo) (v v' : Q) :
  state_eq s t -> v == v' -> state_eq (set_scroll_x s v) (set_scroll_x t v').
Proof. unfold state_eq. fields. tauto. Qed.

Lemma set_keys_proper (s t : MarioDemo) (k : Keys) :
  state_eq s t -> state_eq (set_keys s k) (set_keys t k).
Proof. unfold state_eq. fields. tauto. Qed.

Lemma set_win_proper (s t : MarioDemo) (b : bool) :
  state_eq s t -> state_eq (set_win s b) (set_win t b).
Proof. unfold state_eq. fields. tauto. Qed.

Lemma set_enemies_proper (s t : MarioDemo) (es fs : list Enemy) :
  state_eq s t -> Forall2 enemy_eq es fs ->
  state_eq (set_enemies s es) (set_enemies t fs).
Proof. unfold state_eq. fields. tauto. Qed.

Lemma movement_input_proper (s t : MarioDemo) :
  state_eq s t -> state_eq (movement_input s) (movement_input t).
Proof.
  intros Hs. pose proof Hs as (_ & _ & _ & Hk & _ & Hp & _).
  unfold movement_input. cbv zeta. rewrite Hk.
  apply set_player_proper; [exact Hs|].
  pose proof Hp as (_ & _ & _ & _ & Hvx & _).
  apply set_vx_proper;
    [apply set_vx_proper; [apply set_vx_proper; [exact Hp|]|]|]; fields.
  - lra.
  - lra.
  - apply clamp_proper; [lra|reflexivity|reflexivity].
Qed.

Lemma gravity_proper (s t : MarioDemo) :
  state_eq s t -> state_eq (gravity s) (gravity t).
Proof.
  intros Hs. pose proof Hs as (_ & _ & _ & _ & _ & Hp & _).
  unfold gravity. cbv zeta.
  apply set_player_proper; [exact Hs|].
  pose proof Hp as (_ & _ & _ & _ & _ & Hvy & _).
  apply set_vy_proper; [apply set_vy_proper; [exact Hp|]|]; fields.
  - lra.
  - apply clamp_proper; [lra|reflexivity|reflexivity].
Qed.

Lemma collide_x_proper (s t : MarioDemo) :
  state_eq s t -> state_eq (collide_x s) (collide_x t).
Proof.
  intros Hs. pose proof Hs as (_ & _ & _ & _ & _ & Hp & Hpl & _).
  unfold collide_x. cbv zeta. apply set_player_proper; [exact Hs|].
  apply move_and_collide_proper; try assumption; [apply Hp|reflexivity].
Qed.

Lemma collide_y_proper (s t : MarioDemo) :
  state_eq s t -> state_eq (collide_y s) (collide_y t).
Proof.
  intros Hs. pose proof Hs as (_ & _ & _ & _ & _ & Hp & Hpl & _).
  unfold collide_y. cbv zeta. apply set_player_proper; [exact Hs|].
  apply move_and_collide_proper; try assumption; [reflexivity|apply Hp].
Qed.

Lemma jump_proper (s t : MarioDemo) :
  state_eq s t -> state_eq (jump s) (jump t).
Proof.
  intros Hs. pose proof Hs as (_ & _ & _ & Hk & _ & Hp & _).
  pose proof Hp as (_ & _ & _ & _ & _ & _ & Hg).
  unfold jump. cbv zeta. rewrite Hk, Hg.
  destruct (k_jump (keys t) && p_on_ground (player t)); [|exact Hs].
  apply set_player_proper; [exact Hs|].
  apply set_on_ground_proper, set_vy_proper; [exact Hp|reflexivity].
Qed.

Lemma scrolling_proper (s t : MarioDemo) :
  state_eq s t -> state_eq (scrolling s) (scrolling t).
Proof.
  intros Hs. pose proof Hs as (_ & HW & _ & _ & Hsx & Hp & _).
  pose proof Hp as (Hx & _).
  unfold scrolling. cbv zeta. rewrite HW.
  rewrite (gtb_proper (p_x (player s) - scroll_x s)
             (p_x (player t) - scroll_x t) (W t * 0.6) (W t * 0.6))
    by lra.
  destruct (_ >? _); fields; rewrite ?HW;
    rewrite (ltb_proper (p_x (player s) - scroll_x s)
               (p_x (player t) - scroll_x t) (W t * 0.3) (W t * 0.3))
      by lra;
    destruct (_ <? _); fields; rewrite ?HW;
    (apply set_scroll_x_proper;
     [ try (apply set_scroll_x_proper; [|lra]);
       try (apply set_scroll_x_proper; [|lra]); exact Hs
     | apply clamp_proper; [lra|reflexivity|reflexivity] ]).
Qed.

Lemma motion_proper (s t : MarioDemo) :
  state_eq s t -> state_eq (motion s) (motion t).
Proof.
  intros Hs. unfold motion.
  apply scrolling_proper, jump_proper, collide_y_proper, collide_x_proper,
    gravity_proper, movement_input_proper, Hs.
Qed.

Lemma coins_loop_proper (pr pr' : Rect) (cs : list Coin) :
  rect_eq pr pr' ->
  forall sc, coins_loop pr cs sc = coins_loop pr' cs sc.
Proof.
  intros Hr sc. rewrite !coins_loop_eq.
  assert (Hpk : forall c, picked pr c = picked pr' c).
  { intro c. unfold picked.
    now rewrite (rect_circle_overlap_proper pr pr' _ Hr). }
  f_equal.
  - apply map_ext. intro c. unfold pick. now rewrite Hpk.
  - f_equal. f_equal. induction cs as [|c cs IH]; simpl; [reflexivity|].
    now rewrite Hpk, IH.
Qed.

Lemma collect_coins_proper (pr pr' : Rect) (s t : MarioDemo) :
  rect_eq pr pr' -> state_eq s t ->
  state_eq (collect_coins pr s) (collect_coins pr' t).
Proof.
  intros Hr Hs. pose proof Hs as (_ & _ & _ & _ & _ & _ & _ & Hc & _ & _ & Hsc & _).
  unfold collect_coins. rewrite Hc, Hsc, (coins_loop_proper pr pr' _ Hr).
  destruct (coins_loop pr' (coins t) (score t)) as [cs sc].
  unfold state_eq in *. fields. tauto.
Qed.

Lemma enemy_eq_refl (e : Enemy) : enemy_eq e e.
Proof. unfold enemy_eq. repeat split; reflexivity. Qed.

Lemma enemies_eq_refl (es : list Enemy) : Forall2 enemy_eq es es.
Proof. induction es; constructor; auto using enemy_eq_refl. Qed.

Lemma state_eq_refl (s : MarioDemo) : state_eq s s.
Proof.
  unfold state_eq. repeat split; try reflexivity.
  apply enemies_eq_refl.
Qed.

Lemma hits_wall_proper (e f : Enemy) (er er' : Rect) (pls : list Platform) :
  enemy_eq e f -> rect_eq er er' -> hits_wall e er pls = hits_wall f er' pls.
Proof.
  intros (_ & Hy & _ & Hh & _) Hr.
  induction pls as [|[[[x y] w] h] pls IH]; cbn [hits_wall]; [reflexivity|].
  rewrite (rects_overlap_proper er er' _ _ Hr (rect_eq_refl _)).
  rewrite (leb_proper (e_y e + e_h e) (e_y f + e_h f) (y + 2) (y + 2))
    by lra.
  now rewrite IH.
Qed.

Lemma ground_below_proper (e f : Enemy) (nx nx' : Q) (pls : list Platform) :
  enemy_eq e f -> nx == nx' ->
  ground_below e nx pls = ground_below f nx' pls.
Proof.
  intros (_ & Hy & Hw & Hh & _) Hn.
  assert (Hc : nx + e_w e / 2 == nx' + e_w f / 2) by (now rewrite Hw, Hn).
  induction pls as [|[[[x y] w] h] pls IH]; cbn [ground_below];
    [reflexivity|].
  rewrite (geb_proper _ _ x x Hc (Qeq_refl x)).
  rewrite (leb_proper _ _ (x + w) (x + w) Hc (Qeq_refl _)).
  rewrite (geb_proper (e_y e + e_h e + 2) (e_y f + e_h f + 2) y y) by lra.
  rewrite (leb_proper (e_y e + e_h e) (e_y f + e_h f) (y + 6) (y + 6))
    by lra.
  now rewrite IH.
Qed.

Lemma enemy_hits_edge_proper (s t : MarioDemo) (e f : Enemy) :
  platforms s = platforms t -> enemy_eq e f ->
  _enemy_hits_edge s e = _enemy_hits_edge t f.
Proof.
  intros Hpl He. pose proof He as (Hx & Hy & Hw & Hh & Hvx & _).
  unfold _enemy_hits_edge. cbv zeta. rewrite Hpl.
  rewrite (hits_wall_proper e f _
             (e_x f + e_vx f, e_y f, e_x f + e_vx f + e_w f, e_y f + e_h f)
             _ He)
    by (unfold rect_eq; repeat split; lra).
  rewrite (ground_below_proper e f (e_x e + e_vx e) (e_x f + e_vx f) _ He)
    by lra.
  reflexivity.
Qed.

Lemma set_e_x_proper (e f : Enemy) (v v' : Q) :
  enemy_eq e f -> v == v' -> enemy_eq (set_e_x e v) (set_e_x f v').
Proof. unfold enemy_eq. fields. tauto. Qed.

Lemma set_e_vx_proper (e f : Enemy) (v v' : Q) :
  enemy_eq e f -> v == v' -> enemy_eq (set_e_vx e v) (set_e_vx f v').
Proof. unfold enemy_eq. fields. tauto. Qed.

Lemma set_e_alive_proper (e f : Enemy) (b : bool) :
  enemy_eq e f -> enemy_eq (set_e_alive e b) (set_e_alive f b).
Proof. unfold enemy_eq. fields. tauto. Qed.

Lemma enemy_move_proper (s t : MarioDemo) (e f : Enemy) :
  platforms s = platforms t -> enemy_eq e f ->
  enemy_eq (enemy_move s e) (enemy_move t f).
Proof.
  intros Hpl He. pose proof He as (Hx & _ & _ & _ & Hvx & _).
  assert (He1 : enemy_eq (set_e_x e (e_x e + e_vx e))
                         (set_e_x f (e_x f + e_vx f)))
    by (apply set_e_x_proper; [exact He|lra]).
  unfold enemy_move. cbv zeta.
  rewrite (enemy_hits_edge_proper s t _ _ Hpl He1).
  destruct (_enemy_hits_edge t _); [|exact He1].
  apply set_e_vx_proper; [exact He1|]. fields. lra.
Qed.

Lemma enemy_rect_proper (e f : Enemy) :
  enemy_eq e f -> rect_eq (enemy_rect e) (enemy_rect f).
Proof.
  intros (Hx & Hy & Hw & Hh & _). unfold enemy_rect, rect_eq.
  repeat split; lra.
Qed.

Lemma set_score_proper (s t : MarioDemo) (v : Z) :
  state_eq s t -> state_eq (set_score s v) (set_score t v).
Proof. unfold state_eq. fields. tauto. Qed.

Lemma stomp_check_proper (pr pr' : Rect) (s t : MarioDemo) (e f : Enemy) :
  rect_eq pr pr' -> state_eq s t -> enemy_eq e f ->
  flow_eq enemy_eq (stomp_check pr s e) (stomp_check pr' t f).
Proof.
  intros Hr Hs He.
  pose proof Hs as (_ & HW & HH & _ & _ & Hp & _ & _ & _ & _ & Hsc & _).
  pose proof Hp as (_ & Hpy & _ & Hph & _ & Hvy & _).
  pose proof He as (_ & Hey & _).
  unfold stomp_check. cbv zeta.
  rewrite (rects_overlap_proper pr pr' _ _ Hr (enemy_rect_proper e f He)).
  destruct (_rects_overlap pr' (enemy_rect f)); [|simpl; auto].
  rewrite (gtb_proper _ _ 0 0 Hvy (Qeq_refl 0)).
  rewrite (leb_proper (p_y (player s) + p_h (player s) - 6)
             (p_y (player t) + p_h (player t) - 6) (e_y e) (e_y f))
    by lra.
  destruct ((_ >? _) && (_ <=? _)); simpl.
  - split; [now apply set_e_alive_proper|].
    apply set_player_proper;
      [rewrite Hsc; now apply set_score_proper
      |apply set_vy_proper; [exact Hp|reflexivity]].
  - rewrite (reset_level_same s t HW HH). apply state_eq_refl.
Qed.

Lemma enemy_body_proper (pr pr' : Rect) (s t : MarioDemo) (e f : Enemy) :
  rect_eq pr pr' -> state_eq s t -> enemy_eq e f ->
  flow_eq enemy_eq (enemy_body pr s e) (enemy_body pr' t f).
Proof.
  intros Hr Hs He. pose proof He as (_ & _ & _ & _ & _ & Ha).
  pose proof Hs as (_ & _ & _ & _ & _ & _ & Hpl & _).
  unfold enemy_body. rewrite Ha.
  destruct (negb (e_alive f)); [simpl; auto|].
  apply stomp_check_proper; try assumption.
  now apply enemy_move_proper.
Qed.

Lemma enemy_loop_proper (pr pr' : Rect) (es fs : list Enemy) :
  rect_eq pr pr' -> Forall2 enemy_eq es fs ->
  forall s t, state_eq s t ->
  flow_eq (Forall2 enemy_eq) (enemy_loop pr s es) (enemy_loop pr' t fs).
Proof.
  intros Hr Hes. induction Hes as [|e f es fs He Hes IH]; intros s t Hs;
    cbn [enemy_loop].
  - simpl. auto.
  - pose proof (enemy_body_proper pr pr' s t e f Hr Hs He) as Hb.
    destruct (enemy_body pr s e) as [[e1 s1]|s1];
      destruct (enemy_body pr' t f) as [[f1 t1]|t1];
      simpl in Hb; try contradiction; [|exact Hb].
    destruct Hb as [He1 Hs1]. specialize (IH s1 t1 Hs1).
    destruct (enemy_loop pr s1 es) as [[es2 s2]|s2];
      destruct (enemy_loop pr' t1 fs) as [[fs2 t2]|t2];
      simpl in IH; try contradiction; [|exact IH].
    destruct IH as [Hes2 Hs2]. simpl. split; [now constructor|exact Hs2].
Qed.

Lemma goal_check_proper (pr pr' : Rect) (s t : MarioDemo) :
  rect_eq pr pr' -> state_eq s t ->
  state_eq (goal_check pr s) (goal_check pr' t).
Proof.
  intros Hr Hs.
  pose proof Hs as (_ & _ & _ & _ & _ & _ & _ & _ & _ & Hg & _).
  unfold goal_check. cbv zeta. rewrite Hg.
  rewrite (rects_overlap_proper pr pr' _ _ Hr (rect_eq_refl _)).
  destruct (_rects_overlap pr' _); [now apply set_win_proper|exact Hs].
Qed.

Lemma enemy_ai_goal_proper (pr pr' : Rect) (c d : MarioDemo) :
  rect_eq pr pr' -> state_eq c d ->
  state_eq
    match enemy_ai pr c with
    | Return r => r
    | Next s' => goal_check pr s'
    end
    match enemy_ai pr' d with
    | Return r => r
    | Next s' => goal_check pr' s'
    end.
Proof.
  intros Hr Hc. unfold enemy_ai.
  pose proof Hc as (_ & _ & _ & _ & _ & _ & _ & _ & He & _).
  pose proof (enemy_loop_proper pr pr' _ _ Hr He c d Hc) as Hl.
  destruct (enemy_loop pr c (enemies c)) as [[es s2]|s2];
    destruct (enemy_loop pr' d (enemies d)) as [[fs t2]|t2];
    simpl in Hl; try contradiction; [|exact Hl].
  destruct Hl as [Hes Hs2].
  apply goal_check_proper; [exact Hr|]. now apply set_enemies_proper.
Qed.

Lemma interactions_proper (m n : MarioDemo) :
  state_eq m n ->
  state_eq
    match enemy_ai (player_rect (player m))
                   (collect_coins (player_rect (player m)) m) with
    | Return r => r
    | Next s' => goal_check (player_rect (player m)) s'
    end
    match enemy_ai (player_rect (player n))
                   (collect_coins (player_rect (player n)) n) with
    | Return r => r
    | Next s' => goal_check (player_rect (player n)) s'
    end.
Proof.
  intros Hm.
  assert (Hr : rect_eq (player_rect (player m)) (player_rect (player n)))
    by (apply player_rect_proper, Hm).
  apply enemy_ai_goal_proper; [exact Hr|].
  now apply collect_coins_proper.
Qed.

Lemma update_physics_proper (s t : MarioDemo) :
  state_eq s t -> state_eq (_update_physics s) (_update_physics t).
Proof.
  intros Hs. rewrite (update_physics_eq s), (update_physics_eq t). cbv zeta.
  apply interactions_proper, motion_proper, Hs.
Qed.

Lemma on_key_proper (s t : MarioDemo) (k : string) :
  state_eq s t -> result_eq (_on_key s k) (_on_key t k).
Proof.
  intros Hs. pose proof Hs as (_ & HW & HH & Hk & _).
  unfold _on_key. cbv zeta.
  destruct (String.eqb (Py.lower k) "escape"); [exact I|]. simpl.
  destruct (String.eqb (Py.lower k) "r").
  - assert (E : forall a b : MarioDemo, W a = W b -> H a = H b ->
                  state_eq (reset_level a) (reset_level b)).
    { intros a b Ea Eb. rewrite (reset_level_same a b Ea Eb).
      apply state_eq_refl. }
    apply E; split_ifs; fields; assumption.
  - split_ifs; fields; rewrite ?Hk; repeat apply set_keys_proper; exact Hs.
Qed.

Lemma on_key_up_proper (s t : MarioDemo) (k : string) :
  state_eq s t -> state_eq (_on_key_up s k) (_on_key_up t k).
Proof.
  intros Hs. pose proof Hs as (_ & _ & _ & Hk & _).
  unfold _on_key_up. cbv zeta.
  split_ifs; fields; rewrite ?Hk; repeat apply set_keys_proper; exact Hs.
Qed.

Lemma handle_proper (ev : Event) (s t : MarioDemo) :
  state_eq s t -> result_eq (handle ev s) (handle ev t).
Proof.
  intros Hs. destruct ev as [k|k|]; simpl.
  - now apply on_key_proper.
  - now apply on_key_up_proper.
  - now apply update_physics_proper.
Qed.

Lemma norm_enemies_eq (es fs : list Enemy) :
  Forall2 enemy_eq es fs -> Forall2 enemy_eq es (map norm_enemy fs).
Proof.
  induction 1 as [|e f es fs He _ IH]; simpl; constructor; [|exact IH].
  unfold enemy_eq, norm_enemy in *. fields. rewrite !Qred_correct. exact He.
Qed.

Lemma norm_player_eq (p q : Player) :
  player_eq p q -> player_eq p (norm_player q).
Proof.
  unfold player_eq, norm_player. fields. rewrite !Qred_correct. tauto.
Qed.

Lemma norm_eq (s t : MarioDemo) : state_eq s t -> state_eq s (norm t).
Proof.
  intros (Hrng & HW & HH & Hk & Hsx & Hp & Hpl & Hc & He & Hg & Hsc & Hw).
  unfold state_eq, norm. fields. rewrite Qred_correct.
  pose proof (norm_player_eq _ _ Hp). pose proof (norm_enemies_eq _ _ He).
  tauto.
Qed.

Lemma run_norm_sound (evs : list Event) :
  forall s t t', state_eq s t -> run_norm evs t = Some t' ->
  exists s', run evs s = Some s' /\ state_eq s' t'.
Proof.
  induction evs as [|ev evs IH]; intros s t t' Hs Hr; simpl in *.
  - injection Hr as <-. now exists s.
  - pose proof (handle_proper ev s t Hs) as Hh.
    destruct (handle ev s) as [s1|]; destruct (handle ev t) as [t1|];
      simpl in Hh; try contradiction; try discriminate.
    apply (IH s1 (norm t1) t'); [now apply norm_eq|exact Hr].
Qed.

Lemma overlapped_platforms_proper (s t : MarioDemo) :
  state_eq s t -> overlapped_platforms s = overlapped_platforms t.
Proof.
  intros Hs. pose proof Hs as (_ & _ & _ & _ & _ & Hp & Hpl & _).
  unfold overlapped_platforms. rewrite Hpl. apply filter_ext. intro pl.
  apply rects_overlap_proper; [now apply player_rect_proper|].
  apply rect_eq_refl.
Qed.

Lemma overlap_area_proper (a a' b : Rect) :
  rect_eq a a' -> overlap_area a b == overlap_area a' b.
Proof.
  destruct a as [[[a0 a1] a2] a3], a' as [[[a0' a1'] a2'] a3'].
  destruct b as [[[b0 b1] b2] b3].
  intros (A0 & A1 & A2 & A3). unfold overlap_area, overlap_x, overlap_y.
  assert (Ex : Py.min a2 b2 - Py.max a0 b0 == Py.min a2' b2 - Py.max a0' b0).
  { rewrite (min_proper a2 a2' b2 b2), (max_proper a0 a0' b0 b0)
      by (assumption || reflexivity). reflexivity. }
  assert (Ey : Py.min a3 b3 - Py.max a1 b1 == Py.min a3' b3 - Py.max a1' b1).
  { rewrite (min_proper a3 a3' b3 b3), (max_proper a1 a1' b1 b1)
      by (assumption || reflexivity). reflexivity. }
  rewrite (max_proper 0 0 _ _ (Qeq_refl 0) Ex),
    (max_proper 0 0 _ _ (Qeq_refl 0) Ey).
  reflexivity.
Qed.

(** ** Residual penetration *)

(** C1: that no overlap with a platform remains after the collision
    passes of a tick does not hold of the code.  From the initial state,
    with right and jump held, the player is clear of every platform after
    31 ticks; in tick 32 the vertical pass moves its head into the floating
    platform (220, 300, 80, 16) from below, near the platform's left end.
    The overlap is narrower than it is high, so the loop resolves along x;
    the pass was called with dx = 0, so the branch taken is the one that
    adds the overlap to x, and the player is pushed further into the
    platform.  The tick ends with the player's rectangle overlapping the
    platform on a positive area. *)
Theorem C1_residual_penetration :
  exists s,
    run (KeyPress "Right" :: KeyPress "space" :: repeat Tick 31)
        MarioDemo_init = Some s /\
    overlapped_platforms s = [] /\
    overlapped_platforms (_update_physics s) = [(220, 300, 80, 16)] /\
    0 < overlap_area (player_rect (player (_update_physics s)))
                     (platform_rect (220, 300, 80, 16)).
Proof.
  edestruct (run_norm_sound
               (KeyPress "Right" :: KeyPress "space" :: repeat Tick 31)
               MarioDemo_init MarioDemo_init)
    as (s & Hrun & Heq);
    [apply state_eq_refl | vm_compute; reflexivity |].
  exists s. split; [exact Hrun|].
  pose proof (update_physics_proper _ _ Heq) as Heq'.
  rewrite (overlapped_platforms_proper _ _ Heq).
  rewrite (overlapped_platforms_proper _ _ Heq').
  assert (Hr : rect_eq (player_rect (player (_update_physics s)))
                       (player_rect (player (_update_physics _))))
    by (apply player_rect_proper, Heq').
  rewrite (overlap_area_proper _ _ _ Hr).
  split; [vm_compute; reflexivity|].
  split; vm_compute; reflexivity.
Qed.


(** * More of the simulation *)

(** ** clamp and the circle test *)

Lemma clamp_cases (v lo hi : Q) :
  lo <= hi ->
  (v < lo /\ clamp v lo hi == lo) \/
  (lo <= v <= hi /\ clamp v lo hi == v) \/
  (hi < v /\ clamp v lo hi == hi).
Proof. unfold clamp, Py.max, Py.min. intros. py_cases. Qed.

(** X1: for bounds in order, [clamp] returns a value within the bounds, the
    value itself when it is within them, and clamping twice is clamping
    once; the result is the point of the interval nearest to [v]. *)
Theorem clamp_in_order (v lo hi : Q) (Hord : lo <= hi) :
  lo <= clamp v lo hi <= hi /\
  (lo <= v <= hi -> clamp v lo hi == v) /\
  clamp (clamp v lo hi) lo hi == clamp v lo hi /\
  (forall u, lo <= u <= hi ->
     Py.abs (v - clamp v lo hi) <= Py.abs (v - u)).
Proof.
  split; [now apply clamp_bounds|].
  split; [intros Hin; destruct (clamp_cases v lo hi Hord)
                        as [[? ?]|[[? ?]|[? ?]]]; lra|].
  split.
  - pose proof (clamp_bounds v lo hi Hord) as Hb.
    destruct (clamp_cases (clamp v lo hi) lo hi Hord)
      as [[? ?]|[[? ?]|[? ?]]]; lra.
  - intros u Hu. unfold Py.abs.
    destruct (clamp_cases v lo hi Hord) as [[? E]|[[? E]|[? E]]];
      rewrite E; apply Qabs_case; intros; apply Qabs_case; intros; lra.
Qed.

Lemma clamp_in_order_witness :
  0 <= 800 /\ 0 <= clamp 1234 0 800 <= 800.
Proof.
  assert (Hord : 0 <= 800) by lra.
  split; [exact Hord|].
  apply (clamp_in_order 1234 0 800 Hord).
Defined.

(** A disordered pair of bounds is not an error: the lower bound wins. *)
Lemma clamp_disordered (v lo hi : Q) : hi < lo -> clamp v lo hi = lo.
Proof.
  intros Hd. unfold clamp, Py.max, Py.min.
  repeat py_case; try reflexivity; exfalso; lra.
Qed.





(** ** The collision pass *)

Lemma move_and_collide_eq (s : MarioDemo) (p : Player) (dx dy : Q) :
  _move_and_collide s p dx dy =
  fold_left (resolve_platform (player_rect (moved p dx dy)) dx dy)
            (platforms s) (moved p dx dy).
Proof. reflexivity. Qed.

Lemma resolve_platform_cases (pr : Rect) (dx dy : Q) (p : Player)
    (pl : Platform) :
  let ox := overlap_x pr (platform_rect pl) in
  let oy := overlap_y pr (platform_rect pl) in
  resolve_platform pr dx dy p pl =
  if negb (_rects_overlap pr (platform_rect pl)) then p
  else if Py.abs ox <? Py.abs oy then
    set_vx (if dx >? 0 then set_x p (p_x p - ox) else set_x p (p_x p + ox))
           0.0
  else if dy >? 0 then
    set_on_ground (set_vy (set_y p (p_y p - oy)) 0.0) true
  else set_vy (set_y p (p_y p + oy)) 0.0.
Proof.
  unfold resolve_platform, overlap_x, overlap_y.
  destruct pr as [[[a0 a1] a2] a3].
  destruct (platform_rect pl) as [[[r0 r1] r2] r3]. reflexivity.
Qed.

Lemma fold_resolve_grounded (pr : Rect) (dx dy : Q) (pls : list Platform) :
  forall p,
  p_on_ground (fold_left (resolve_platform pr dx dy) pls p) =
  p_on_ground p || ((dy >? 0) && existsb (resolves_y pr) pls).
Proof.
  induction pls as [|pl pls IH]; intros p; cbn [fold_left existsb].
  - now rewrite andb_false_r, orb_false_r.
  - rewrite IH, resolve_platform_cases. cbv zeta. unfold resolves_y.
    destruct (_rects_overlap pr (platform_rect pl)); cbn [negb andb orb];
      [|reflexivity].
    destruct (_ <? _); cbn [negb].
    + destruct (dx >? 0); fields; reflexivity.
    + destruct (dy >? 0); fields; cbn [andb orb].
      * now rewrite orb_true_r.
      * now rewrite orb_false_r.
Qed.

Lemma fold_resolve_vy (pr : Rect) (dx dy : Q) (pls : list Platform) :
  forall p,
  p_vy (fold_left (resolve_platform pr dx dy) pls p) =
  if existsb (resolves_y pr) pls then 0.0 else p_vy p.
Proof.
  induction pls as [|pl pls IH]; intros p; cbn [fold_left existsb].
  - reflexivity.
  - rewrite IH, resolve_platform_cases. cbv zeta. unfold resolves_y.
    destruct (_rects_overlap pr (platform_rect pl)); cbn [negb andb orb];
      [|reflexivity].
    destruct (_ <? _); cbn [negb].
    + destruct (dx >? 0); fields; reflexivity.
    + destruct (dy >? 0); fields; now destruct (existsb _ pls).
Qed.

(** X3: after a pass the player is grounded exactly when the pass moved down
    and the loop resolved along y against some platform (one that the moved
    rectangle overlaps at least as widely as deeply); a grounded player has
    vertical velocity 0.0; and a pass that does not move down (the
    horizontal pass among them) leaves the player not grounded, whatever the
    flag was before. *)
Theorem grounded_after_pass (s : MarioDemo) (p : Player) (dx dy : Q) :
  let pr := player_rect (moved p dx dy) in
  let p' := _move_and_collide s p dx dy in
  (p_on_ground p' = true <->
   0 < dy /\
   exists pl, In pl (platforms s) /\
     _rects_overlap pr (platform_rect pl) = true /\
     Py.abs (overlap_y pr (platform_rect pl)) <=
     Py.abs (overlap_x pr (platform_rect pl))) /\
  (p_on_ground p' = true -> p_vy p' = 0.0) /\
  (dy <= 0 -> p_on_ground p' = false).
Proof.
  intros pr p'.
  assert (Hg : p_on_ground p' =
               (dy >? 0) && existsb (resolves_y pr) (platforms s)).
  { unfold p'. rewrite move_and_collide_eq, fold_resolve_grounded.
    reflexivity. }
  assert (Hy : p_vy p' = if existsb (resolves_y pr) (platforms s)
                         then 0.0 else p_vy (moved p dx dy)).
  { unfold p'. rewrite move_and_collide_eq. apply fold_resolve_vy. }
  clearbody p' pr. rewrite Hg. split; [|split].
  - rewrite andb_true_iff, existsb_exists. unfold resolves_y.
    split.
    + intros [Hd (pl & Hin & Hr)]. apply andb_true_iff in Hr.
      destruct Hr as [Ho Hn]. destruct (gtb_spec dy 0); [|discriminate].
      split; [assumption|]. exists pl. split; [assumption|].
      split; [assumption|].
      destruct (ltb_spec (Py.abs (overlap_x pr (platform_rect pl)))
                         (Py.abs (overlap_y pr (platform_rect pl))));
        [discriminate|lra].
    + intros [Hd (pl & Hin & Ho & Hle)].
      split; [destruct (gtb_spec dy 0); [reflexivity|lra]|].
      exists pl. split; [assumption|]. rewrite Ho. cbn [andb].
      destruct (ltb_spec (Py.abs (overlap_x pr (platform_rect pl)))
                         (Py.abs (overlap_y pr (platform_rect pl))));
        [lra|reflexivity].
  - intros Ht. apply andb_true_iff in Ht. destruct Ht as [_ He].
    now rewrite Hy, He.
  - intros Hd. destruct (gtb_spec dy 0); [lra|reflexivity].
Qed.

Lemma fold_resolve_apart (pr : Rect) (dx dy : Q) (pls : list Platform) :
  Forall (fun pl => _rects_overlap pr (platform_rect pl) = false) pls ->
  forall p, fold_left (resolve_platform pr dx dy) pls p = p.
Proof.
  induction 1 as [|pl pls Ho _ IH]; intros p; cbn [fold_left];
    [reflexivity|].
  rewrite resolve_platform_cases. cbv zeta. rewrite Ho. cbn [negb].
  apply IH.
Qed.

(** X4: a pass whose moved rectangle overlaps no platform only moves the
    player: the position changes by (dx, dy), the grounded flag is cleared
    and the velocity is kept. *)
Theorem free_pass (s : MarioDemo) (p : Player) (dx dy : Q)
    (Hfree : Forall (fun pl => _rects_overlap (player_rect (moved p dx dy))
                                              (platform_rect pl) = false)
                    (platforms s)) :
  _move_and_collide s p dx dy = moved p dx dy.
Proof. rewrite move_and_collide_eq. now apply fold_resolve_apart. Qed.

(** The first tick of a game: the player falls freely. *)
Lemma free_pass_witness :
  let p := mkPlayer 80.0 320.0 24 32 0.0 0.8 false in
  p_y (_move_and_collide MarioDemo_init p 0 0.8) = 320.0 + 0.8.
Proof.
  intros p.
  assert (Hfree : Forall (fun pl => _rects_overlap
                            (player_rect (moved p 0 0.8))
                            (platform_rect pl) = false)
                         (platforms MarioDemo_init)).
  { vm_compute. repeat constructor. }
  rewrite (free_pass MarioDemo_init p 0 0.8 Hfree). reflexivity.
Defined.

(** X5: landing: the player moves down into one platform of the level and
    overlaps no other; the moved rectangle has its top at or above the
    platform's top and its bottom at or above the platform's bottom, and the
    overlap is at least as wide as it is deep. Then the pass puts the
    player's feet on the platform's top, zeroes the vertical velocity,
    grounds the player and leaves x and the horizontal velocity alone. *)
Theorem landing (s : MarioDemo) (p : Player) (dx dy : Q)
    (l1 l2 : list Platform) (x y w h : Q)
    (Hpls : platforms s = l1 ++ (x, y, w, h) :: l2)
    (Hl1 : Forall (fun pl => _rects_overlap (player_rect (moved p dx dy))
                                            (platform_rect pl) = false) l1)
    (Hl2 : Forall (fun pl => _rects_overlap (player_rect (moved p dx dy))
                                            (platform_rect pl) = false) l2)
    (Hdown : 0 < dy)
    (Hov : resolves_y (player_rect (moved p dx dy)) (x, y, w, h) = true)
    (Htop : p_y p + dy <= y)
    (Hbot : p_y p + dy + p_h p <= y + h) :
  let p' := _move_and_collide s p dx dy in
  p_y p' + p_h p' == y /\ p_vy p' = 0.0 /\ p_on_ground p' = true /\
  p_x p' = p_x p + dx /\ p_vx p' = p_vx p.
Proof.
  intros p'. unfold p'. rewrite move_and_collide_eq, Hpls, fold_left_app.
  rewrite (fold_resolve_apart _ dx dy l1 Hl1). cbn [fold_left].
  rewrite (fold_resolve_apart _ dx dy l2 Hl2).
  rewrite resolve_platform_cases. cbv zeta.
  unfold resolves_y in Hov. apply andb_true_iff in Hov.
  destruct Hov as [Ho Hn]. rewrite Ho. cbn [negb].
  apply negb_true_iff in Hn. rewrite Hn.
  destruct (gtb_spec dy 0) as [_|Hc]; [|lra].
  unfold moved, player_rect, platform_rect, overlap_y. fields.
  split; [|repeat split].
  unfold Py.min, Py.max. py_cases.
Qed.

(** The fifth tick of a game: the player lands on the second ground
    block. *)
Lemma landing_witness :
  let p := mkPlayer 80 328 24 32 0 4 false in
  p_on_ground (_move_and_collide MarioDemo_init p 0 4) = true.
Proof.
  intros p.
  apply (landing MarioDemo_init p 0 4 [(0, 360, 80, 120)]
           (tl (tl (platforms MarioDemo_init))) 80 360 80 120).
  - reflexivity.
  - vm_compute. repeat constructor.
  - vm_compute. repeat constructor.
  - lra.
  - vm_compute. reflexivity.
  - simpl. lra.
  - simpl. lra.
Defined.

(** ** The camera band *)

(** X6: for a viewport no wider than the level, the camera update leaves the
    player's on-screen x within the band from 0.3 to 0.6 of the viewport
    width, unless the scroll offset is clamped at an end of the level: the
    player is right of the band only with the offset at its maximum and left
    of it only with the offset at 0. *)
Theorem camera_band (s : MarioDemo) (Hw0 : 0 <= W s) (Hw : W s <= 1600) :
  let s' := scrolling s in
  let on_screen := p_x (player s') - scroll_x s' in
  (on_screen <= W s * 0.6 \/ scroll_x s' == 1600 - W s) /\
  (W s * 0.3 <= on_screen \/ scroll_x s' == 0).
Proof.
  intros s' on_screen. unfold on_screen, s'. rewrite scrolling_player.
  unfold scrolling. cbv zeta.
  destruct (gtb_spec (p_x (player s) - scroll_x s) (W s * 0.6));
    fields;
    destruct (ltb_spec (p_x (player s) - scroll_x s) (W s * 0.3));
    fields; unfold clamp, Py.max, Py.min; py_cases.
Qed.

Lemma camera_band_witness :
  let s := set_player MarioDemo_init (mkPlayer 900 328 24 32 0 0 false) in
  0 <= W s /\ W s <= 1600 /\
  (p_x (player (scrolling s)) - scroll_x (scrolling s) <= W s * 0.6 \/
   scroll_x (scrolling s) == 1600 - W s).
Proof.
  intros s.
  assert (Hw0 : 0 <= W s) by (simpl; lra).
  assert (Hw : W s <= 1600) by (simpl; lra).
  split; [exact Hw0|]. split; [exact Hw|].
  apply (camera_band s Hw0 Hw).
Defined.

(** ** The key handlers *)

Lemma lower_ascii_idem (c : ascii) :
  Py.lower_ascii (Py.lower_ascii c) = Py.lower_ascii c.
Proof.
  destruct c as [[] [] [] [] [] [] [] []]; reflexivity.
Qed.

Lemma lower_idem (k : string) : Py.lower (Py.lower k) = Py.lower k.
Proof.
  induction k as [|c k IH]; simpl; [reflexivity|].
  now rewrite lower_ascii_idem, IH.
Qed.

(** The key handlers do not tell the case of a key name: a handler gives
    the same result for a name and for the name in lower case. *)
Lemma key_case_insensitive (s : MarioDemo) (k : string) :
  _on_key s k = _on_key s (Py.lower k) /\
  _on_key_up s k = _on_key_up s (Py.lower k).
Proof.
  unfold _on_key, _on_key_up. cbv zeta. rewrite lower_idem. split; reflexivity.
Qed.

(** X7: releasing a key after pressing it gives the state that releasing it
    alone gives: the press leaves no trace. This is for every key but R
    (which resets the level) and Escape (which closes the window); a key
    that belongs to no control does nothing at all. *)
Theorem press_then_release (s s1 : MarioDemo) (k : string)
    (Hpress : _on_key s k = Some s1)
    (Hr : String.eqb (Py.lower k) "r" = false) :
  _on_key_up s1 k = _on_key_up s k /\
  (Py.in_ (Py.lower k) ["left"; "a"]%string = false ->
   Py.in_ (Py.lower k) ["right"; "d"]%string = false ->
   Py.in_ (Py.lower k) ["space"; "z"; "w"; "up"]%string = false ->
   s1 = s /\ _on_key_up s k = s).
Proof.
  revert Hpress. unfold _on_key, _on_key_up. cbv zeta. rewrite Hr.
  generalize (Py.in_ (Py.lower k) ["left"; "a"]%string),
             (Py.in_ (Py.lower k) ["right"; "d"]%string),
             (Py.in_ (Py.lower k) ["space"; "z"; "w"; "up"]%string).
  intros a b c.
  destruct (String.eqb (Py.lower k) "escape"); [discriminate|].
  intros [= <-].
  destruct a, b, c; (split; [reflexivity|]); intros H1 H2 H3;
    try discriminate.
  split; reflexivity.
Qed.

Lemma press_then_release_witness :
  let s1 := set_keys MarioDemo_init (mkKeys true false false) in
  _on_key MarioDemo_init "Left" = Some s1 /\
  _on_key_up s1 "Left" = _on_key_up MarioDemo_init "Left".
Proof.
  intros s1.
  assert (Hp : _on_key MarioDemo_init "Left" = Some s1) by reflexivity.
  split; [exact Hp|].
  exact (proj1 (press_then_release MarioDemo_init s1 "Left" Hp eq_refl)).
Defined.

(** ** The score *)

Lemma dead_coins_pick (pr : Rect) (cs : list Coin) :
  dead_coins (map (pick pr) cs) = (dead_coins cs + count_picked pr cs)%Z.
Proof.
  induction cs as [|c cs IH]; cbn [map dead_coins count_picked];
    [reflexivity|].
  rewrite IH, pick_alive. unfold picked.
  destruct (c_alive c); cbn [andb negb]; [|lia].
  destruct (_rect_circle_overlap pr _); cbn [negb]; lia.
Qed.

Lemma dead_count_bounds (cs : list Coin) (es : list Enemy) :
  (0 <= dead_coins cs <= Z.of_nat (List.length cs))%Z /\
  (0 <= dead_enemies es <= Z.of_nat (List.length es))%Z.
Proof.
  split.
  - induction cs as [|c cs IH]; cbn [dead_coins List.length]; [lia|].
    destruct (c_alive c); lia.
  - induction es as [|e es IH]; cbn [dead_enemies List.length]; [lia|].
    destruct (e_alive e); lia.
Qed.

Lemma enemy_body_score (pr : Rect) (s s' : MarioDemo) (e e' : Enemy) :
  enemy_body pr s e = Next (e', s') ->
  (score s' + 200 * dead_enemies [e] = score s + 200 * dead_enemies [e'])%Z.
Proof.
  unfold enemy_body. cbn [dead_enemies].
  destruct (e_alive e) eqn:Ea; cbn [negb].
  - destruct (enemy_move_shape s e) as (_ & _ & _ & Ha & _).
    rewrite Ea in Ha. generalize dependent (enemy_move s e). intros m Ha.
    unfold stomp_check. cbv zeta.
    destruct (_rects_overlap pr (enemy_rect m)).
    + destruct ((_ >? _) && (_ <=? _)); [|discriminate].
      intros [= <- <-]. fields. lia.
    + intros [= <- <-]. rewrite Ha. lia.
  - intros [= <- <-]. rewrite Ea. lia.
Qed.

Lemma enemy_loop_score (pr : Rect) (es : list Enemy) :
  forall s es' s', enemy_loop pr s es = Next (es', s') ->
  (score s' + 200 * dead_enemies es = score s + 200 * dead_enemies es')%Z.
Proof.
  induction es as [|e es IH]; intros s es' s'; cbn [enemy_loop].
  - intros [= <- <-]. reflexivity.
  - destruct (enemy_body pr s e) as [[e1 s1]|s1] eqn:Eb; [|discriminate].
    destruct (enemy_loop pr s1 es) as [[es2 s2]|s2] eqn:El; [|discriminate].
    intros [= <- <-]. apply enemy_body_score in Eb. apply IH in El.
    cbn [dead_enemies] in *. lia.
Qed.

Lemma score_accounted_reset (s : MarioDemo) : score_accounted (reset_level s).
Proof. rewrite reset_level_fields. reflexivity. Qed.

Lemma score_accounted_tick (s : MarioDemo) :
  score_accounted s -> score_accounted (_update_physics s).
Proof.
  intros Hs. destruct (tick_cases s) as [[_ ->] | [_ (es' & s2 & El & ->)]].
  { apply score_accounted_reset. }
  destruct (before_enemies_frame s) as (_ & _ & _ & _ & _ & Hc0 & Hs0).
  pose proof (enemy_loop_score _ _ _ _ _ El) as Hsc.
  apply enemy_loop_next in El. destruct El as ((_ & _ & Hc1 & _) & _).
  destruct (goal_check_frame (player_rect (player (motion s)))
              (set_enemies s2 es')) as (Ge & Gc & Gs & _).
  unfold score_accounted in *. rewrite Ge, Gc, Gs.
  cbn [enemies coins score set_enemies].
  rewrite Hc1, Hc0, dead_coins_pick. rewrite Hs0 in Hsc.
  generalize dependent (count_picked (player_rect (player (motion s)))
                                     (coins s)).
  intros n Hsc. lia.
Qed.

Lemma score_accounted_handle (ev : Event) (s s' : MarioDemo) :
  handle ev s = Some s' -> score_accounted s -> score_accounted s'.
Proof.
  destruct ev as [k|k|]; cbn [handle].
  - unfold _on_key. cbv zeta.
    destruct (String.eqb (Py.lower k) "escape"); [discriminate|].
    intros [= <-] Hs.
    destruct (String.eqb (Py.lower k) "r");
      [apply score_accounted_reset|].
    split_ifs; exact Hs.
  - intros [= <-] Hs. unfold _on_key_up. cbv zeta. split_ifs; exact Hs.
  - intros [= <-]. apply score_accounted_tick.
Qed.

Lemma score_accounted_run (evs : list Event) :
  forall s s', run evs s = Some s' -> score_accounted s -> score_accounted s'.
Proof.
  induction evs as [|ev evs IH]; cbn [run]; intros s s' Hr Hs.
  - now injection Hr as <-.
  - destruct (handle ev s) as [s1|] eqn:Eh; [|discriminate].
    eapply IH; [exact Hr|]. eapply score_accounted_handle; eauto.
Qed.

(** X8: in every reachable state the score is exactly 100 times the number
    of coins that are not alive plus 200 times the number of enemies that
    are not alive; with the nine coins and the one enemy of the level it
    lies between 0 and 1100. *)
Theorem score_accounting (evs : list Event) (s : MarioDemo)
    (Hrun : run evs MarioDemo_init = Some s) :
  score s = (100 * dead_coins (coins s) + 200 * dead_enemies (enemies s))%Z /\
  (0 <= score s <= 1100)%Z.
Proof.
  assert (Hs : score_accounted s).
  { eapply score_accounted_run; [exact Hrun|].
    unfold MarioDemo_init. apply score_accounted_reset. }
  split; [exact Hs|].
  assert (I : level_inv s) by (apply reachable_inv; now exists evs).
  destruct (dead_count_bounds (coins s) (enemies s)) as [Hc He].
  rewrite (inv_coins_count s I) in Hc. rewrite (inv_one_enemy s I) in He.
  unfold score_accounted in Hs. lia.
Qed.

Lemma score_accounting_witness :
  let s := _update_physics MarioDemo_init in
  run [Tick] MarioDemo_init = Some s /\ (0 <= score s <= 1100)%Z.
Proof.
  intros s.
  assert (Hrun : run [Tick] MarioDemo_init = Some s) by reflexivity.
  split; [exact Hrun|].
  apply (score_accounting [Tick] s Hrun).
Defined.

(** ** Enemies that are not alive *)

Lemma enemy_loop_dead_kept (pr : Rect) (es : list Enemy) :
  forall s es' s', enemy_loop pr s es = Next (es', s') ->
  forall i e, nth_error es i = Some e -> e_alive e = false ->
              nth_error es' i = Some e.
Proof.
  induction es as [|e0 es IH]; intros s es' s'; cbn [enemy_loop].
  - intros [= <- <-] i e Hn _. exact Hn.
  - destruct (enemy_body pr s e0) as [[e1 s1]|s1] eqn:Eb; [|discriminate].
    destruct (enemy_loop pr s1 es) as [[es2 s2]|s2] eqn:El; [|discriminate].
    intros [= <- <-] i e Hn Hd. destruct i as [|i]; cbn [nth_error] in *.
    + injection Hn as ->. unfold enemy_body in Eb. rewrite Hd in Eb.
      cbn [negb] in Eb. now injection Eb as <- _.
    + eapply IH; eauto.
Qed.

Lemma tick_dead_kept (s : MarioDemo) (i : nat) (e : Enemy) :
  tick_dies s = false ->
  nth_error (enemies s) i = Some e -> e_alive e = false ->
  nth_error (enemies (_update_physics s)) i = Some e.
Proof.
  intros Hd Hn Ha.
  destruct (tick_cases s) as [[Ht _] | [_ (es' & s2 & El & ->)]];
    [congruence|].
  destruct (goal_check_frame (player_rect (player (motion s)))
              (set_enemies s2 es')) as (Ge & _).
  rewrite Ge. cbn [enemies set_enemies].
  eapply enemy_loop_dead_kept; eauto.
Qed.

Lemma handle_dead_kept (ev : Event) (s s' : MarioDemo) (i : nat)
    (e : Enemy) :
  resets ev s = false -> handle ev s = Some s' ->
  nth_error (enemies s) i = Some e -> e_alive e = false ->
  nth_error (enemies s') i = Some e.
Proof.
  destruct ev as [k|k|]; cbn [handle resets]; intros Hr Hh Hn Ha.
  - revert Hh. unfold _on_key. cbv zeta. rewrite Hr.
    destruct (String.eqb (Py.lower k) "escape"); [discriminate|].
    intros [= <-]. split_ifs; exact Hn.
  - injection Hh as <-. unfold _on_key_up. cbv zeta. split_ifs; exact Hn.
  - injection Hh as <-. now apply tick_dead_kept.
Qed.

(** X9: within one level lifetime an enemy that is not alive stays as it is:
    along any run of key events and ticks in which nothing resets the level,
    the enemy list holds the same record at the same index, with the same
    position and velocity and still not alive. *)
Theorem dead_enemy_stays (evs : list Event) (s s' : MarioDemo) (i : nat)
    (e : Enemy)
    (Hrun : run_lifetime evs s = Some s')
    (Hnth : nth_error (enemies s) i = Some e)
    (Hdead : e_alive e = false) :
  nth_error (enemies s') i = Some e.
Proof.
  revert s Hrun Hnth. induction evs as [|ev evs IH]; cbn [run_lifetime];
    intros s Hrun Hnth.
  - now injection Hrun as <-.
  - destruct (resets ev s) eqn:Er; [discriminate|].
    destruct (handle ev s) as [s1|] eqn:Eh; [|discriminate].
    apply (IH s1 Hrun). eapply handle_dead_kept; eauto.
Qed.

Lemma dead_enemy_stays_witness :
  let e := mkEnemy 300 340 28 20 1 false in
  let s := set_enemies MarioDemo_init [e] in
  run_lifetime [Tick] s = Some (_update_physics s) /\
  nth_error (enemies (_update_physics s)) 0 = Some e.
Proof.
  intros e s.
  assert (Hrun : run_lifetime [Tick] s = Some (_update_physics s))
    by (vm_compute; reflexivity).
  split; [exact Hrun|].
  apply (dead_enemy_stays [Tick] s (_update_physics s) 0 e Hrun);
    reflexivity.
Defined.

(** ** The enemy's patrol *)

Lemma in_level_cases (x y w h : Q) :
  In (x, y, w, h) (ground_strip ++ floating_platforms) ->
  (y = 360 /\ w = 80 /\ h = 120 /\ 0 <= x /\ x + 80 <= 1600) \/
  (y <= 300 /\ h = 16).
Proof.
  intros Hin. apply in_app_or in Hin. destruct Hin as [Hin|Hin];
    [left; unfold ground_strip in Hin
    |right; unfold floating_platforms in Hin];
    cbn [In] in Hin;
    repeat (destruct Hin as [Heq|Hin];
            [injection Heq as <- <- <- <-; repeat split;
             try reflexivity; lra|]);
    destruct Hin.
Qed.

Lemma ground_block_at (c : Q) :
  0 <= c <= 1600 ->
  exists x, In (x, 360, 80, 120) ground_strip /\ x <= c <= x + 80.
Proof.
  intros Hc. unfold ground_strip.
  destruct (Qlt_le_dec 80 c) as [H0|H0];
    [|exists 0; split; [left; reflexivity|lra]].
  destruct (Qlt_le_dec 160 c) as [H1|H1];
    [|exists 80; split; [right; left; reflexivity|lra]].
  destruct (Qlt_le_dec 240 c) as [H2|H2];
    [|exists 160; split; [right; right; left; reflexivity|lra]].
  destruct (Qlt_le_dec 320 c) as [H3|H3];
    [|exists 240; split; [right; right; right; left; reflexivity|lra]].
  destruct (Qlt_le_dec 400 c) as [H4|H4];
    [|exists 320; split; [right; right; right; right; left; reflexivity|lra]].
  destruct (Qlt_le_dec 480 c) as [H5|H5];
    [|exists 400; split; [right; right; right; right; right; left; reflexivity|lra]].
  destruct (Qlt_le_dec 560 c) as [H6|H6];
    [|exists 480; split; [right; right; right; right; right; right; left; reflexivity|lra]].
  destruct (Qlt_le_dec 640 c) as [H7|H7];
    [|exists 560; split; [right; right; right; right; right; right; right; left; reflexivity|lra]].
  destruct (Qlt_le_dec 720 c) as [H8|H8];
    [|exists 640; split; [right; right; right; right; right; right; right; right; left; reflexivity|lra]].
  destruct (Qlt_le_dec 800 c) as [H9|H9];
    [|exists 720; split; [right; right; right; right; right; right; right; right; right; left; reflexivity|lra]].
  destruct (Qlt_le_dec 880 c) as [H10|H10];
    [|exists 800; split; [right; right; right; right; right; right; right; right; right; right; left; reflexivity|lra]].
  destruct (Qlt_le_dec 960 c) as [H11|H11];
    [|exists 880; split; [right; right; right; right; right; right; right; right; right; right; right; left; reflexivity|lra]].
  destruct (Qlt_le_dec 1040 c) as [H12|H12];
    [|exists 960; split; [right; right; right; right; right; right; right; right; right; right; right; right; left; reflexivity|lra]].
  destruct (Qlt_le_dec 1120 c) as [H13|H13];
    [|exists 1040; split; [right; right; right; right; right; right; right; right; right; right; right; right; right; left; reflexivity|lra]].
  destruct (Qlt_le_dec 1200 c) as [H14|H14];
    [|exists 1120; split; [right; right; right; right; right; right; right; right; right; right; right; right; right; right; left; reflexivity|lra]].
  destruct (Qlt_le_dec 1280 c) as [H15|H15];
    [|exists 1200; split; [right; right; right; right; right; right; right; right; right; right; right; right; right; right; right; left; reflexivity|lra]].
  destruct (Qlt_le_dec 1360 c) as [H16|H16];
    [|exists 1280; split; [right; right; right; right; right; right; right; right; right; right; right; right; right; right; right; right; left; reflexivity|lra]].
  destruct (Qlt_le_dec 1440 c) as [H17|H17];
    [|exists 1360; split; [right; right; right; right; right; right; right; right; right; right; right; right; right; right; right; right; right; left; reflexivity|lra]].
  destruct (Qlt_le_dec 1520 c) as [H18|H18];
    [|exists 1440; split; [right; right; right; right; right; right; right; right; right; right; right; right; right; right; right; right; right; right; left; reflexivity|lra]].
  exists 1520; split; [right; right; right; right; right; right; right; right; right; right; right; right; right; right; right; right; right; right; right; left; reflexivity|lra].
Qed.

Lemma level_wall_never (e : Enemy) (nx : Q) :
  enemy_on_ground e ->
  ~ wall_ahead (ground_strip ++ floating_platforms) e nx.
Proof.
  intros (Hy & Hw & Hh) (x & y & w & h & Hin & Ho & Hlt).
  rewrite Hy, Hh in *. apply rects_overlap_iff in Ho.
  destruct (in_level_cases x y w h Hin) as [(-> & _) | (Hy' & ->)]; lra.
Qed.

Lemma level_ground_iff (e : Enemy) (nx : Q) :
  enemy_on_ground e ->
  (ground_ahead (ground_strip ++ floating_platforms) e nx <->
   0 <= nx + 14 <= 1600).
Proof.
  intros (Hy & Hw & Hh). unfold ground_ahead. rewrite Hy, Hw, Hh.
  assert (E : 28 / 2 == 14) by reflexivity.
  split.
  - intros (x & y & w & h & Hin & Hc & Hy1 & Hy2). rewrite E in Hc.
    destruct (in_level_cases x y w h Hin) as [(-> & -> & _ & ? & ?) | (? & _)];
      lra.
  - intros Hc. destruct (ground_block_at (nx + 14) Hc) as (x & Hin & Hx).
    exists x, 360, 80, 120. split; [apply in_or_app; now left|].
    rewrite E. lra.
Qed.

(** In the generated level an enemy that walks on the ground is told to
    turn exactly when its centre, one more step ahead, would be past an
    end of the ground strip: no platform of the level is a wall to it. *)
Lemma enemy_turns_iff (s : MarioDemo) (e : Enemy) :
  platforms s = ground_strip ++ floating_platforms ->
  enemy_on_ground e ->
  (_enemy_hits_edge s e = true <->
   ~ (0 <= e_x e + e_vx e + 14 <= 1600)).
Proof.
  intros Hpl Hg. rewrite enemy_hits_edge_spec, Hpl.
  pose proof (level_wall_never e (e_x e + e_vx e) Hg) as Hwall.
  pose proof (level_ground_iff e (e_x e + e_vx e) Hg) as Hgr.
  tauto.
Qed.

Lemma enemy_move_patrols (s : MarioDemo) (e : Enemy) :
  platforms s = ground_strip ++ floating_platforms ->
  patrols e -> patrols (enemy_move s e).
Proof.
  intros Hpl [Hg Hp].
  set (e1 := set_e_x e (e_x e + e_vx e)).
  assert (Hg1 : enemy_on_ground e1) by exact Hg.
  pose proof (enemy_turns_iff s e1 Hpl Hg1) as Ht.
  unfold enemy_move. cbv zeta. fold e1.
  destruct (_enemy_hits_edge s e1).
  - assert (Hn : ~ (0 <= e_x e1 + e_vx e1 + 14 <= 1600))
      by (apply Ht; reflexivity).
    split; [exact Hg|]. unfold e1 in *. fields. lra.
  - assert (Hn : 0 <= e_x e1 + e_vx e1 + 14 <= 1600).
    { destruct (Qlt_le_dec (e_x e1 + e_vx e1 + 14) 0) as [Hl|Hl];
        [|destruct (Qlt_le_dec 1600 (e_x e1 + e_vx e1 + 14)) as [Hu|Hu]];
        [| |lra];
        (assert (Hf : false = true) by (apply Ht; lra); discriminate). }
    split; [exact Hg|]. unfold e1 in *. fields. lra.
Qed.

Lemma patrols_same_place (e e' : Enemy) :
  e_x e' = e_x e -> e_y e' = e_y e -> e_w e' = e_w e -> e_h e' = e_h e ->
  e_vx e' = e_vx e -> patrols e -> patrols e'.
Proof.
  unfold patrols, enemy_on_ground. intros -> -> -> -> ->. tauto.
Qed.

Lemma patrols_reset (s : MarioDemo) : Forall patrols (enemies (reset_level s)).
Proof.
  rewrite reset_level_fields. cbn [enemies]. constructor; [|constructor].
  split; [repeat split|]. left. fields. split; [reflexivity|lra].
Qed.

Lemma patrols_tick (s : MarioDemo) :
  level_inv s -> Forall patrols (enemies s) ->
  Forall patrols (enemies (_update_physics s)).
Proof.
  intros I Hp. destruct (one_enemy s I) as (e & He & _).
  rewrite He in Hp. inversion Hp as [|? ? Hpe _]; subst.
  pose proof (inv_platforms s I) as Hpl.
  pose proof (enemy_move_patrols s e Hpl Hpe) as Hpm.
  pose proof (tick_enemy_alive s e He) as Ta. cbv zeta in Ta.
  pose proof (tick_enemy_dead s e He) as Td. cbv zeta in Td.
  assert (Hr : Forall patrols (enemies (reset_level (before_enemies s))))
    by apply patrols_reset.
  set (p := player (motion s)) in *.
  set (cb := before_enemies s) in *.
  set (em := enemy_move s e) in *.
  clearbody p cb em. clear I He Hpl Hp.
  destruct (e_alive e).
  - specialize (Ta eq_refl).
    destruct (stomp_check (player_rect p) cb em) as [[e' c']|r] eqn:Es.
    + destruct Ta as [_ ->]. apply stomp_check_next in Es.
      destruct Es as (_ & Hx & Hy & Hw & Hh & Hvx).
      destruct (goal_check_frame (player_rect p) (set_enemies c' [e']))
        as (Ge & _).
      rewrite Ge. cbn [enemies set_enemies]. constructor; [|constructor].
      exact (patrols_same_place em e' Hx Hy Hw Hh Hvx Hpm).
    + destruct Ta as [_ ->]. apply stomp_check_return in Es. subst r.
      exact Hr.
  - destruct (Td eq_refl) as [_ ->].
    destruct (goal_check_frame (player_rect p) (set_enemies cb [e]))
      as (Ge & _).
    rewrite Ge. cbn [enemies set_enemies]. constructor; [exact Hpe|constructor].
Qed.

Lemma patrols_handle (ev : Event) (s s' : MarioDemo) :
  handle ev s = Some s' -> level_inv s ->
  Forall patrols (enemies s) -> Forall patrols (enemies s').
Proof.
  destruct ev as [k|k|]; cbn [handle].
  - unfold _on_key. cbv zeta.
    destruct (String.eqb (Py.lower k) "escape"); [discriminate|].
    intros [= <-] _ Hp.
    destruct (String.eqb (Py.lower k) "r"); [apply patrols_reset|].
    split_ifs; exact Hp.
  - intros [= <-] _ Hp. unfold _on_key_up. cbv zeta. split_ifs; exact Hp.
  - intros [= <-]. apply patrols_tick.
Qed.

Lemma patrols_run (evs : list Event) :
  forall s s', run evs s = Some s' -> level_inv s ->
  Forall patrols (enemies s) -> Forall patrols (enemies s').
Proof.
  induction evs as [|ev evs IH]; cbn [run]; intros s s' Hr I Hp.
  - now injection Hr as <-.
  - destruct (handle ev s) as [s1|] eqn:Eh; [|discriminate].
    apply (IH s1 s' Hr).
    + eapply level_inv_handle; eauto.
    + eapply patrols_handle; eauto.
Qed.

(** X10: in every reachable state the enemy of the level is on its patrol:
    it stands on the ground (y = 340), its speed is 1 to the left or to the
    right, and its x is between -14 and 1586, so that its centre never
    leaves the ground strip by more than its turning step; alive or not. *)
Theorem enemy_patrol (evs : list Event) (s : MarioDemo)
    (Hrun : run evs MarioDemo_init = Some s) :
  exists e, enemies s = [e] /\
    e_y e = 340 /\ (e_vx e == -1 \/ e_vx e == 1) /\
    -14 <= e_x e <= 1586 /\ 0 <= e_x e + 14 <= 1600.
Proof.
  assert (I : level_inv s) by (apply reachable_inv; now exists evs).
  assert (Hp : Forall patrols (enemies s)).
  { eapply patrols_run; [exact Hrun|apply level_inv_init|].
    unfold MarioDemo_init. apply patrols_reset. }
  destruct (one_enemy s I) as (e & He & _). exists e.
  split; [exact He|]. rewrite He in Hp.
  inversion Hp as [|? ? [(Hy & _) Hv] _]; subst.
  split; [exact Hy|]. split; [tauto|]. lra.
Qed.

Lemma enemy_patrol_witness :
  let s := _update_physics MarioDemo_init in
  run [Tick] MarioDemo_init = Some s /\
  exists e, enemies s = [e] /\
    e_y e = 340 /\ (e_vx e == -1 \/ e_vx e == 1) /\
    -14 <= e_x e <= 1586 /\ 0 <= e_x e + 14 <= 1600.
Proof.
  intros s.
  assert (Hrun : run [Tick] MarioDemo_init = Some s) by reflexivity.
  split; [exact Hrun|].
  apply (enemy_patrol [Tick] s Hrun).
Defined.

(** ** The level during play *)

Lemma level_kept_reset (s : MarioDemo) : level_kept (reset_level s).
Proof. rewrite reset_level_fields. split; reflexivity. Qed.

Lemma pick_places (pr : Rect) (cs : list Coin) :
  map (fun c => (c_x c, c_y c, c_r c)) (map (pick pr) cs) =
  map (fun c => (c_x c, c_y c, c_r c)) cs.
Proof.
  rewrite map_map. apply map_ext. intros c.
  destruct (pick_place pr c) as (-> & -> & ->). reflexivity.
Qed.

Lemma level_kept_tick (s : MarioDemo) :
  level_kept s -> level_kept (_update_physics s).
Proof.
  intros [Hr Hp]. destruct (tick_cases s) as [[_ ->] | [_ (es' & s2 & El & ->)]].
  { apply level_kept_reset. }
  destruct (before_enemies_frame s) as ((Hr0 & _) & _ & _ & _ & _ & Hc0 & _).
  apply enemy_loop_next in El.
  destruct El as (((Hr1 & _) & _ & Hc1 & _) & _).
  set (pr := player_rect (player (motion s))) in *.
  set (c := set_enemies s2 es').
  assert (Hc : rng c = rng s2 /\ coins c = coins s2) by (split; reflexivity).
  destruct (goal_check_frame pr c) as (_ & Gc & _).
  assert (Gr : rng (goal_check pr c) = rng c)
    by (unfold goal_check; destruct (_rects_overlap pr _); reflexivity).
  clearbody c pr. unfold level_kept, coin_places in *.
  rewrite Gr, Gc. destruct Hc as [-> ->]. rewrite Hr1, Hr0, Hc1, Hc0.
  split; [exact Hr|]. rewrite pick_places. exact Hp.
Qed.

Lemma level_kept_handle (ev : Event) (s s' : MarioDemo) :
  handle ev s = Some s' -> level_kept s -> level_kept s'.
Proof.
  destruct ev as [k|k|]; cbn [handle].
  - unfold _on_key. cbv zeta.
    destruct (String.eqb (Py.lower k) "escape"); [discriminate|].
    intros [= <-] Hs.
    destruct (String.eqb (Py.lower k) "r"); [apply level_kept_reset|].
    split_ifs; exact Hs.
  - intros [= <-] Hs. unfold _on_key_up. cbv zeta. split_ifs; exact Hs.
  - intros [= <-]. apply level_kept_tick.
Qed.

Lemma level_kept_run (evs : list Event) :
  forall s s', run evs s = Some s' -> level_kept s -> level_kept s'.
Proof.
  induction evs as [|ev evs IH]; cbn [run]; intros s s' Hr Hs.
  - now injection Hr as <-.
  - destruct (handle ev s) as [s1|] eqn:Eh; [|discriminate].
    apply (IH s1 s' Hr). eapply level_kept_handle; eauto.
Qed.

(** X11: whatever the keys and however long the play, the level stays the
    one that [reset_level] builds: the size of the world, the platforms, the
    goal, the places of the nine coins, the size of the player and the seed
    never change, and there is always exactly one enemy. What a tick can
    change is the player, the camera, the flags of the coins and the enemy,
    the score and the win flag. *)
Theorem level_never_changes (evs : list Event) (s : MarioDemo)
    (Hrun : run evs MarioDemo_init = Some s) :
  rng s = rng MarioDemo_init /\ W s = W MarioDemo_init /\
  H s = H MarioDemo_init /\ platforms s = platforms MarioDemo_init /\
  goal s = goal MarioDemo_init /\
  coin_places s = coin_places MarioDemo_init /\
  p_w (player s) = p_w (player MarioDemo_init) /\
  p_h (player s) = p_h (player MarioDemo_init) /\
  List.length (enemies s) = 1%nat.
Proof.
  assert (I : level_inv s) by (apply reachable_inv; now exists evs).
  assert (K : level_kept s).
  { eapply level_kept_run; [exact Hrun|]. unfold MarioDemo_init.
    apply level_kept_reset. }
  destruct I as [Iw Ih Ip Ig _ _ _ Ie _ [Ipw Iph] _]. destruct K as [Kr Kc].
  repeat (split; [assumption|]). exact Ie.
Qed.

Lemma level_never_changes_witness :
  let s := _update_physics (_update_physics MarioDemo_init) in
  run [Tick; Tick] MarioDemo_init = Some s /\
  rng s = rng MarioDemo_init /\ W s = W MarioDemo_init /\
  H s = H MarioDemo_init /\ platforms s = platforms MarioDemo_init /\
  goal s = goal MarioDemo_init /\
  coin_places s = coin_places MarioDemo_init /\
  p_w (player s) = p_w (player MarioDemo_init) /\
  p_h (player s) = p_h (player MarioDemo_init) /\
  List.length (enemies s) = 1%nat.
Proof.
  intros s.
  assert (Hrun : run [Tick; Tick] MarioDemo_init = Some s) by reflexivity.
  split; [exact Hrun|].
  apply (level_never_changes [Tick; Tick] s Hrun).
Defined.

(** ** Below the level *)













(** * The desktop shell: properties *)

Import Desktop.
Local Open Scope string_scope.

(** ** Strings and dicts *)

Lemma str_inj (a b : Z) : str a = str b -> a = b.
Proof.
  unfold str. intros E.
  assert (N : forall z, Z.to_int z <> Decimal.Pos Decimal.Nil /\
                        Z.to_int z <> Decimal.Neg Decimal.Nil).
  { intros z. destruct z as [|p|p]; cbn; split; try discriminate.
    - unfold Pos.to_uint. intros [= H].
      pose proof (DecimalPos.Unsigned.to_uint_nonnil p) as Hn.
      now apply Hn.
    - unfold Pos.to_uint. intros [= H].
      pose proof (DecimalPos.Unsigned.to_uint_nonnil p) as Hn.
      now apply Hn. }
  apply DecimalZ.to_int_inj.
  pose proof (DecimalString.NilZero.isi (Z.to_int a) (proj1 (N a)) (proj2 (N a))) as Ha.
  pose proof (DecimalString.NilZero.isi (Z.to_int b) (proj1 (N b)) (proj2 (N b))) as Hb.
  rewrite E in Ha. congruence.
Qed.

Lemma append_inj_l (p a b : string) : p ++ a = p ++ b -> a = b.
Proof.
  induction p as [|c p IH]; cbn; [trivial|]. intros [= E]. auto.
Qed.

Lemma append_length (a b : string) :
  String.length (a ++ b) = (String.length a + String.length b)%nat.
Proof. induction a as [|c a IH]; cbn; [reflexivity|now rewrite IH]. Qed.

Lemma append_inj_r (a b s : string) : a ++ s = b ++ s -> a = b.
Proof.
  revert b. induction a as [|c a IH]; intros [|d b] E; cbn in E.
  - reflexivity.
  - apply (f_equal String.length) in E. cbn in E. rewrite append_length in E.
    lia.
  - apply (f_equal String.length) in E. cbn in E. rewrite append_length in E.
    lia.
  - injection E as -> E. f_equal. now apply IH.
Qed.

Lemma icon_tag_inj (a b : Z) :
  "icon_" ++ str a = "icon_" ++ str b -> a = b.
Proof. intros E. apply str_inj. exact (append_inj_l "icon_" _ _ E). Qed.

Lemma lookup_In {A : Type} (k : string) (d : dict A) (v : A) :
  lookup k d = Some v -> In (k, v) d.
Proof.
  induction d as [|[k' v'] d IH]; cbn; [discriminate|].
  destruct (String.eqb_spec k' k) as [->|N].
  - intros [= ->]. now left.
  - intros E. right. auto.
Qed.

Lemma lookup_keys {A : Type} (k : string) (d : dict A) :
  In k (keys d) <-> exists v, lookup k d = Some v.
Proof.
  induction d as [|[k' v'] d IH]; cbn.
  - split; [tauto|]. intros [v E]. discriminate.
  - destruct (String.eqb_spec k' k) as [->|N].
    + split; [|auto]. intros _. now exists v'.
    + rewrite <- IH. tauto.
Qed.

Lemma contains_keys {A : Type} (k : string) (d : dict A) :
  contains k d = true <-> In k (keys d).
Proof.
  rewrite lookup_keys. unfold contains. destruct (lookup k d) as [v|].
  - split; [now exists v|reflexivity].
  - split; [discriminate|]. intros [v E]. discriminate.
Qed.

Lemma contains_false {A : Type} (k : string) (d : dict A) :
  contains k d = false <-> ~ In k (keys d).
Proof.
  rewrite <- contains_keys. destruct (contains k d); split; congruence.
Qed.


(** [d[k] = v] for a key of [d] *)
Lemma keys_setitem_old {A : Type} (k : string) (v : A) (d : dict A) :
  In k (keys d) -> keys (setitem k v d) = keys d.
Proof.
  induction d as [|[k' v'] d IH]; cbn; [tauto|].
  destruct (String.eqb_spec k' k) as [->|N]; [reflexivity|].
  intros [E|Hin]; [congruence|]. cbn. f_equal. auto.
Qed.

(** [d[k] = v] for a new key *)
Lemma setitem_new {A : Type} (k : string) (v : A) (d : dict A) :
  ~ In k (keys d) -> setitem k v d = (d ++ [(k, v)])%list.
Proof.
  induction d as [|[k' v'] d IH]; cbn; [reflexivity|].
  intros Hn. destruct (String.eqb_spec k' k) as [->|N]; [tauto|].
  f_equal. apply IH. tauto.
Qed.

Lemma lookup_setitem_same {A : Type} (k : string) (v : A) (d : dict A) :
  lookup k (setitem k v d) = Some v.
Proof.
  induction d as [|[k' v'] d IH]; cbn.
  - now rewrite String.eqb_refl.
  - destruct (String.eqb_spec k' k) as [->|N]; cbn.
    + now rewrite String.eqb_refl.
    + destruct (String.eqb_spec k' k); [tauto|exact IH].
Qed.

Lemma lookup_setitem_other {A : Type} (k k0 : string) (v : A) (d : dict A) :
  k0 <> k -> lookup k0 (setitem k v d) = lookup k0 d.
Proof.
  intros Hne. induction d as [|[k' v'] d IH]; cbn.
  - destruct (String.eqb_spec k k0); [congruence|reflexivity].
  - destruct (String.eqb_spec k' k) as [->|N]; cbn.
    + destruct (String.eqb_spec k k0); [congruence|reflexivity].
    + destruct (String.eqb_spec k' k0); [reflexivity|exact IH].
Qed.

(** The entries after [d[k] = v]: the old ones under the other keys, and
    [v] under [k]. *)
Lemma In_setitem {A : Type} (k : string) (v : A) (d : dict A) (kv : string * A) :
  In kv (setitem k v d) -> kv = (k, v) \/ In kv d.
Proof.
  induction d as [|[k' v'] d IH]; cbn.
  - intros [E|[]]. now left.
  - destruct (String.eqb_spec k' k) as [->|N]; cbn.
    + intros [E|H]; [now left|right; now right].
    + intros [E|H]; [right; now left|].
      destruct (IH H) as [E|H']; [now left|right; now right].
Qed.

Lemma Forall_setitem {A : Type} (P : string * A -> Prop) (k : string) (v : A)
    (d : dict A) :
  Forall P d -> P (k, v) -> Forall P (setitem k v d).
Proof.
  intros Hd Hv. apply Forall_forall. intros kv Hin.
  destruct (In_setitem _ _ _ _ Hin) as [->|H]; [exact Hv|].
  now apply (proj1 (Forall_forall P d) Hd).
Qed.

Lemma NoDup_keys_setitem {A : Type} (k : string) (v : A) (d : dict A) :
  NoDup (keys d) -> NoDup (keys (setitem k v d)).
Proof.
  intros Hn. destruct (in_dec string_dec k (keys d)) as [Hin|Hout].
  - now rewrite keys_setitem_old.
  - rewrite setitem_new by exact Hout. unfold keys. rewrite map_app. cbn.
    apply NoDup_app_remove_l with (l := []). cbn.
    apply Permutation.Permutation_NoDup with (l := k :: map fst d).
    + apply Permutation.Permutation_cons_append.
    + now constructor.
Qed.

Lemma keys_setitem_In {A : Type} (k k0 : string) (v : A) (d : dict A) :
  In k0 (keys (setitem k v d)) <-> k0 = k \/ In k0 (keys d).
Proof.
  rewrite !lookup_keys. destruct (string_dec k0 k) as [->|N].
  - rewrite lookup_setitem_same. split; [now left|]. intros _. now exists v.
  - rewrite lookup_setitem_other by exact N. tauto.
Qed.

(** ** Icons and rooms as dicts *)

Lemma icon_round_trip (ic : Icon) : Icon_from_dict (Icon_to_dict ic) = Ok ic.
Proof. destruct ic as [? ? ? [a|] ? ? ? ? ? ? ? ?]; reflexivity. Qed.

Lemma icons_round_trip (l : list Icon) :
  mapM (fun ic => Icon_from_dict (Icon_to_dict ic)) l = Ok l.
Proof.
  induction l as [|ic l IH]; cbn [mapM]; [reflexivity|].
  rewrite icon_round_trip, IH. reflexivity.
Qed.

Lemma mapM_map {A B C : Type} (f : B -> Outcome C) (g : A -> B) (l : list A) :
  mapM f (map g l) = mapM (fun a => f (g a)) l.
Proof.
  induction l as [|a l IH]; cbn [mapM map]; [reflexivity|].
  now rewrite IH.
Qed.

Lemma room_round_trip (r : Room) : Room_from_dict (Room_to_dict r) = Ok r.
Proof.
  destruct r as [n t l]. unfold Room_to_dict, Room_from_dict.
  cbn [name theme icons getitem get lookup String.eqb Ascii.eqb Bool.eqb
       bind iter].
  rewrite mapM_map, icons_round_trip. reflexivity.
Qed.

(** ** The invariant of a session *)

Ltac desk :=
  cbn [icon_counter rooms current_room edit_mode dragging drag_tag drag_offx
       drag_offy set_icon_counter set_rooms set_current_room set_edit_mode
       set_drag store_room
       tag title kind app_id x y w h fill fg unremovable animate
       set_x set_y set_w set_h set_animate
       name theme icons set_theme set_icons fst snd] in *.

Lemma icon_ok_mono (c c' : Z) (ic : Icon) :
  (c <= c')%Z -> icon_ok c ic -> icon_ok c' ic.
Proof.
  intros Hc ((n & Hn & Ht) & Hk). split; [|exact Hk].
  exists n. split; [lia|exact Ht].
Qed.

Lemma room_ok_mono (c c' : Z) (kr : string * Room) :
  (c <= c')%Z -> room_ok c kr -> room_ok c' kr.
Proof.
  intros Hc (Hn & Hd & Hf). split; [exact Hn|]. split; [exact Hd|].
  eapply Forall_impl; [|exact Hf]. intros ic. now apply icon_ok_mono.
Qed.

Lemma current_room_at (s : HaltmannDesktop) :
  desk_inv s ->
  exists rn r, current_room s = Some rn /\ lookup rn (rooms s) = Some r /\
               room_ok (icon_counter s) (rn, r).
Proof.
  intros [_ _ (rn & Hc & Hin) Hr]. exists rn.
  destruct (proj1 (lookup_keys rn (rooms s)) Hin) as [r Hl]. exists r.
  split; [exact Hc|]. split; [exact Hl|].
  apply (proj1 (Forall_forall _ _) Hr). now apply lookup_In.
Qed.

Lemma render_ok (s : HaltmannDesktop) :
  desk_inv s -> _render_room s = Ok s.
Proof.
  intros I. destruct (current_room_at s I) as (rn & r & Hc & Hl & _).
  unfold _render_room, room_at. now rewrite Hc, Hl.
Qed.

Lemma get_icon_ok (s : HaltmannDesktop) (t : option string) :
  desk_inv s ->
  exists rn r, current_room s = Some rn /\ lookup rn (rooms s) = Some r /\
               room_ok (icon_counter s) (rn, r) /\
               _get_icon_by_tag s t = Ok (find (tag_is t) (icons r)).
Proof.
  intros I. destruct (current_room_at s I) as (rn & r & Hc & Hl & Hok).
  exists rn, r. repeat (split; [assumption|]).
  unfold _get_icon_by_tag, room_at. now rewrite Hc, Hl.
Qed.

(** An assignment to the current room that keeps the room in order keeps
    the desktop in order; the counter may have grown before. *)
Lemma inv_mutate (s : HaltmannDesktop) (c' : Z) (f : Room -> Room) :
  desk_inv s -> (icon_counter s <= c')%Z ->
  (forall rn r, current_room s = Some rn -> lookup rn (rooms s) = Some r ->
                room_ok (icon_counter s) (rn, r) -> room_ok c' (rn, f r)) ->
  exists s', mutate_room (set_icon_counter s c') (current_room s) f = Ok s' /\
             desk_inv s' /\ icon_counter s' = c' /\
             current_room s' = current_room s.
Proof.
  intros I Hc Hf. destruct (current_room_at s I) as (rn & r & Hcur & Hl & Hok).
  destruct I as [H0 Hk Hcr Hr].
  unfold mutate_room, room_at. desk. rewrite Hcur, Hl. cbn [bind].
  eexists. split; [reflexivity|]. split; [|split; [reflexivity|exact Hcur]].
  constructor; desk.
  - lia.
  - now apply NoDup_keys_setitem.
  - exists rn. split; [exact Hcur|]. apply keys_setitem_In. now left.
  - apply Forall_setitem.
    + eapply Forall_impl; [|exact Hr]. intros kr. now apply room_ok_mono.
    + now apply Hf.
Qed.

Lemma inv_mutate_same (s : HaltmannDesktop) (f : Room -> Room) :
  desk_inv s ->
  (forall rn r, current_room s = Some rn -> lookup rn (rooms s) = Some r ->
                room_ok (icon_counter s) (rn, r) ->
                room_ok (icon_counter s) (rn, f r)) ->
  exists s', mutate_room s (current_room s) f = Ok s' /\ desk_inv s'.
Proof.
  intros I Hf.
  destruct (inv_mutate s (icon_counter s) f I (Z.le_refl _) Hf)
    as (s' & E & I' & _).
  exists s'. split; [|exact I']. destruct s. exact E.
Qed.

(** A new icon with the next tag goes into the current room. *)
Lemma inv_append (s : HaltmannDesktop) (ic : Icon) :
  desk_inv s ->
  tag ic = "icon_" ++ str (icon_counter s + 1) ->
  (kind ic = "app" \/ kind ic = "decor") ->
  (unremovable ic = true <-> kind ic = "app") ->
  (kind ic = "app" -> exists a, app_id ic = Some a /\ In a wired) ->
  exists s',
    append_icons (set_icon_counter s (icon_counter s + 1)) (current_room s)
                 [ic] = Ok s' /\ desk_inv s'.
Proof.
  intros I Ht Hk Hu Ha. unfold append_icons.
  destruct (inv_mutate s (icon_counter s + 1)
              (fun r => set_icons r (icons r ++ [ic])%list) I)
    as (s' & E & I' & _); [lia| |now exists s'].
  intros rn r _ _ (Hn & Hd & Hf). split; [exact Hn|]. desk.
  assert (Hnew : icon_ok (icon_counter s + 1) ic).
  { split; [|exact (conj Hk (conj Hu Ha))]. exists (icon_counter s + 1)%Z.
    destruct I. split; [lia|exact Ht]. }
  split.
  - rewrite map_app. cbn [map].
    apply NoDup_app_remove_l with (l := []). cbn [app].
    apply Permutation.Permutation_NoDup with (l := tag ic :: map tag (icons r)).
    + apply Permutation.Permutation_cons_append.
    + constructor; [|exact Hd]. intros Hin. apply in_map_iff in Hin.
      destruct Hin as (ic' & Ht' & Hin').
      destruct (proj1 (Forall_forall _ _) Hf ic' Hin') as ((n & Hn' & Hnt) & _).
      rewrite Ht, Hnt in Ht'. apply icon_tag_inj in Ht'. lia.
  - apply Forall_app. split.
    + eapply Forall_impl; [|exact Hf]. intros ic'. apply icon_ok_mono. lia.
    + now constructor.
Qed.

Lemma store_icon_tags (ic : Icon) (l : list Icon) :
  map tag (store_icon ic l) = map tag l.
Proof.
  induction l as [|ic' l IH]; cbn [store_icon map]; [reflexivity|].
  destruct (String.eqb_spec (tag ic') (tag ic)) as [E|N]; cbn [map].
  - now rewrite E.
  - now rewrite IH.
Qed.

Lemma store_icon_Forall (P : Icon -> Prop) (ic : Icon) (l : list Icon) :
  Forall P l -> P ic -> Forall P (store_icon ic l).
Proof.
  intros Hl Hic. induction Hl as [|ic' l Hi Hl IH]; cbn [store_icon].
  - constructor.
  - destruct (String.eqb (tag ic') (tag ic)); constructor; assumption.
Qed.

(** New values for the position, the size or the animation of an icon of
    the current room. *)
Lemma inv_update (s : HaltmannDesktop) (ic ic' : Icon) :
  desk_inv s -> icon_ok (icon_counter s) ic ->
  tag ic' = tag ic -> kind ic' = kind ic -> unremovable ic' = unremovable ic ->
  app_id ic' = app_id ic ->
  exists s', update_icon s ic' = Ok s' /\ desk_inv s'.
Proof.
  intros I Hok Ht Hk Hu Ha. unfold update_icon. apply inv_mutate_same; [exact I|].
  intros rn r _ _ (Hn & Hd & Hf). split; [exact Hn|]. desk. split.
  - now rewrite store_icon_tags.
  - apply store_icon_Forall; [exact Hf|].
    unfold icon_ok in *. now rewrite Ht, Hk, Hu, Ha.
Qed.

Lemma find_ok (s : HaltmannDesktop) (rn : string) (r : Room)
    (t : option string) (ic : Icon) :
  room_ok (icon_counter s) (rn, r) -> find (tag_is t) (icons r) = Some ic ->
  icon_ok (icon_counter s) ic /\ In ic (icons r) /\ t = Some (tag ic).
Proof.
  intros (_ & _ & Hf) E. apply find_some in E. destruct E as [Hin Ht].
  split; [now apply (proj1 (Forall_forall _ _) Hf)|]. split; [exact Hin|].
  destruct t as [t|]; [|discriminate]. cbn in Ht.
  apply String.eqb_eq in Ht. now rewrite Ht.
Qed.

(** ** Sorting the room names *)

Lemma insert_In (k k0 : string) (l : list string) :
  In k0 (insert k l) <-> k0 = k \/ In k0 l.
Proof.
  induction l as [|k' l IH]; cbn [insert].
  - cbn. intuition congruence.
  - destruct (String.leb k k'); cbn [In]; [intuition congruence|].
    rewrite IH. cbn. intuition congruence.
Qed.

Lemma sorted_In (k : string) (l : list string) : In k (sorted l) <-> In k l.
Proof.
  induction l as [|k' l IH]; cbn [sorted fold_right]; [tauto|].
  fold (sorted l). rewrite insert_In, IH. cbn. intuition congruence.
Qed.

(** ** A free name for the copy of a room *)

Lemma copy_name_inj (rn : string) (a b : Z) :
  rn ++ " (Copy " ++ str a ++ ")" = rn ++ " (Copy " ++ str b ++ ")" -> a = b.
Proof.
  intros E. apply append_inj_l in E. apply (append_inj_l " (Copy ") in E.
  apply append_inj_r in E. now apply str_inj.
Qed.

Lemma copy_name_first (rn : string) (j : Z) :
  rn ++ " (Copy " ++ str j ++ ")" <> rn ++ " (Copy)".
Proof.
  intros E. apply append_inj_l in E. cbn in E. discriminate.
Qed.

Lemma copy_name_free (fuel : nat) (rms : dict Room) (rn : string) :
  forall i nrn n,
    copy_name fuel rms rn i nrn = Some n -> contains n rms = false.
Proof.
  induction fuel as [|fuel IH]; intros i nrn n; cbn [copy_name];
    destruct (contains nrn rms) eqn:E; try discriminate.
  - now intros [= <-].
  - apply IH.
  - now intros [= <-].
Qed.

(** The names that the loop tries are all different, and each one that is
    taken is the name of a room: the loop ends before it has tried more
    names than there are rooms. *)
Lemma copy_name_enough (rms : dict Room) (rn : string) (fuel : nat) :
  forall (ks : list string) (i : Z) (nrn : string),
    (forall j, (i < j)%Z -> rn ++ " (Copy " ++ str j ++ ")" <> nrn) ->
    (forall k, In k (keys rms) ->
               k = nrn \/ (exists j, (i < j)%Z /\
                                     k = rn ++ " (Copy " ++ str j ++ ")") ->
               In k ks) ->
    (List.length ks <= fuel)%nat ->
    exists n, copy_name fuel rms rn i nrn = Some n.
Proof.
  induction fuel as [|fuel IH]; intros ks i nrn Hd Hc Hl; cbn [copy_name];
    destruct (contains nrn rms) eqn:E; try (now exists nrn).
  - apply contains_keys in E. apply Hc in E; [|now left].
    destruct ks; [destruct E|cbn in Hl; lia].
  - apply contains_keys in E. assert (Hin := Hc nrn E (or_introl eq_refl)).
    apply (IH (remove string_dec nrn ks)).
    + intros j Hj Ej. apply copy_name_inj in Ej. lia.
    + intros k Hk Hcand. apply in_in_remove.
      * destruct Hcand as [->|(j & Hj & ->)]; apply Hd; lia.
      * apply Hc; [exact Hk|]. right.
        destruct Hcand as [->|(j & Hj & ->)].
        -- exists (i + 1)%Z. split; [lia|reflexivity].
        -- exists j. split; [lia|reflexivity].
    + pose proof (remove_length_lt string_dec ks nrn Hin). lia.
Qed.

Lemma copy_name_total (rms : dict Room) (rn : string) :
  exists n, copy_name (List.length rms) rms rn 1 (rn ++ " (Copy)") = Some n /\
            ~ In n (keys rms).
Proof.
  destruct (copy_name_enough rms rn (List.length rms) (keys rms) 1
              (rn ++ " (Copy)")) as [n E].
  - intros j _. apply copy_name_first.
  - intros k Hk _. exact Hk.
  - unfold keys. now rewrite length_map.
  - exists n. split; [exact E|]. apply contains_false.
    eapply copy_name_free. exact E.
Qed.

(** ** Every operation keeps the desktop in order *)


Lemma drag_safe (s : HaltmannDesktop) ex ey :
  desk_inv s -> exists s', _on_canvas_drag s ex ey = Ok s' /\ desk_inv s'.
Proof.
  intros I. unfold _on_canvas_drag.
  destruct (dragging s && nonempty (drag_tag s))%bool; [|now exists s].
  destruct (get_icon_ok s (drag_tag s) I) as (rn & r & _ & _ & Hok & ->).
  cbn [bind].
  destruct (find (tag_is (drag_tag s)) (icons r)) as [ic|] eqn:E;
    [|now exists s].
  destruct (find_ok s rn r _ ic Hok E) as (Hic & _). cbv zeta.
  edestruct (inv_update s ic) as (s' & -> & I');
    [exact I|exact Hic|reflexivity|reflexivity|reflexivity|reflexivity|].
  cbn [bind]. exists s'. split; [now apply render_ok|exact I'].
Qed.




Lemma duplicate_icon_safe (s : HaltmannDesktop) t :
  desk_inv s -> exists s', _duplicate_icon s t = Ok s' /\ desk_inv s'.
Proof.
  intros I. unfold _duplicate_icon.
  destruct (get_icon_ok s t I) as (rn & r & _ & _ & Hok & ->). cbn [bind].
  destruct (find (tag_is t) (icons r)) as [ic|] eqn:E; [|now exists s].
  destruct (find_ok s rn r _ ic Hok E) as ((_ & Hk & Hu & Ha) & _). cbv zeta.
  edestruct (inv_append s) as (s' & -> & I'); [exact I| | | | |].
  - desk. reflexivity.
  - desk. exact Hk.
  - desk. destruct (String.eqb_spec (kind ic) "decor") as [Ed|Nd].
    + rewrite Ed. split; discriminate.
    + exact Hu.
  - desk. exact Ha.
  - cbn [bind]. exists s'. split; [now apply render_ok|exact I'].
Qed.

(** Taking icons out of a room leaves the tags of the others distinct. *)
Lemma filter_tags_distinct (keep : Icon -> bool) (l : list Icon) :
  NoDup (map tag l) -> NoDup (map tag (filter keep l)).
Proof.
  intros Hn. induction l as [|ic l IH]; cbn [map filter]; [constructor|].
  cbn [map] in Hn. apply NoDup_cons_iff in Hn. destruct Hn as [Hnot Hrest].
  destruct (keep ic); cbn [map]; [|now apply IH].
  constructor; [|now apply IH]. intros Hin. apply Hnot.
  apply in_map_iff in Hin. destruct Hin as (ic' & Et & Hin).
  apply filter_In in Hin. apply in_map_iff. exists ic'. tauto.
Qed.

Lemma Forall_filter {A : Type} (P : A -> Prop) (p : A -> bool) (l : list A) :
  Forall P l -> Forall P (filter p l).
Proof.
  intros H. apply Forall_forall. intros a Hin. apply filter_In in Hin.
  apply (proj1 (Forall_forall P l) H). tauto.
Qed.

Lemma remove_icon_safe (s : HaltmannDesktop) t :
  desk_inv s -> exists s', _remove_icon s t = Ok s' /\ desk_inv s'.
Proof.
  intros I. unfold _remove_icon.
  destruct (get_icon_ok s t I) as (rn & r & _ & _ & Hok & ->). cbn [bind].
  destruct (find (tag_is t) (icons r)) as [ic|] eqn:E; [|now exists s].
  destruct (unremovable ic); [now exists s|].
  edestruct (inv_mutate_same s) as (s' & -> & I'); [exact I| |].
  - intros rn' r' _ _ (Hn & Hd & Hf). split; [exact Hn|]. desk.
    split; [now apply filter_tags_distinct|now apply Forall_filter].
  - cbn [bind]. exists s'. split; [now apply render_ok|exact I'].
Qed.






Lemma delitem_spec {A : Type} (k : string) (d : dict A) :
  In k (keys d) ->
  exists d', delitem k d = Ok d' /\
             (List.length d = S (List.length d'))%nat /\
             (forall kv, In kv d' -> In kv d) /\
             (NoDup (keys d) -> NoDup (keys d')).
Proof.
  induction d as [|[k' v'] d IH]; cbn [keys map In delitem fst]; [tauto|].
  intros Hin. destruct (String.eqb_spec k' k) as [->|N].
  - exists d. split; [reflexivity|]. split; [reflexivity|].
    split; [intros kv H; now right|]. intros Hn. now inversion Hn.
  - destruct Hin as [E|Hin]; [congruence|].
    destruct (IH Hin) as (d' & -> & Hlen & Hsub & Hnd). cbn [bind].
    eexists. split; [reflexivity|]. split; [cbn; lia|]. split.
    + intros kv [E|H]; [now left|right; auto].
    + intros Hn. inversion Hn as [|? ? Hnot Hrest]; subst.
      cbn [keys map fst]. constructor; [|now apply Hnd].
      intros H. apply Hnot. apply in_map_iff in H.
      destruct H as (kv & E & H). apply in_map_iff. exists kv. auto.
Qed.

Lemma delete_room_safe (s : HaltmannDesktop) yes :
  desk_inv s -> exists s', _delete_current_room s yes = Ok s' /\ desk_inv s'.
Proof.
  intros I. unfold _delete_current_room.
  destruct (Nat.leb_spec (List.length (rooms s)) 1) as [Hle|Hgt];
    [now exists s|].
  cbv zeta. destruct yes; [|now exists s].
  destruct (current_room_at s I) as (rn & r & Hc & Hl & _). rewrite Hc.
  destruct (delitem_spec rn (rooms s)) as (d' & -> & Hlen & Hsub & Hnd).
  { apply lookup_keys. now exists r. }
  cbn [bind]. desk.
  destruct (sorted (keys d')) as [|k ks] eqn:Es.
  - exfalso. destruct d' as [|[k v] d']; [cbn in Hlen; lia|].
    assert (Hin : In k (sorted (keys ((k, v) :: d'))))
      by (apply sorted_In; now left).
    rewrite Es in Hin. destruct Hin.
  - assert (Hk : In k (keys d')) by (apply sorted_In; rewrite Es; now left).
    assert (I' : desk_inv (set_current_room (set_rooms s d') (Some k))).
    { destruct I as [H0 Hkeys Hcur Hr]. constructor; desk.
      - exact H0.
      - now apply Hnd.
      - now exists k.
      - apply Forall_forall. intros kv Hin.
        apply (proj1 (Forall_forall _ _) Hr). now apply Hsub. }
    eexists. split; [now apply render_ok|exact I'].
Qed.








(** ** The first desktop *)

Ltac count_tag :=
  first [ exists 1%Z; split; [lia|reflexivity]
        | exists 2%Z; split; [lia|reflexivity]
        | exists 3%Z; split; [lia|reflexivity]
        | exists 4%Z; split; [lia|reflexivity]
        | exists 5%Z; split; [lia|reflexivity]
        | exists 6%Z; split; [lia|reflexivity]
        | exists 7%Z; split; [lia|reflexivity]
        | exists 8%Z; split; [lia|reflexivity]
        | exists 9%Z; split; [lia|reflexivity]
        | exists 10%Z; split; [lia|reflexivity]
        | exists 11%Z; split; [lia|reflexivity]
        | exists 12%Z; split; [lia|reflexivity]
        | exists 13%Z; split; [lia|reflexivity]
        | exists 14%Z; split; [lia|reflexivity]
        | exists 15%Z; split; [lia|reflexivity] ].

Ltac distinct :=
  repeat (constructor; [cbn [In]; intuition discriminate|]); constructor.

Ltac icon_made :=
  split; [count_tag|];
  split; [first [now left|now right]|];
  split; [split; intro; first [reflexivity|discriminate]|];
  intro; first [discriminate|eexists; split; [reflexivity|cbn; tauto]].

Ltac room_made :=
  split; [reflexivity|]; split;
  [cbn [snd icons map tag]; distinct|
   cbn [snd icons];
   repeat (apply Forall_cons; [icon_made|]); apply Forall_nil].


Lemma desk0_inv : desk_inv desk0.
Proof.
  constructor; desk.
  - cbn. lia.
  - cbn [keys map fst desk0 rooms]. distinct.
  - exists "Foyer". split; [reflexivity|]. now left.
  - unfold desk0. desk.
    repeat (apply Forall_cons; [room_made|]). apply Forall_nil.
Qed.

(** ** Operations on the icons of a session *)

Lemma current_icons_at (s : HaltmannDesktop) (rn : string) (r : Room) :
  current_room s = Some rn -> lookup rn (rooms s) = Some r ->
  current_icons s = icons r.
Proof.
  intros Hc Hl. unfold current_icons, room_at. now rewrite Hc, Hl.
Qed.

Lemma same_tag_same_icon (l : list Icon) (a b : Icon) :
  NoDup (map tag l) -> In a l -> In b l -> tag a = tag b -> a = b.
Proof.
  induction l as [|c l IH]; cbn [map In]; [tauto|].
  intros Hn Ha Hb E. inversion Hn as [|? ? Hnot Hrest]; subst.
  destruct Ha as [->|Ha], Hb as [->|Hb]; auto.
  - exfalso. apply Hnot. rewrite E. now apply in_map.
  - exfalso. apply Hnot. rewrite <- E. now apply in_map.
Qed.

Lemma find_tag (l : list Icon) (t : string) :
  match find (tag_is (Some t)) l with
  | Some ic => In ic l /\ tag ic = t
  | None => forall ic, In ic l -> tag ic <> t
  end.
Proof.
  destruct (find (tag_is (Some t)) l) as [ic|] eqn:E.
  - apply find_some in E. destruct E as [Hin Ht]. split; [exact Hin|].
    now apply String.eqb_eq in Ht.
  - intros ic Hin Ht. pose proof (find_none _ _ E ic Hin) as Hf.
    cbn [tag_is] in Hf. apply String.eqb_neq in Hf. contradiction.
Qed.

Lemma find_the_icon (l : list Icon) (ic : Icon) :
  NoDup (map tag l) -> In ic l -> find (tag_is (Some (tag ic))) l = Some ic.
Proof.
  intros Hn Hin. pose proof (find_tag l (tag ic)) as Hf.
  destruct (find (tag_is (Some (tag ic))) l) as [ic'|].
  - destruct Hf as [Hin' Ht]. f_equal.
    now apply (same_tag_same_icon l).
  - exfalso. now apply (Hf ic Hin).
Qed.

Lemma filter_all {A : Type} (p : A -> bool) (l : list A) :
  (forall a, In a l -> p a = true) -> filter p l = l.
Proof.
  induction l as [|a l IH]; cbn [filter]; [reflexivity|].
  intros H. rewrite (H a (or_introl eq_refl)). f_equal. apply IH.
  intros b Hb. apply H. now right.
Qed.

Lemma filter_length_one {A : Type} (p : A -> bool) (l : list A) :
  (forall a b, In a l -> In b l -> p a = false -> p b = false -> a = b) ->
  NoDup l ->
  (List.length l <= S (List.length (filter p l)))%nat.
Proof.
  induction l as [|a l IH]; cbn [filter List.length]; [lia|].
  intros H Hn. inversion Hn as [|? ? Hnot Hrest]; subst.
  destruct (p a) eqn:Ea; cbn [List.length].
  - assert (List.length l <= S (List.length (filter p l)))%nat; [|lia].
    apply IH; [|exact Hrest]. intros b c Hb Hc. apply H; now right.
  - rewrite filter_all; [lia|]. intros b Hb.
    destruct (p b) eqn:Eb; [reflexivity|]. exfalso. apply Hnot.
    rewrite (H a b); [exact Hb|now left|now right|exact Ea|exact Eb].
Qed.


Lemma store_room_current (s : HaltmannDesktop) (rn : string) (r : Room) :
  current_room s = Some rn -> current_icons (store_room s rn r) = icons r.
Proof.
  intros Hc. unfold current_icons, room_at. desk.
  now rewrite Hc, lookup_setitem_same.
Qed.


(** X13: in a session, [_remove_icon] takes from the current room the
    removable icon with the given tag, and nothing else: at most one icon
    goes, the icons of the apps stay, and the other rooms are as before. *)
Theorem remove_icon_exact (s : HaltmannDesktop) (t : string)
    (Hs : desk_inv s) :
  exists s',
    _remove_icon s (Some t) = Ok s' /\ desk_inv s' /\
    current_icons s' =
      filter (fun ic => negb (String.eqb (tag ic) t && negb (unremovable ic)))
             (current_icons s) /\
    (List.length (current_icons s) <= S (List.length (current_icons s')))%nat /\
    (forall ic, In ic (current_icons s) -> kind ic = "app" ->
                In ic (current_icons s')) /\
    current_room s' = current_room s /\
    (forall k, Some k <> current_room s ->
               lookup k (rooms s') = lookup k (rooms s)).
Proof.
  destruct (remove_icon_safe s (Some t) Hs) as (s' & E & I').
  exists s'. split; [exact E|]. split; [exact I'|].
  destruct (current_room_at s Hs) as (rn & r & Hc & Hl & (Hn & Hd & Hf)).
  rewrite (current_icons_at s rn r Hc Hl).
  set (p := fun ic => negb (String.eqb (tag ic) t && negb (unremovable ic))).
  assert (Hp : forall a b, In a (icons r) -> In b (icons r) ->
                           p a = false -> p b = false -> a = b).
  { intros a b Ha Hb Pa Pb. apply (same_tag_same_icon (icons r)); trivial.
    unfold p in Pa, Pb. apply negb_false_iff, andb_true_iff in Pa, Pb.
    destruct Pa as [Pa _], Pb as [Pb _].
    apply String.eqb_eq in Pa, Pb. congruence. }
  assert (Hres : current_icons s' = filter p (icons r) /\
                 current_room s' = Some rn /\
                 forall k, k <> rn ->
                           lookup k (rooms s') = lookup k (rooms s)).
  { revert E. unfold _remove_icon, _get_icon_by_tag, room_at.
    rewrite Hc, Hl. cbn [bind].
    pose proof (find_tag (icons r) t) as Hfind.
    destruct (find (tag_is (Some t)) (icons r)) as [ic0|].
    - destruct Hfind as [Hin0 Ht0].
      destruct (unremovable ic0) eqn:Eu.
      + intros [= <-]. rewrite (current_icons_at s rn r Hc Hl).
        split; [|split; [exact Hc|reflexivity]].
        symmetry. apply filter_all. intros a Ha. unfold p.
        destruct (String.eqb_spec (tag a) t) as [Et|Nt]; [|reflexivity].
        rewrite (same_tag_same_icon (icons r) a ic0 Hd Ha Hin0)
          by congruence.
        now rewrite Eu.
      + rewrite <- Hc. unfold mutate_room, room_at. rewrite Hc, Hl.
        cbn [bind]. unfold _render_room, room_at. desk.
        rewrite Hc, lookup_setitem_same. cbn [bind]. intros [= <-].
        rewrite store_room_current by exact Hc. desk.
        split; [|split; [exact Hc|]].
        2: { intros k Hk. now apply lookup_setitem_other. }
        apply filter_ext_in. intros a Ha. unfold p. cbn [tag_is].
        destruct (String.eqb_spec (tag a) t) as [Et|Nt]; [|reflexivity].
        rewrite (same_tag_same_icon (icons r) a ic0 Hd Ha Hin0)
          by congruence.
        now rewrite Eu.
    - intros [= <-]. rewrite (current_icons_at s rn r Hc Hl).
      split; [|split; [exact Hc|reflexivity]].
      symmetry. apply filter_all. intros a Ha. unfold p.
      destruct (String.eqb_spec (tag a) t) as [Et|Nt]; [|reflexivity].
      exfalso. now apply (Hfind a Ha). }
  destruct Hres as (Hi & Hcur & Hoth). rewrite Hi, Hc.
  split; [reflexivity|]. split; [|split; [|split; [exact Hcur|]]].
  3: { intros k Hk. apply Hoth. congruence. }
  - apply filter_length_one; [exact Hp|].
    now apply NoDup_map_inv with (f := tag).
  - intros ic Hin Hk. apply filter_In. split; [exact Hin|]. unfold p.
    destruct (proj1 (Forall_forall _ _) Hf ic Hin) as (_ & _ & Hu & _).
    rewrite (proj2 Hu Hk). now rewrite andb_false_r.
Qed.

Lemma remove_icon_exact_witness :
  exists s',
    _remove_icon desk0 (Some "icon_8") = Ok s' /\ desk_inv s' /\
    current_icons s' =
      filter (fun ic =>
                negb (String.eqb (tag ic) "icon_8" && negb (unremovable ic)))
             (current_icons desk0) /\
    (List.length (current_icons desk0) <= S (List.length (current_icons s')))%nat /\
    (forall ic, In ic (current_icons desk0) -> kind ic = "app" ->
                In ic (current_icons s')) /\
    current_room s' = current_room desk0 /\
    (forall k, Some k <> current_room desk0 ->
               lookup k (rooms s') = lookup k (rooms desk0)).
Proof. exact (remove_icon_exact desk0 "icon_8" desk0_inv). Defined.

(** X14: in a session, [_duplicate_icon] puts one new icon at the end of the
    current room: a copy of the icon with the given tag, 24 pixels down and
    to the right, removable if and only if the original is, under a tag that
    no icon of any room has. *)
Theorem duplicate_icon_fresh (s : HaltmannDesktop) (ic : Icon)
    (Hs : desk_inv s) (Hic : In ic (current_icons s)) :
  exists s' new,
    _duplicate_icon s (Some (tag ic)) = Ok s' /\ desk_inv s' /\
    current_icons s' = (current_icons s ++ [new])%list /\
    new = mkIcon ("icon_" ++ str (icon_counter s + 1)) (title ic) (kind ic)
                 (app_id ic) (x ic + 24) (y ic + 24) (w ic) (h ic)
                 (fill ic) (fg ic) (unremovable ic) (animate ic) /\
    icon_counter s' = (icon_counter s + 1)%Z /\
    (forall k r old, lookup k (rooms s) = Some r -> In old (icons r) ->
                     tag old <> tag new).
Proof.
  destruct (duplicate_icon_safe s (Some (tag ic)) Hs) as (s' & E & I').
  exists s'.
  destruct (current_room_at s Hs) as (rn & r & Hc & Hl & (Hn & Hd & Hf)).
  cbn [fst snd] in Hn, Hd, Hf.
  rewrite (current_icons_at s rn r Hc Hl) in *.
  destruct (proj1 (Forall_forall _ _) Hf ic Hic) as (_ & Hk & Hu & _).
  assert (Eu : (if String.eqb (kind ic) "decor" then false
                else unremovable ic) = unremovable ic).
  { destruct (String.eqb_spec (kind ic) "decor") as [Ed|Nd]; [|reflexivity].
    destruct (unremovable ic); [|reflexivity].
    rewrite (proj1 Hu eq_refl) in Ed. discriminate. }
  eexists. split; [exact E|]. split; [exact I'|].
  revert E. unfold _duplicate_icon, _get_icon_by_tag, room_at.
  rewrite Hc, Hl. cbn [bind]. rewrite (find_the_icon _ _ Hd Hic). cbv zeta.
  unfold append_icons, mutate_room, room_at. desk. rewrite Hc, Hl.
  cbn [bind]. unfold _render_room, room_at. desk.
  rewrite Hc, lookup_setitem_same. cbn [bind]. intros [= <-].
  rewrite store_room_current by exact Hc. desk. rewrite Eu.
  split; [reflexivity|]. split; [reflexivity|]. split; [reflexivity|].
  intros k r0 old Hl0 Hold. desk. intros Et.
  destruct Hs as [_ _ _ Hr].
  pose proof (proj1 (Forall_forall _ _) Hr (k, r0) (lookup_In _ _ _ Hl0))
    as (_ & _ & Hf0).
  destruct (proj1 (Forall_forall _ _) Hf0 old Hold) as ((n & Hn0 & Hn1) & _).
  rewrite Hn1 in Et. apply icon_tag_inj in Et. lia.
Qed.

Lemma duplicate_icon_fresh_witness :
  let ic := mkIcon "icon_8" "Coin 1" "decor" None 160 320 40 40 "#f39c12"
                   "#ecf0f1" false true in
  In ic (current_icons desk0) /\
  exists s' new,
    _duplicate_icon desk0 (Some (tag ic)) = Ok s' /\ desk_inv s' /\
    current_icons s' = (current_icons desk0 ++ [new])%list /\
    new = mkIcon ("icon_" ++ str (icon_counter desk0 + 1)) (title ic)
                 (kind ic) (app_id ic) (x ic + 24) (y ic + 24) (w ic) (h ic)
                 (fill ic) (fg ic) (unremovable ic) (animate ic) /\
    icon_counter s' = (icon_counter desk0 + 1)%Z /\
    (forall k r old, lookup k (rooms desk0) = Some r -> In old (icons r) ->
                     tag old <> tag new).
Proof.
  intros ic.
  assert (Hic : In ic (current_icons desk0)).
  { cbn. do 7 right. left. reflexivity. }
  split; [exact Hic|]. exact (duplicate_icon_fresh desk0 ic desk0_inv Hic).
Defined.

(** ** The copy of a room *)

Lemma copy_name_which (rms : dict Room) (rn : string) (fuel : nat) :
  forall (i : Z) (nrn n : string),
    copy_name fuel rms rn i nrn = Some n ->
    n = nrn \/
    (In nrn (keys rms) /\
     exists j, (i < j)%Z /\ n = rn ++ " (Copy " ++ str j ++ ")" /\
               forall m, (i < m < j)%Z ->
                         In (rn ++ " (Copy " ++ str m ++ ")") (keys rms)).
Proof.
  induction fuel as [|fuel IH]; intros i nrn n; cbn [copy_name];
    destruct (contains nrn rms) eqn:E; try discriminate;
    try (intros [= <-]; now left).
  intros H. right. split; [now apply contains_keys|].
  destruct (IH _ _ _ H) as [->|(Hin & j & Hj & -> & Hm)].
  - exists (i + 1)%Z. split; [lia|]. split; [reflexivity|]. intros m Hm. lia.
  - exists j. split; [lia|]. split; [reflexivity|]. intros m Hm'.
    destruct (Z.eq_dec m (i + 1)) as [->|Nm]; [exact Hin|]. apply Hm. lia.
Qed.

(** X15: [_duplicate_current_room] always ends, with one room more: the copy
    goes last, under the first name among "rn (Copy)", "rn (Copy 2)", "rn
    (Copy 3)", ... that no room has, with the theme and the icons of the
    current room [rn], tags included; the rooms there were, the current room
    and the icon counter do not change. *)
Theorem duplicate_room_fresh (s : HaltmannDesktop) (rn : string) (r : Room)
    (Hc : current_room s = Some rn) (Hl : lookup rn (rooms s) = Some r) :
  exists nrn,
    _duplicate_current_room s =
      Ok (set_rooms s (rooms s ++ [(nrn, mkRoom nrn (theme r) (icons r))])%list)
    /\ ~ In nrn (keys (rooms s)) /\
    (nrn = rn ++ " (Copy)" \/
     (In (rn ++ " (Copy)") (keys (rooms s)) /\
      exists i, (2 <= i)%Z /\ nrn = rn ++ " (Copy " ++ str i ++ ")" /\
                forall j, (2 <= j < i)%Z ->
                          In (rn ++ " (Copy " ++ str j ++ ")")
                             (keys (rooms s)))).
Proof.
  destruct (copy_name_total (rooms s) rn) as (n & E & Hfree). exists n.
  unfold _duplicate_current_room. rewrite Hc, E. unfold room_at. rewrite Hl.
  cbn [bind]. rewrite icons_round_trip. cbn [bind].
  rewrite setitem_new by exact Hfree.
  split; [reflexivity|]. split; [exact Hfree|].
  destruct (copy_name_which _ _ _ _ _ _ E) as [->|(Hin & j & Hj & -> & Hm)];
    [now left|right].
  split; [exact Hin|]. exists j. split; [lia|]. split; [reflexivity|].
  intros m Hm'. apply Hm. lia.
Qed.

Lemma duplicate_room_fresh_witness :
  let r := mkRoom "Library" "library"
             [mkIcon "icon_13" "TextPad" "app" (Some "textpad") 140 150 110
                     80 "#3498db" "#ecf0f1" true false] in
  let s := set_current_room desk0 (Some "Library") in
  current_room s = Some "Library" /\
  lookup "Library" (rooms s) = Some r /\
  exists nrn,
    _duplicate_current_room s =
      Ok (set_rooms s (rooms s ++ [(nrn, mkRoom nrn (theme r) (icons r))])%list)
    /\ ~ In nrn (keys (rooms s)) /\
    (nrn = "Library" ++ " (Copy)" \/
     (In ("Library" ++ " (Copy)") (keys (rooms s)) /\
      exists i, (2 <= i)%Z /\ nrn = "Library" ++ " (Copy " ++ str i ++ ")" /\
                forall j, (2 <= j < i)%Z ->
                          In ("Library" ++ " (Copy " ++ str j ++ ")")
                             (keys (rooms s)))).
Proof.
  intros r s.
  assert (Hc : current_room s = Some "Library") by reflexivity.
  assert (Hl : lookup "Library" (rooms s) = Some r) by reflexivity.
  split; [exact Hc|]. split; [exact Hl|].
  exact (duplicate_room_fresh s "Library" r Hc Hl).
Defined.

(** ** Dragging *)

Lemma tag_nonempty (c : Z) (ic : Icon) :
  icon_ok c ic -> nonempty (Some (tag ic)) = true.
Proof.
  intros ((n & _ & ->) & _). reflexivity.
Qed.


(** X16: in edit mode, a click on an icon followed by a movement of the
    mouse moves that icon by the displacement of the cursor, and leaves
    every other icon of the room where it is. *)
Theorem drag_follows_cursor (s : HaltmannDesktop) (ic : Icon)
    (ex ey ex' ey' : Q) (rnd : Draw)
    (Hs : desk_inv s) (He : edit_mode s = true)
    (Hic : In ic (current_icons s)) :
  exists s1 s2 ic',
    _on_canvas_click s (Some (tag ic)) ex ey rnd = Ok s1 /\
    _on_canvas_drag s1 ex' ey' = Ok s2 /\
    current_icons s2 = store_icon ic' (current_icons s) /\
    ic' = set_y (set_x ic (ex' - (ex - x ic))) (ey' - (ey - y ic)) /\
    x ic' == x ic + (ex' - ex) /\ y ic' == y ic + (ey' - ey) /\
    (forall k, In k (current_icons s) -> tag k <> tag ic ->
               In k (current_icons s2)) /\
    desk_inv s2.
Proof.
  destruct (current_room_at s Hs) as (rn & r & Hc & Hl & (Hn & Hd & Hf)).
  cbn [fst snd] in Hn, Hd, Hf.
  rewrite (current_icons_at s rn r Hc Hl) in *.
  pose proof (proj1 (Forall_forall _ _) Hf ic Hic) as Hok.
  set (s1 := set_drag s true (Some (tag ic)) (ex - x ic) (ey - y ic)).
  assert (E1 : _on_canvas_click s (Some (tag ic)) ex ey rnd = Ok s1).
  { unfold _on_canvas_click. cbv zeta. rewrite (tag_nonempty _ _ Hok).
    unfold _get_icon_by_tag, room_at. rewrite Hc, Hl. cbn [bind].
    rewrite (find_the_icon _ _ Hd Hic), He. reflexivity. }
  assert (I1 : desk_inv s1) by (destruct Hs; now constructor).
  destruct (drag_safe s1 ex' ey' I1) as (s2 & E2 & I2).
  exists s1, s2. eexists. split; [exact E1|]. split; [exact E2|].
  revert E2. clear E1 I1. subst s1. unfold _on_canvas_drag. desk.
  rewrite (tag_nonempty _ _ Hok). cbn [andb].
  unfold _get_icon_by_tag, room_at. desk.
  rewrite Hc, Hl. cbn [bind]. rewrite (find_the_icon _ _ Hd Hic). cbv zeta.
  unfold update_icon, mutate_room, room_at. desk.
  rewrite Hc, Hl. cbn [bind]. unfold _render_room, room_at. desk.
  rewrite Hc, lookup_setitem_same. cbn [bind]. intros [= <-].
  rewrite store_room_current by exact Hc. desk.
  split; [reflexivity|]. split; [reflexivity|]. desk.
  split; [ring|]. split; [ring|]. split; [|exact I2].
  intros k Hk Hne. clear - Hk Hne.
  induction (icons r) as [|a l IH]; cbn [store_icon]; [destruct Hk|].
  desk. destruct (String.eqb_spec (tag a) (tag ic)) as [Ea|Na].
  - destruct Hk as [->|Hk]; [contradiction|now right].
  - destruct Hk as [->|Hk]; [now left|right; now apply IH].
Qed.

Lemma drag_follows_cursor_witness :
  let s := set_edit_mode desk0 true in
  let ic := mkIcon "icon_8" "Coin 1" "decor" None 160 320 40 40 "#f39c12"
                   "#ecf0f1" false true in
  edit_mode s = true /\ In ic (current_icons s) /\
  exists s1 s2 ic',
    _on_canvas_click s (Some (tag ic)) 170 330 (mkDraw "Star" 48 40 "" true)
      = Ok s1 /\
    _on_canvas_drag s1 300 200 = Ok s2 /\
    current_icons s2 = store_icon ic' (current_icons s) /\
    ic' = set_y (set_x ic (300 - (170 - x ic))) (200 - (330 - y ic)) /\
    x ic' == x ic + (300 - 170) /\ y ic' == y ic + (200 - 330) /\
    (forall k, In k (current_icons s) -> tag k <> tag ic ->
               In k (current_icons s2)) /\
    desk_inv s2.
Proof.
  intros s ic.
  assert (Hs : desk_inv s) by (destruct desk0_inv; now constructor).
  assert (He : edit_mode s = true) by reflexivity.
  assert (Hic : In ic (current_icons s)).
  { cbn. do 7 right. left. reflexivity. }
  split; [exact He|]. split; [exact Hic|].
  exact (drag_follows_cursor s ic 170 330 300 200
           (mkDraw "Star" 48 40 "" true) Hs He Hic).
Defined.

(** ** Sessions *)


(** X18: a room and an icon come back from their dicts as they went in:
    [from_dict] raises nothing on the result of [to_dict] and rebuilds every
    field. *)
Theorem dict_round_trip (r : Room) :
  Room_from_dict (Room_to_dict r) = Ok r /\
  forall ic, Icon_from_dict (Icon_to_dict ic) = Ok ic.
Proof. split; [apply room_round_trip|apply icon_round_trip]. Qed.

(** ** Layout files *)

(** X19: [load_layout] empties the desktop before it reads, and puts nothing
    back when it fails: after a file that lists no room (no dict, no
    "rooms", no list or an empty one) the handler has caught an exception,
    the desktop has no room left and still the current room of before, and
    every access to the current room raises KeyError. *)
Theorem load_without_rooms (s : HaltmannDesktop) (data : Val)
    (Hdata : listed_rooms data = []) :
  exists e,
    load_layout s data = Ok (set_rooms s [], Some e) /\
    _render_room (set_rooms s []) = Raise (KeyError (current_room s)) /\
    forall t,
      _get_icon_by_tag (set_rooms s []) t = Raise (KeyError (current_room s)).
Proof.
  assert (Hr : forall A (f : Room -> Outcome A),
             (r <- room_at (set_rooms s []) (current_room s) ;; f r) =
             Raise (KeyError (current_room s))).
  { intros A f. unfold room_at. desk. now destruct (current_room s). }
  assert (Hl : exists e, load_layout s data = Ok (set_rooms s [], Some e)).
  { unfold load_layout. cbv zeta. destruct data as [| | | | |d];
      try (now eexists).
    unfold listed_rooms in Hdata.
    destruct (get d "rooms" (VList [])) as [| | |str|l|d'];
      try (now eexists).
    - destruct str as [|c str]; now eexists.
    - subst l. now eexists.
    - destruct d' as [|[k v] d']; now eexists. }
  destruct Hl as [e Hl]. exists e. split; [exact Hl|].
  split; [apply Hr|]. intros t. apply Hr.
Qed.

Lemma load_without_rooms_witness :
  listed_rooms (VDict [("app_title", VStr APP_TITLE)]) = [] /\
  exists e,
    load_layout desk0 (VDict [("app_title", VStr APP_TITLE)]) =
      Ok (set_rooms desk0 [], Some e) /\
    _render_room (set_rooms desk0 []) = Raise (KeyError (current_room desk0)) /\
    forall t,
      _get_icon_by_tag (set_rooms desk0 []) t =
        Raise (KeyError (current_room desk0)).
Proof.
  assert (H : listed_rooms (VDict [("app_title", VStr APP_TITLE)]) = [])
    by reflexivity.
  split; [exact H|]. exact (load_without_rooms desk0 _ H).
Defined.

Lemma leb_trans (a b c : string) :
  String.leb a b = true -> String.leb b c = true -> String.leb a c = true.
Proof.
  assert (L : forall u v, String.leb u v = true <->
                          u = v \/ OrderedTypeEx.String_as_OT.lt u v).
  { intros u v. unfold String.leb.
    rewrite <- OrderedTypeEx.String_as_OT.cmp_lt,
            <- OrderedTypeEx.String_as_OT.cmp_eq.
    unfold OrderedTypeEx.String_as_OT.cmp.
    destruct (String.compare u v); intuition congruence. }
  rewrite !L. intros [->|H1] [->|H2]; auto. right.
  eapply OrderedTypeEx.String_as_OT.lt_trans; eauto.
Qed.

Lemma leb_refl (a : string) : String.leb a a = true.
Proof. destruct (String.leb_total a a); assumption. Qed.


Lemma sorted_head (l : list string) :
  match sorted l with
  | [] => l = []
  | k :: ks => In k l /\ forall b, In b l -> String.leb k b = true
  end.
Proof.
  induction l as [|a l IH]; cbn [sorted fold_right]; [reflexivity|].
  fold (sorted l). destruct (sorted l) as [|k ks]; cbn [insert].
  - subst l. split; [now left|]. intros b [<-|[]]. apply leb_refl.
  - destruct IH as [Hin Hle]. destruct (String.leb a k) eqn:E.
    + split; [now left|]. intros b [<-|Hb]; [apply leb_refl|].
      eapply leb_trans; [exact E|now apply Hle].
    + split; [now right|]. intros b [<-|Hb]; [|now apply Hle].
      destruct (String.leb_total a k) as [H|H]; [congruence|exact H].
Qed.

Lemma insert_sorted (a : string) (l : list string) :
  Sorted.LocallySorted (fun u v => String.leb u v = true) l ->
  Sorted.LocallySorted (fun u v => String.leb u v = true) (insert a l).
Proof.
  induction 1 as [|b|b c l Hl IH Hbc]; cbn [insert].
  - constructor.
  - destruct (String.leb a b) eqn:E.
    + constructor; [constructor|exact E].
    + constructor; [constructor|].
      destruct (String.leb_total a b) as [H|H]; [congruence|exact H].
  - destruct (String.leb a b) eqn:E.
    + constructor; [constructor; assumption|exact E].
    + cbn [insert] in IH. destruct (String.leb a c) eqn:E'.
      * constructor; [exact IH|].
        destruct (String.leb_total a b) as [H|H]; [congruence|exact H].
      * constructor; [exact IH|exact Hbc].
Qed.

Lemma sorted_sorted (l : list string) :
  Sorted.LocallySorted (fun u v => String.leb u v = true) (sorted l).
Proof.
  induction l as [|a l IH]; cbn [sorted fold_right]; [constructor|].
  now apply insert_sorted.
Qed.

Lemma sorted_fixed (l : list string) :
  Sorted.LocallySorted (fun u v => String.leb u v = true) l -> sorted l = l.
Proof.
  induction 1 as [|b|b c l Hl IH Hbc]; [reflexivity|reflexivity|].
  change (sorted (b :: c :: l)) with (insert b (sorted (c :: l))).
  rewrite IH. cbn [insert]. now rewrite Hbc.
Qed.

Lemma sorted_idem (l : list string) : sorted (sorted l) = sorted l.
Proof. apply sorted_fixed, sorted_sorted. Qed.

Lemma insert_NoDup (a : string) (l : list string) :
  NoDup l -> ~ In a l -> NoDup (insert a l).
Proof.
  induction l as [|b l IH]; cbn [insert]; intros Hn Ha.
  - now constructor.
  - destruct (String.leb a b); [now constructor|].
    inversion Hn as [|? ? Hb Hl]; subst. constructor.
    + rewrite insert_In. cbn [In] in Ha. intuition congruence.
    + apply IH; [exact Hl|]. cbn [In] in Ha. tauto.
Qed.

Lemma sorted_NoDup (l : list string) : NoDup l -> NoDup (sorted l).
Proof.
  induction 1 as [|a l Ha Hl IH]; cbn [sorted fold_right]; [constructor|].
  apply insert_NoDup; [exact IH|]. now rewrite sorted_In.
Qed.

Lemma mapM_all {A B : Type} (f : A -> Outcome B) (g : A -> B) (l : list A) :
  (forall a, In a l -> f a = Ok (g a)) -> mapM f l = Ok (map g l).
Proof.
  induction l as [|a l IH]; cbn [mapM map]; [reflexivity|]. intros H.
  rewrite (H a (or_introl eq_refl)). cbn [bind]. rewrite IH; [reflexivity|].
  intros b Hb. apply H. now right.
Qed.

Lemma load_rooms_saved (g : string -> Room) (ks : list string) :
  (forall k, In k ks -> name (g k) = k) -> NoDup ks ->
  forall self,
    (forall k, In k ks -> ~ In k (keys (rooms self))) ->
    load_rooms (map (fun k => Room_to_dict (g k)) ks) self =
      Ok (set_rooms self (rooms self ++ map (fun k => (k, g k)) ks)%list,
          None).
Proof.
  intros Hg Hn. induction Hn as [|k ks Hk Hn IH]; intros self Hnew;
    cbn [map load_rooms].
  - rewrite app_nil_r. now destruct self.
  - rewrite room_round_trip, (Hg k (or_introl eq_refl)).
    rewrite IH.
    + desk. rewrite setitem_new by (apply Hnew; now left).
      rewrite <- app_assoc. reflexivity.
    + intros k' Hk'. apply Hg. now right.
    + intros k' Hk'. desk. rewrite keys_setitem_In.
      intros [->|Hin]; [contradiction|]. apply (Hnew k'); [now right|exact Hin].
Qed.

Lemma lookup_tabulate {A : Type} (g : string -> A) (ks : list string)
    (k : string) :
  lookup k (map (fun k => (k, g k)) ks) =
  if in_dec string_dec k ks then Some (g k) else None.
Proof.
  induction ks as [|a ks IH]; cbn [map lookup]; [reflexivity|].
  destruct (String.eqb_spec a k) as [->|N].
  - destruct (in_dec string_dec k (k :: ks)) as [_|H]; [reflexivity|].
    exfalso. apply H. now left.
  - rewrite IH. destruct (in_dec string_dec k ks) as [H|H],
      (in_dec string_dec k (a :: ks)) as [H'|H']; try reflexivity.
    + exfalso. apply H'. now right.
    + exfalso. destruct H' as [E|H']; [congruence|contradiction].
Qed.

(** X20: the data that [save_layout] writes, read by [load_layout] on any
    desktop, gives back every room with its theme and its icons, in the
    order of the names; the current room is then the first name in that
    order, and the icon counter, which is not in the file, is the one of the
    desktop that loads. *)
Theorem save_then_load (s s0 : HaltmannDesktop) (time : string)
    (Hkeys : NoDup (keys (rooms s)))
    (Hfiled : Forall (fun kr => name (snd kr) = fst kr) (rooms s))
    (Hsome : rooms s <> []) :
  exists data s1 first,
    save_layout s time = Ok data /\
    load_layout s0 data = Ok (s1, None) /\
    keys (rooms s1) = sorted (keys (rooms s)) /\
    (forall k, lookup k (rooms s1) = lookup k (rooms s)) /\
    current_room s1 = Some first /\
    In first (keys (rooms s)) /\
    (forall k, In k (keys (rooms s)) -> String.leb first k = true) /\
    icon_counter s1 = icon_counter s0.
Proof.
  assert (Hnames : forall k r, lookup k (rooms s) = Some r -> name r = k).
  { intros k r Hl. apply lookup_In in Hl.
    exact (proj1 (Forall_forall _ _) Hfiled (k, r) Hl). }
  set (g := fun k => match lookup k (rooms s) with
                     | Some r => r
                     | None => mkRoom "" "" []
                     end).
  set (ks := sorted (keys (rooms s))).
  assert (Hg : forall k, In k ks -> lookup k (rooms s) = Some (g k)).
  { intros k Hk. apply sorted_In, lookup_keys in Hk. destruct Hk as [r Hr].
    unfold g. now rewrite Hr. }
  assert (Esave : save_layout s time =
                  Ok (VDict [("app_title", VStr APP_TITLE);
                             ("time", VStr time);
                             ("rooms",
                              VList (map (fun k => Room_to_dict (g k)) ks))])).
  { unfold save_layout. fold ks.
    rewrite (mapM_all _ (fun k => Room_to_dict (g k))); [reflexivity|].
    intros k Hk. unfold room_at. now rewrite (Hg k Hk). }
  assert (Hex : exists first rest,
             ks = first :: rest /\ In first (keys (rooms s)) /\
             forall b, In b (keys (rooms s)) -> String.leb first b = true).
  { pose proof (sorted_head (keys (rooms s))) as Hhead. fold ks in Hhead.
    destruct ks as [|first rest].
    - exfalso. destruct (rooms s); [now apply Hsome|discriminate].
    - now exists first, rest. }
  destruct Hex as (first & rest & Eks & Hfirst & Hleast).
  assert (Eload : load_rooms (map (fun k => Room_to_dict (g k)) ks)
                             (set_rooms s0 []) =
                  Ok (set_rooms s0 (map (fun k => (k, g k)) ks), None)).
  { rewrite (load_rooms_saved g ks); [reflexivity| | |].
    - intros k Hk. apply (Hnames k). apply Hg. exact Hk.
    - now apply sorted_NoDup.
    - intros k _ []. }
  eexists. exists (set_current_room
                     (set_rooms s0 (map (fun k => (k, g k)) ks))
                     (Some first)), first.
  split; [exact Esave|].
  assert (Hkeys1 : keys (map (fun k => (k, g k)) ks) = ks).
  { unfold keys. rewrite map_map. cbn [fst]. apply map_id. }
  split; [|split; [|split; [|split; [|split; [|split]]]]].
  - unfold load_layout. cbv zeta.
    cbn [get lookup String.eqb Ascii.eqb Bool.eqb iter].
    rewrite Eload. cbn [bind]. desk. rewrite Hkeys1.
    replace (sorted ks) with ks by (symmetry; apply sorted_idem).
    rewrite Eks. cbn [map]. unfold _render_room, room_at. desk.
    cbn [lookup]. rewrite String.eqb_refl. reflexivity.
  - desk. rewrite Hkeys1. reflexivity.
  - intros k. desk. rewrite lookup_tabulate.
    destruct (in_dec string_dec k ks) as [H|H].
    + symmetry. now apply Hg.
    + destruct (lookup k (rooms s)) as [r|] eqn:El; [|reflexivity].
      exfalso. apply H. unfold ks. apply sorted_In, lookup_keys. now exists r.
  - reflexivity.
  - exact Hfirst.
  - exact Hleast.
  - reflexivity.
Qed.

Lemma save_then_load_witness :
  NoDup (keys (rooms desk0)) /\
  Forall (fun kr => name (snd kr) = fst kr) (rooms desk0) /\
  rooms desk0 <> [] /\
  exists data s1 first,
    save_layout desk0 "2025-01-01 12:00:00" = Ok data /\
    load_layout blank data = Ok (s1, None) /\
    keys (rooms s1) = sorted (keys (rooms desk0)) /\
    (forall k, lookup k (rooms s1) = lookup k (rooms desk0)) /\
    current_room s1 = Some first /\
    In first (keys (rooms desk0)) /\
    (forall k, In k (keys (rooms desk0)) -> String.leb first k = true) /\
    icon_counter s1 = icon_counter blank.
Proof.
  assert (H1 : NoDup (keys (rooms desk0))) by exact (desk_keys _ desk0_inv).
  assert (H2 : Forall (fun kr => name (snd kr) = fst kr) (rooms desk0)).
  { repeat (apply Forall_cons; [reflexivity|]). apply Forall_nil. }
  assert (H3 : rooms desk0 <> []) by discriminate.
  split; [exact H1|]. split; [exact H2|]. split; [exact H3|].
  exact (save_then_load desk0 blank "2025-01-01 12:00:00" H1 H2 H3).
Defined.

Lemma find_app_l {A : Type} (p : A -> bool) (l l' : list A) (a : A) :
  find p l = Some a -> find p (l ++ l') = Some a.
Proof.
  induction l as [|b l IH]; cbn [find app]; [discriminate|].
  destruct (p b); [trivial|exact IH].
Qed.

(** X21: a new decoration gets the tag of the counter whether the room has
    it or not. In a room that holds an icon with the next tag, as a room
    loaded from a file can, the decoration shares its tag with that icon;
    [_remove_icon] on the tag then removes both when the old icon is
    removable, and neither when it is not. *)
Theorem stale_counter_shares_tag (s : HaltmannDesktop) (rn : string)
    (r : Room) (ic : Icon) (x y : Q) (rnd : Draw)
    (Hc : current_room s = Some rn) (Hl : lookup rn (rooms s) = Some r)
    (Hd : NoDup (map tag (icons r))) (Hic : In ic (icons r))
    (Htag : tag ic = "icon_" ++ str (icon_counter s + 1)) :
  exists s' new s'',
    _add_random_decor s x y rnd = Ok s' /\
    current_icons s' = (icons r ++ [new])%list /\
    tag new = tag ic /\ unremovable new = false /\
    _remove_icon s' (Some (tag new)) = Ok s'' /\
    (unremovable ic = true -> current_icons s'' = current_icons s') /\
    (unremovable ic = false ->
     current_icons s'' =
       filter (fun k => negb (String.eqb (tag k) (tag ic))) (icons r)).
Proof.
  pose proof (find_app_l (tag_is (Some (tag ic))) (icons r)
                [mkIcon (tag ic) (d_title rnd) "decor" None x y
                        (inject_Z (d_w rnd)) (inject_Z (d_h rnd)) (d_fill rnd)
                        default_fg false (d_animate rnd)] ic
                (find_the_icon _ _ Hd Hic)) as Hfind.
  unfold _add_random_decor, _mk_decor_icon. cbv zeta. desk.
  unfold append_icons, mutate_room, room_at. desk. rewrite Hc, Hl.
  cbn [bind]. unfold _render_room at 1. unfold room_at. desk.
  rewrite Hc, lookup_setitem_same. cbn [bind]. rewrite <- Htag.
  unfold _remove_icon, _get_icon_by_tag, room_at. desk.
  destruct (unremovable ic) eqn:Eu.
  - eexists. eexists. eexists. split; [reflexivity|].
    rewrite store_room_current by exact Hc. desk.
    split; [reflexivity|]. split; [reflexivity|]. split; [reflexivity|].
    rewrite Hc, lookup_setitem_same. cbn [bind]. desk. rewrite Hfind, Eu.
    split; [reflexivity|]. split; [|discriminate]. intros _.
    now rewrite store_room_current by exact Hc.
  - eexists. eexists. eexists. split; [reflexivity|].
    rewrite store_room_current by exact Hc. desk.
    split; [reflexivity|]. split; [reflexivity|]. split; [reflexivity|].
    rewrite Hc, lookup_setitem_same. cbn [bind]. desk. rewrite Hfind, Eu.
    unfold mutate_room, room_at. desk. rewrite ?Hc, ?lookup_setitem_same.
    cbn [bind]. unfold _render_room, room_at. desk.
    rewrite ?Hc, ?lookup_setitem_same. cbn [bind].
    split; [reflexivity|]. split; [discriminate|]. intros _.
    rewrite store_room_current by exact Hc. desk.
    rewrite filter_app. cbn [filter tag_is]. desk.
    rewrite String.eqb_refl. cbn [negb]. now rewrite app_nil_r.
Qed.

Lemma stale_counter_shares_tag_witness :
  let rnd := mkDraw "Star" 48 40 "#f39c12" false in
  let saved :=
    self <- _on_canvas_click (set_edit_mode desk0 true) None 30 40 rnd ;;
    save_layout self "2025-01-01 12:00:00" in
  let s := match data <- saved ;; load_layout desk0 data with
           | Ok (self, None) => self
           | _ => blank
           end in
  let r := match lookup "Foyer" (rooms s) with
           | Some r => r
           | None => mkRoom "" "" []
           end in
  let ic := mkIcon "icon_16" "Star" "decor" None 30 40 48 40 "#f39c12"
                   default_fg false false in
  current_room s = Some "Foyer" /\ lookup "Foyer" (rooms s) = Some r /\
  NoDup (map tag (icons r)) /\ In ic (icons r) /\
  tag ic = "icon_" ++ str (icon_counter s + 1) /\
  exists s' new s'',
    _add_random_decor s 200 90 rnd = Ok s' /\
    current_icons s' = (icons r ++ [new])%list /\
    tag new = tag ic /\ unremovable new = false /\
    _remove_icon s' (Some (tag new)) = Ok s'' /\
    (unremovable ic = true -> current_icons s'' = current_icons s') /\
    (unremovable ic = false ->
     current_icons s'' =
       filter (fun k => negb (String.eqb (tag k) (tag ic))) (icons r)).
Proof.
  intros rnd saved s r ic.
  assert (Hc : current_room s = Some "Foyer") by (vm_compute; reflexivity).
  assert (Hl : lookup "Foyer" (rooms s) = Some r) by (vm_compute; reflexivity).
  assert (Hd : NoDup (map tag (icons r))) by (vm_compute; distinct).
  assert (Hic : In ic (icons r)) by (vm_compute; do 12 right; left; reflexivity).
  assert (Htag : tag ic = "icon_" ++ str (icon_counter s + 1))
    by (vm_compute; reflexivity).
  split; [exact Hc|]. split; [exact Hl|]. split; [exact Hd|].
  split; [exact Hic|]. split; [exact Htag|].
  exact (stale_counter_shares_tag s "Foyer" r ic 200 90 rnd Hc Hl Hd Hic Htag).
Defined.

(** ** Deleting a room *)

Lemma delitem_filter {A : Type} (k : string) (d : dict A) :
  NoDup (keys d) -> In k (keys d) ->
  delitem k d = Ok (filter (fun kr => negb (String.eqb (fst kr) k)) d).
Proof.
  induction d as [|[k' v'] d IH]; cbn [keys map fst In delitem filter];
    [tauto|].
  intros Hn Hin. apply NoDup_cons_iff in Hn. destruct Hn as [Hnot Hn].
  destruct (String.eqb_spec k' k) as [->|N]; cbn [negb].
  - f_equal. symmetry. apply filter_all. intros [k1 v1] H1. cbn [fst].
    destruct (String.eqb_spec k1 k) as [->|]; [|reflexivity].
    exfalso. apply Hnot. apply (in_map fst) in H1. exact H1.
  - destruct Hin as [E|Hin]; [congruence|].
    fold (keys d) in Hn, Hin. rewrite (IH Hn Hin). reflexivity.
Qed.

(** X22: [_delete_current_room] never deletes the last room and deletes
    nothing without the confirmation; otherwise it takes exactly the current
    room away, keeps the others as they are and in their order, and makes
    the first of their names in sorted order the current room. *)
Theorem delete_room_exact (s : HaltmannDesktop) (rn : string) (yes : bool)
    (Hs : desk_inv s) (Hc : current_room s = Some rn) :
  exists s',
    _delete_current_room s yes = Ok s' /\ desk_inv s' /\
    (yes = false \/ (List.length (rooms s) <= 1)%nat -> s' = s) /\
    (yes = true -> (2 <= List.length (rooms s))%nat ->
     rooms s' = filter (fun kr => negb (String.eqb (fst kr) rn)) (rooms s) /\
     S (List.length (rooms s')) = List.length (rooms s) /\
     ~ In rn (keys (rooms s')) /\
     (forall k, k <> rn -> lookup k (rooms s') = lookup k (rooms s)) /\
     exists first,
       current_room s' = Some first /\ In first (keys (rooms s')) /\
       forall k, In k (keys (rooms s')) -> String.leb first k = true).
Proof.
  destruct (delete_room_safe s yes Hs) as (s' & E & I'). exists s'.
  split; [exact E|]. split; [exact I'|].
  revert E. unfold _delete_current_room.
  destruct (Nat.leb_spec (List.length (rooms s)) 1) as [Hle|Hgt].
  { intros [= <-]. split; [reflexivity|]. intros _ H2. lia. }
  cbv zeta. destruct yes.
  2: { intros [= <-]. split; [reflexivity|]. discriminate. }
  rewrite Hc. destruct Hs as [_ Hk (rn' & Hc' & Hin) _].
  assert (rn' = rn) by congruence. subst rn'.
  rewrite (delitem_filter rn (rooms s) Hk Hin). cbn [bind]. desk.
  set (d' := filter (fun kr => negb (String.eqb (fst kr) rn)) (rooms s)).
  pose proof (sorted_head (keys d')) as Hhead.
  destruct (sorted (keys d')) as [|first rest]; [discriminate|].
  destruct Hhead as [Hfirst Hleast].
  unfold _render_room, room_at. desk.
  destruct (proj1 (lookup_keys first d') Hfirst) as [r Hr]. rewrite Hr.
  cbn [bind]. intros [= <-]. desk.
  split; [intros [H|H]; [discriminate|lia]|]. intros _ _.
  destruct (delitem_spec rn (rooms s) Hin) as (d2 & Ed & Hlen & _).
  rewrite (delitem_filter rn (rooms s) Hk Hin) in Ed.
  injection Ed as <-. fold d' in Hlen.
  split; [reflexivity|]. split; [now rewrite Hlen|]. split; [|split].
  - unfold d', keys. intros H. apply in_map_iff in H.
    destruct H as ([k v] & Ek & H). apply filter_In in H. cbn [fst] in *.
    subst k. destruct H as [_ H]. rewrite String.eqb_refl in H. discriminate.
  - intros k Hne. unfold d'. clear - Hne.
    induction (rooms s) as [|[k1 v1] d IH]; cbn [filter lookup fst];
      [reflexivity|].
    destruct (String.eqb_spec k1 rn) as [->|N1]; cbn [negb lookup].
    + destruct (String.eqb_spec rn k); [congruence|exact IH].
    + destruct (String.eqb_spec k1 k); [reflexivity|exact IH].
  - exists first. split; [reflexivity|]. split; assumption.
Qed.

Lemma delete_room_exact_witness :
  current_room desk0 = Some "Foyer" /\
  exists s',
    _delete_current_room desk0 true = Ok s' /\ desk_inv s' /\
    (true = false \/ (List.length (rooms desk0) <= 1)%nat -> s' = desk0) /\
    (true = true -> (2 <= List.length (rooms desk0))%nat ->
     rooms s' =
       filter (fun kr => negb (String.eqb (fst kr) "Foyer")) (rooms desk0) /\
     S (List.length (rooms s')) = List.length (rooms desk0) /\
     ~ In "Foyer" (keys (rooms s')) /\
     (forall k, k <> "Foyer" ->
                lookup k (rooms s') = lookup k (rooms desk0)) /\
     exists first,
       current_room s' = Some first /\ In first (keys (rooms s')) /\
       forall k, In k (keys (rooms s')) -> String.leb first k = true).
Proof.
  assert (Hc : current_room desk0 = Some "Foyer") by reflexivity.
  split; [exact Hc|].
  exact (delete_room_exact desk0 "Foyer" true desk0_inv Hc).
Defined.

(** ** Opening an icon *)


